(** * Natours: the request pipeline of [app.js] and the process supervisor

    A shallow embedding of the source files of the repository:

    - [app.js], the Express application: an ordered stack of middleware and
      routes.  It is embedded as the list [app] of layers, in registration
      order, together with the dispatch rule of an Express router
      ([handle]) and one function per middleware the file installs.
    - the start-up script (the file that requires ['./app'], listens and
      installs the [process.on] handlers), embedded in [Module Supervisor]
      (the handlers) and [Module Startup] (the connection string and the
      order of the script).
    - the two scripts of the browser: the request of [bookTour]
      ([Module Booking]) and [displayMap] ([Module MapClient]).

    The middleware that [app.js] takes from npm packages is modelled by its
    documented behaviour under the options written in [app.js]; what those
    packages compute and no property below depends on (JSON syntax, the
    charsets that can be decoded, the sanitisers' rewriting, cookie
    syntax) is a field of [Library].  The
    modules of the repository that [app.js] requires but that are not among
    the sources (the routers and the booking controller) are the fields of
    [Collaborators]; [AppError] and [globalErrorHandler] follow the
    specification. *)

From Stdlib Require Import ZArith Ascii String List Lia Bool DecimalString.
From Stdlib.Strings Require Import Byte.
From stdpp Require Import gmap strings list fin_maps.

Set Warnings "-register-all".
Local Open Scope string_scope.

(** ** Data model *)

Inductive Method := GET | HEAD | POST | PUT | PATCH | DELETE | OPTIONS.

#[global] Instance Method_eq_dec : EqDecision Method.
Proof. solve_decision. Defined.

(** What a parsed query string or an url-encoded body holds: strings,
    arrays and nested objects. *)
Inductive Value : Type :=
  | VUndefined
  | VStr (s : string)
  | VArr (xs : list Value)
  | VObj (fields : gmap string Value).

(** [req.body].  A JSON document is kept as an opaque text: no stage of
    [app.js] looks inside one. *)
Inductive Body :=
  | NoBody                                   (* undefined *)
  | Fields (o : gmap string Value)           (* {} or an url-encoded form *)
  | Buffer (bytes : list byte)               (* express.raw *)
  | Json (text : list byte).                 (* express.json *)

(** The [Content-Encoding] of a request.  For a compressed payload the
    record carries what the payload inflates to (the zlib message when the stream is
    corrupt). *)
Inductive Encoding :=
  | Identity
  | Compressed (inflated : string + list byte)
  | UnsupportedEncoding (name : string).

(** The part of a request that the pipeline only reads. *)
Record Wire := {
  method : Method;
  path : string;                  (* req.path *)
  search : option string;         (* the query string, without the '?' *)
  ip : string;                    (* req.ip ('trust proxy' is enabled) *)
  contentType : option string;    (* media type of Content-Type, lower case *)
  charset : option string;        (* charset parameter of Content-Type, lower case *)
  contentEncoding : Encoding;
  hasBody : bool;                 (* Content-Length or Transfer-Encoding is present *)
  payload : list byte;            (* the entity body as sent *)
  cookieHeader : option string
}.

(** The properties that middleware writes on [req]. *)
Record Props := {
  query : gmap string Value;          (* req.query *)
  queryPolluted : gmap string Value;  (* req.queryPolluted *)
  body : Body;                        (* req.body *)
  bodyPolluted : gmap string Value;   (* req.bodyPolluted *)
  body_read : bool;                   (* req._body *)
  cookies : option (gmap string Value);
  requestTime : option Z;             (* instant of [new Date()], in ms *)
  locals : gmap string Value          (* what handlers attach (req.user, res.locals) *)
}.

Record Request := { wire : Wire; props : Props }.

(** [req.originalUrl] *)
Definition originalUrl (w : Wire) : string :=
  match search w with
  | Some q => path w ++ "?" ++ q
  | None => path w
  end.

(** An error handed to [next]: its status code, message and the
    [isOperational] mark. *)
Record Fault := { code : nat; message : string; isOperational : bool }.

(** Status classes of the error body: 4xx client fault, otherwise server
    fault. *)
Inductive FaultClass := ClientFault | ServerFault.

Inductive Payload :=
  | Empty
  | Text (s : string)
  | Bytes (b : list byte)
  | Redirect (location : string)
  | Document (v : Body)
  | ErrorJson (status : FaultClass) (msg : string) (detail : option Fault).

Record Response := { statusCode : nat; content : Payload }.

(** What a middleware function does with a request: [next()], [next(err)],
    or it ends the response. *)
Inductive Outcome :=
  | Next (p : Props)
  | Throw (f : Fault)
  | End (r : Response).

(** ** The surroundings of [app.js] *)

(** What the file system holds at a path: nothing that can be served, a
    file, a directory, or an entry that cannot be read. *)
Inductive StaticLookup :=
  | Miss
  | File (data : list byte)
  | Directory
  | Broken (reason : string).

Record Env := {
  NODE_ENV : option string;             (* process.env.NODE_ENV *)
  public : string -> StaticLookup       (* the directory ./public, by request path *)
}.

Record Library := {
  json_check : list byte -> option string;   (* JSON.parse, strict: the SyntaxError, if any *)
  encoding_exists : string -> bool;          (* iconv-lite has a decoder for the charset *)
  urlencoded_parse : list byte -> Fault + gmap string Value;   (* qs on a form body *)
  cookie_parse : option string -> gmap string Value;           (* cookie.parse *)
  mongo_sanitize_body : Body -> Body;
  mongo_sanitize_query : gmap string Value -> gmap string Value;
  xss_clean_body : Body -> Body;
  xss_clean_query : gmap string Value -> gmap string Value
}.

(** The modules required by [app.js] that are not among the sources: the
    five routers and [bookingController.webhookCheckout]. *)
Record Collaborators := {
  viewRouter : Request -> Outcome;
  tourRouter : Request -> Outcome;
  userRouter : Request -> Outcome;
  reviewRouter : Request -> Outcome;
  bookingRouter : Request -> Outcome;
  webhookCheckout : Request -> Outcome
}.

(** The rate limiter's memory store: hits per key in the current window and
    the instant at which the window ends. *)
Record AppState := { hits : gmap string nat; resetTime : Z }.

(** ** Setters *)

Definition set_body (b : Body) (r : bool) (p : Props) : Props :=
  {| query := query p; queryPolluted := queryPolluted p; body := b;
     bodyPolluted := bodyPolluted p; body_read := r; cookies := cookies p;
     requestTime := requestTime p; locals := locals p |}.

Definition set_query (q qp : gmap string Value) (p : Props) : Props :=
  {| query := q; queryPolluted := qp; body := body p;
     bodyPolluted := bodyPolluted p; body_read := body_read p;
     cookies := cookies p; requestTime := requestTime p; locals := locals p |}.

Definition set_bodyPolluted (bp : gmap string Value) (p : Props) : Props :=
  {| query := query p; queryPolluted := queryPolluted p; body := body p;
     bodyPolluted := bp; body_read := body_read p; cookies := cookies p;
     requestTime := requestTime p; locals := locals p |}.

Definition set_cookies (c : gmap string Value) (p : Props) : Props :=
  {| query := query p; queryPolluted := queryPolluted p; body := body p;
     bodyPolluted := bodyPolluted p; body_read := body_read p;
     cookies := Some c; requestTime := requestTime p; locals := locals p |}.

Definition set_requestTime (t : Z) (p : Props) : Props :=
  {| query := query p; queryPolluted := queryPolluted p; body := body p;
     bodyPolluted := bodyPolluted p; body_read := body_read p;
     cookies := cookies p; requestTime := Some t; locals := locals p |}.

(** A request as Express hands it to the first layer: the query string is
    parsed into [q], nothing else is set. *)
Definition incoming (w : Wire) (q : gmap string Value) : Request :=
  {| wire := w;
     props := {| query := q; queryPolluted := ∅; body := NoBody;
                 bodyPolluted := ∅; body_read := false; cookies := None;
                 requestTime := None; locals := ∅ |} |}.

(** ** Path matching of Express 4 (case-insensitive, non-strict) *)

Definition lower_ascii (c : ascii) : ascii :=
  let n := nat_of_ascii c in
  if (65 <=? n)%nat && (n <=? 90)%nat then ascii_of_nat (n + 32) else c.

Fixpoint lower (s : string) : string :=
  match s with
  | EmptyString => EmptyString
  | String c s' => String (lower_ascii c) (lower s')
  end.

(** [rest_after m p]: what follows [m] in [p], when [p] starts with [m]. *)
Fixpoint rest_after (m p : string) : option string :=
  match m, p with
  | EmptyString, _ => Some p
  | String a m', String b p' =>
      if Ascii.eqb a b then rest_after m' p' else None
  | String _ _, EmptyString => None
  end.

(** [app.use(mount, fn)]: the path starts with the mount path, up to a
    segment boundary. *)
Definition under_mount (mount p : string) : bool :=
  if String.eqb mount "/" then true
  else match rest_after (lower mount) (lower p) with
       | Some EmptyString => true
       | Some (String c _) => Ascii.eqb c "/"
       | None => false
       end.

(** [app.METHOD(pattern, fn)] for the two kinds of pattern in [app.js]:
    ['*'] and a literal path (an optional trailing slash is accepted). *)
Definition route_match (pattern p : string) : bool :=
  if String.eqb pattern "*" then true
  else match rest_after (lower pattern) (lower p) with
       | Some rest => String.eqb rest "" || String.eqb rest "/"
       | None => false
       end.

(** A route registered for [m] ([None]: [app.all]) handles the method; a
    HEAD request is handled by a GET route. *)
Definition handles_method (m : option Method) (r : Method) : bool :=
  match m with
  | None => true
  | Some m' =>
      bool_decide (m' = r) || (bool_decide (r = HEAD) && bool_decide (m' = GET))
  end.

(** ** Middleware installed by [app.js] *)

Definition ok (p : Props) (st : AppState) : Outcome * AppState := (Next p, st).

(** [cors()] (lines 36 and 52): a pre-flight request is answered at once
    with 204, any other request goes on with the CORS headers set. *)
Definition cors (r : Request) : Outcome :=
  if bool_decide (method (wire r) = OPTIONS)
  then End {| statusCode := 204; content := Empty |}
  else Next (props r).

(** [hasTrailingSlash] of the package [send]. *)
Fixpoint has_trailing_slash (p : string) : bool :=
  match p with
  | EmptyString => false
  | String c rest =>
      match rest with
      | EmptyString => Ascii.eqb c "/"
      | String _ _ => has_trailing_slash rest
      end
  end.

Fixpoint drop_slashes (p : string) : string :=
  match p with
  | String c rest => if Ascii.eqb c "/" then drop_slashes rest else p
  | EmptyString => p
  end.

(** [collapseLeadingSlashes] of serve-static: several slashes at the head
    of a path become one. *)
Definition collapse_leading_slashes (p : string) : string :=
  match p with
  | String c rest => if Ascii.eqb c "/" then String c (drop_slashes rest) else p
  | EmptyString => p
  end.

(** Where a directory named without its final slash is redirected to: the
    URL of the request with the slash added to its path. *)
Definition redirect_location (w : Wire) : string :=
  collapse_leading_slashes (path w ++ "/")
  ++ match search w with Some q => "?" ++ q | None => "" end.

(** [express.static(public)] (line 56), for a request without conditional
    and range headers ([Wire] carries none): GET and HEAD only; a file is
    sent; a directory named without its final slash is redirected to its
    slash form; for a directory named with its final slash the file
    [index.html] of the directory is sent, if there is one; what is
    missing falls through, a failing read is forwarded as an error. *)
Definition serve_static (E : Env) (r : Request) : Outcome :=
  let w := wire r in
  match method w with
  | GET | HEAD =>
      match public E (path w) with
      | File data =>
          End {| statusCode := 200;
                 content := if bool_decide (method w = HEAD) then Empty else Bytes data |}
      | Directory =>
          if has_trailing_slash (path w)
          then match public E (path w ++ "index.html") with
               | File data =>
                   End {| statusCode := 200;
                          content := if bool_decide (method w = HEAD)
                                     then Empty else Bytes data |}
               | Broken reason =>
                   Throw {| code := 500; message := reason; isOperational := false |}
               | Directory | Miss => Next (props r)
               end
          else End {| statusCode := 301; content := Redirect (redirect_location w) |}
      | Broken reason =>
          Throw {| code := 500; message := reason; isOperational := false |}
      | Miss => Next (props r)
      end
  | _ => Next (props r)
  end.

(** [rateLimit({max, windowMs, message})] (lines 67-71) with the package's
    memory store: one counter per key (the client address), all counters
    cleared together each time [windowMs] has elapsed. *)
Definition limiter_max : nat := 100.
Definition limiter_windowMs : Z := 60 * 60 * 1000.
Definition limiter_message : string :=
  "Too many requests from this IP, please try again in an hour!".

(** The store as the timer leaves it at instant [now]. *)
Definition advance (now : Z) (st : AppState) : AppState :=
  if (now <? resetTime st)%Z then st
  else {| hits := ∅;
          resetTime := (resetTime st
            + limiter_windowMs * ((now - resetTime st) / limiter_windowMs + 1))%Z |}.

Definition incr (key : string) (st : AppState) : nat * AppState :=
  let n := S (default 0 (hits st !! key)) in
  (n, {| hits := <[key := n]> (hits st); resetTime := resetTime st |}).

Definition limiter (now : Z) (st : AppState) (r : Request) : Outcome * AppState :=
  let '(current, st') := incr (ip (wire r)) (advance now st) in
  if (limiter_max <? current)%nat
  then (End {| statusCode := 429; content := Text limiter_message |}, st')
  else (Next (props r), st').

(** *** Body parsers (body-parser 1.x behind [express.raw], [express.json]
    and [express.urlencoded]) *)

(** [bytes.parse('10kb')] and the default ['100kb']. *)
Definition kb (n : N) : N := n * 1024.

Definition http_error (c : nat) (m : string) : Fault :=
  {| code := c; message := m; isOperational := false |}.

(** [s] between double quotes. *)
Definition quoted (s : string) : string :=
  String (ascii_of_nat 34) (s ++ String (ascii_of_nat 34) EmptyString).

(** Reading the entity: content decoding, then the size limit. *)
Definition read_body (w : Wire) (limit : N) : Fault + list byte :=
  match contentEncoding w with
  | Identity =>
      if (limit <? N.of_nat (length (payload w)))%N
      then inl (http_error 413 "request entity too large")
      else inr (payload w)
  | Compressed (inr data) =>
      if (limit <? N.of_nat (length data))%N
      then inl (http_error 413 "request entity too large")
      else inr data
  | Compressed (inl reason) => inl (http_error 400 reason)
  | UnsupportedEncoding name =>
      inl (http_error 415 ("unsupported content encoding " ++ quoted name))
  end.

Definition type_is (w : Wire) (t : string) : bool :=
  match contentType w with
  | Some t' => String.eqb t' t
  | None => false
  end.

Fixpoint upper (s : string) : string :=
  match s with
  | EmptyString => EmptyString
  | String c s' =>
      let n := nat_of_ascii c in
      String (if (97 <=? n)%nat && (n <=? 122)%nat then ascii_of_nat (n - 32) else c)
             (upper s')
  end.

Definition unsupported_charset (cs : string) : Fault :=
  http_error 415 ("unsupported charset " ++ quoted (upper cs)).

(** Reading the entity as text in the charset [cs]: a charset that
    iconv-lite has no decoder for is refused with 415, after the content
    encoding and the declared length were checked and before the stream is
    read. *)
Definition read_text (known : string -> bool) (cs : string) (w : Wire) (limit : N)
    : Fault + list byte :=
  match contentEncoding w with
  | Identity =>
      match read_body w limit with
      | inr data => if known cs then inr data else inl (unsupported_charset cs)
      | inl too_large => inl too_large
      end
  | Compressed _ => if known cs then read_body w limit else inl (unsupported_charset cs)
  | UnsupportedEncoding _ => read_body w limit
  end.

(** The skeleton shared by the three parsers: skip a request that was
    already parsed, default [req.body] to [{}], skip a request without a
    body or of another media type, check the charset, read, parse.
    [charset_ok] is the parser's own test of the charset, [known] tells
    whether the text can be decoded from it. *)
Definition body_parser (media : string) (charset_ok known : string -> bool) (limit : N)
    (parse : list byte -> Fault + Body) (r : Request) : Outcome :=
  let w := wire r in
  let p := props r in
  if body_read p then Next p
  else
    let p1 := set_body (match body p with NoBody => Fields ∅ | b => b end) false p in
    if negb (hasBody w) then Next p1
    else if negb (type_is w media) then Next p1
    else if negb (charset_ok (default "utf-8" (charset w)))
    then Throw (unsupported_charset (default "utf-8" (charset w)))
    else match read_text known (default "utf-8" (charset w)) w limit with
         | inl f => Throw f
         | inr data =>
             match parse data with
             | inl f => Throw f
             | inr b => Next (set_body b true p1)
             end
         end.

(** [express.raw({ type: 'application/json' })] (line 77); the limit is the
    package's default.  The bytes are not decoded: no charset is looked
    at. *)
Definition raw_body : Request -> Outcome :=
  body_parser "application/json" (fun _ => true) (fun _ => true) (kb 100)
    (fun data => inr (Buffer data)).

(** [express.json({ limit: '10kb' })] (line 82): the charset has to be of
    the UTF family, and one that can be decoded. *)
Definition json_parser (L : Library) : Request -> Outcome :=
  body_parser "application/json" (String.prefix "utf-") (encoding_exists L) (kb 10)
    (fun data =>
       match data with
       | [] => inr (Fields ∅)
       | _ => match json_check L data with
              | Some syntax_error => inl (http_error 400 syntax_error)
              | None => inr (Json data)
              end
       end).

(** [express.urlencoded({ extended: true, limit: '10kb' })] (line 83): the
    charset has to be utf-8. *)
Definition urlencoded_parser (L : Library) : Request -> Outcome :=
  body_parser "application/x-www-form-urlencoded" (String.eqb "utf-8") (encoding_exists L)
    (kb 10)
    (fun data =>
       match data with
       | [] => inr (Fields ∅)
       | _ => match urlencoded_parse L data with
              | inl f => inl f
              | inr o => inr (Fields o)
              end
       end).

(** [cookieParser()] (line 84). *)
Definition cookie_parser (L : Library) (r : Request) : Outcome :=
  match cookies (props r) with
  | Some _ => Next (props r)
  | None => Next (set_cookies (cookie_parse L (cookieHeader (wire r))) (props r))
  end.

(** [mongoSanitize()] (line 87) and [xss()] (line 90) rewrite [req.body]
    and [req.query] in place. *)
Definition sanitize (on_body : Body -> Body)
    (on_query : gmap string Value -> gmap string Value) (r : Request) : Outcome :=
  let p := props r in
  let b := match body p with NoBody => NoBody | b => on_body b end in
  Next (set_query (on_query (query p)) (queryPolluted p) (set_body b (body_read p) p)).

(** *** The parameter-pollution guard, [hpp({ whitelist })] (lines 93-104) *)

Definition whitelist : list string :=
  ["duration"; "ratingsQuantity"; "ratingsAverage"; "maxGroupSize"; "difficulty"; "price"].

Definition is_array (v : Value) : bool :=
  match v with VArr _ => true | _ => false end.

(** [value[value.length - 1]] for an array, the value itself otherwise. *)
Definition last_value (v : Value) : Value :=
  match v with VArr xs => List.last xs VUndefined | _ => v end.

(** First loop: every array-valued parameter is put aside in the polluted
    object and replaced by its last element. *)
Definition put_aside (params polluted : gmap string Value)
    : gmap string Value * gmap string Value :=
  (last_value <$> params,
   filter (fun kv => is_array (snd kv) = true) params ∪ polluted).

(** Second loop: every whitelisted parameter that was put aside is put back
    and removed from the polluted object. *)
Definition put_back (wl : list string) (pp : gmap string Value * gmap string Value)
    : gmap string Value * gmap string Value :=
  foldl (fun acc w =>
           match snd acc !! w with
           | Some v => (<[w := v]> (fst acc), delete w (snd acc))
           | None => acc
           end) pp wl.

Definition hpp_object (wl : list string) (params polluted : gmap string Value)
    : gmap string Value * gmap string Value :=
  put_back wl (put_aside params polluted).

(** The middleware: the query always, the body when it is an url-encoded
    form. *)
Definition hpp (wl : list string) (r : Request) : Outcome :=
  let p := props r in
  let qq := hpp_object wl (query p) (queryPolluted p) in
  let p1 := set_query (fst qq) (snd qq) p in
  match body p1 with
  | Fields o =>
      if type_is (wire r) "application/x-www-form-urlencoded"
      then let bb := hpp_object wl o (bodyPolluted p1) in
           Next (set_bodyPolluted (snd bb) (set_body (Fields (fst bb)) (body_read p1) p1))
      else Next p1
  | _ => Next p1
  end.

(** *** Errors *)

(** Modelled from the spec: [utils/appError.js] is not among the sources.
    The catch-all builds with it "a 404 operational fault with a message
    naming the unmatched path": the message and status code given, marked
    operational. *)
Definition AppError (m : string) (c : nat) : Fault :=
  {| code := c; message := m; isOperational := true |}.

(** The catch-all route (lines 122-124). *)
Definition catch_all (r : Request) : Outcome :=
  Throw (AppError ("Can't find " ++ originalUrl (wire r) ++ " on this server!") 404).

Definition development (E : Env) : bool :=
  match NODE_ENV E with
  | Some v => String.eqb v "development"
  | None => false
  end.

Definition fault_class (c : nat) : FaultClass :=
  if (400 <=? c)%nat && (c <? 500)%nat then ClientFault else ServerFault.

(** Modelled from the spec: [controllers/errorController.js] is not among
    the sources.  "Given any fault, produce a response body of {status,
    message} and an HTTP status code": an operational fault keeps its
    message and code; a programming fault is answered with a generic
    message and 500 in production, with full detail in development. *)
Definition globalErrorHandler (E : Env) (f : Fault) : Response :=
  if development E
  then {| statusCode := code f;
          content := ErrorJson (fault_class (code f)) (message f) (Some f) |}
  else if isOperational f
  then {| statusCode := code f;
          content := ErrorJson (fault_class (code f)) (message f) None |}
  else {| statusCode := 500;
          content := ErrorJson ServerFault "something went wrong" None |}.

(** ** The application: the layers of [app.js] in registration order *)

Inductive Stage :=
  | Cors | CorsPreflight | Static | Helmet | Morgan | Limiter
  | RawBody | WebhookCheckout
  | JsonParser | UrlencodedParser | CookieParser
  | MongoSanitize | Xss | Hpp | Compression | RequestTime
  | ViewRouter | TourRouter | UserRouter | ReviewRouter | BookingRouter
  | CatchAll | GlobalErrorHandler
  | FinalHandler.          (* Express's own last resort, not installed by app.js *)

#[global] Instance Stage_eq_dec : EqDecision Stage.
Proof. solve_decision. Defined.

Inductive Layer :=
  | Use (mount : string) (s : Stage)                            (* app.use(mount, fn) *)
  | Route (m : option Method) (pattern : string) (hs : list Stage) (* app.METHOD(pattern, fns) *)
  | UseError (mount : string) (s : Stage).                      (* app.use(fn), fn of four arguments *)

Definition app (E : Env) : list Layer :=
  [ Use "/" Cors;                                               (* line 36 *)
    Route (Some OPTIONS) "*" [CorsPreflight];                   (* line 52 *)
    Use "/" Static;                                             (* line 56 *)
    Use "/" Helmet ]                                            (* line 59 *)
  ++ (if development E then [Use "/" Morgan] else [])           (* lines 62-64 *)
  ++ [ Use "/api" Limiter;                                      (* line 72 *)
       Route (Some POST) "/webhook-checkout" [RawBody; WebhookCheckout]; (* lines 75-79 *)
       Use "/" JsonParser;                                      (* line 82 *)
       Use "/" UrlencodedParser;                                (* line 83 *)
       Use "/" CookieParser;                                    (* line 84 *)
       Use "/" MongoSanitize;                                   (* line 87 *)
       Use "/" Xss;                                             (* line 90 *)
       Use "/" Hpp;                                             (* lines 93-104 *)
       Use "/" Compression;                                     (* line 106 *)
       Use "/" RequestTime;                                     (* lines 109-113 *)
       Use "/" ViewRouter;                                      (* line 116 *)
       Use "/api/v1/tours" TourRouter;                          (* line 117 *)
       Use "/api/v1/users" UserRouter;                          (* line 118 *)
       Use "/api/v1/reviews" ReviewRouter;                      (* line 119 *)
       Use "/api/v1/bookings" BookingRouter;                    (* line 120 *)
       Route None "*" [CatchAll];                               (* lines 122-124 *)
       UseError "/" GlobalErrorHandler ].                       (* line 126 *)

(** What each installed function does when it is called. *)
Definition run_stage (E : Env) (L : Library) (C : Collaborators) (now : Z)
    (s : Stage) (st : AppState) (r : Request) : Outcome * AppState :=
  match s with
  | Cors | CorsPreflight => (cors r, st)
  | Static => (serve_static E r, st)
  | Helmet | Morgan | Compression => ok (props r) st
  | Limiter => limiter now st r
  | RawBody => (raw_body r, st)
  | WebhookCheckout => (webhookCheckout C r, st)
  | JsonParser => (json_parser L r, st)
  | UrlencodedParser => (urlencoded_parser L r, st)
  | CookieParser => (cookie_parser L r, st)
  | MongoSanitize => (sanitize (mongo_sanitize_body L) (mongo_sanitize_query L) r, st)
  | Xss => (sanitize (xss_clean_body L) (xss_clean_query L) r, st)
  | Hpp => (hpp whitelist r, st)
  | RequestTime => ok (set_requestTime now (props r)) st
  | ViewRouter => (viewRouter C r, st)
  | TourRouter => (tourRouter C r, st)
  | UserRouter => (userRouter C r, st)
  | ReviewRouter => (reviewRouter C r, st)
  | BookingRouter => (bookingRouter C r, st)
  | CatchAll => (catch_all r, st)
  | GlobalErrorHandler | FinalHandler => ok (props r) st
  end.

(** ** Dispatch: [Router.handle] of Express 4 *)

Inductive Phase :=
  | Running (p : Props)                       (* looking for the next layer *)
  | Failed (p : Props) (f : Fault)            (* next(err): only error handlers run *)
  | Finished (by_stage : Stage) (r : Response).

Record Run := {
  phase : Phase;
  store : AppState;
  trace : list (Stage * Props);      (* the functions called, each with req as it saw it *)
  thrown : option (Stage * Fault)    (* who called next(err) *)
}.

Definition call (E : Env) (L : Library) (C : Collaborators) (now : Z) (w : Wire)
    (s : Stage) (x : Run) (p : Props) : Run :=
  let '(o, st') := run_stage E L C now s (store x) {| wire := w; props := p |} in
  {| phase := match o with
              | Next p' => Running p'
              | Throw f => Failed p f
              | End r => Finished s r
              end;
     store := st';
     trace := trace x ++ [(s, p)];
     thrown := match o with Throw f => Some (s, f) | _ => thrown x end |}.

(** The handlers of one route, in order, while each calls [next()]. *)
Fixpoint run_route (E : Env) (L : Library) (C : Collaborators) (now : Z) (w : Wire)
    (hs : list Stage) (x : Run) : Run :=
  match hs with
  | [] => x
  | s :: rest =>
      match phase x with
      | Running p => run_route E L C now w rest (call E L C now w s x p)
      | _ => x
      end
  end.

Definition step_layer (E : Env) (L : Library) (C : Collaborators) (now : Z) (w : Wire)
    (x : Run) (l : Layer) : Run :=
  match phase x, l with
  | Running p, Use mount s =>
      if under_mount mount (path w) then call E L C now w s x p else x
  | Running p, Route m pattern hs =>
      if handles_method m (method w) && route_match pattern (path w)
      then run_route E L C now w hs x else x
  | Failed p f, UseError mount s =>
      if under_mount mount (path w)
      then {| phase := Finished s (globalErrorHandler E f); store := store x;
              trace := trace x ++ [(s, p)]; thrown := thrown x |}
      else x
  | _, _ => x
  end.

Definition handle (E : Env) (L : Library) (C : Collaborators) (now : Z) (w : Wire)
    (layers : list Layer) (x : Run) : Run :=
  foldl (step_layer E L C now w) x layers.

Definition start (st : AppState) (w : Wire) (q : gmap string Value) : Run :=
  {| phase := Running (props (incoming w q)); store := st; trace := []; thrown := None |}.

Definition method_name (m : Method) : string :=
  match m with
  | GET => "GET" | HEAD => "HEAD" | POST => "POST" | PUT => "PUT"
  | PATCH => "PATCH" | DELETE => "DELETE" | OPTIONS => "OPTIONS"
  end.

(** Express's final handler, for a request that no layer answered: 404, or
    the status of the pending error when it is an error status. *)
Definition final_handler (w : Wire) (ph : Phase) : Response :=
  match ph with
  | Failed _ f =>
      {| statusCode := if (400 <=? code f)%nat && (code f <? 600)%nat then code f else 500;
         content := Text (message f) |}
  | _ =>
      {| statusCode := 404;
         content := Text ("Cannot " ++ method_name (method w) ++ " " ++ path w) |}
  end.

(** The answer to a request. *)
Record Result := {
  response : Response;
  responder : Stage;
  store' : AppState;
  calls : list (Stage * Props);
  fault : option (Stage * Fault)
}.

Definition finish (w : Wire) (x : Run) : Result :=
  {| response := match phase x with
                 | Finished _ r => r
                 | ph => final_handler w ph
                 end;
     responder := match phase x with Finished s _ => s | _ => FinalHandler end;
     store' := store x;
     calls := trace x;
     fault := thrown x |}.

(** One request served at instant [now] with the store [st]. *)
Definition serve (E : Env) (L : Library) (C : Collaborators) (now : Z)
    (st : AppState) (w : Wire) (q : gmap string Value) : Result :=
  finish w (handle E L C now w (app E) (start st w q)).

(** The stages called, without the requests. *)
Definition stages (r : Result) : list Stage := fst <$> calls r.

(** ** Query strings

    Express parses the query string with [qs] before the first layer runs.
    [qs_parse] covers the query strings whose parameters are written
    [name=value] or [name[sub]=value]; it answers [None] outside that
    fragment (array indices, deeper nesting, a name used both ways, more
    than the 1000 parameters [qs] reads). *)

Inductive Key :=
  | Plain (name : string)
  | Sub (name sub : string).

#[global] Instance Key_eq_dec : EqDecision Key.
Proof. solve_decision. Defined.

Definition show_key (k : Key) : string :=
  match k with
  | Plain n => n
  | Sub n s => n ++ "[" ++ s ++ "]"
  end.

(** The query string that lists [params] in order. *)
Fixpoint search_of (params : list (Key * string)) : string :=
  match params with
  | [] => ""
  | [(k, v)] => show_key k ++ "=" ++ v
  | (k, v) :: rest => show_key k ++ "=" ++ v ++ "&" ++ search_of rest
  end.

(** First pass of [qs]: the values of a repeated key are combined, in
    order, at the place of its first occurrence. *)
Fixpoint combine_value (k : Key) (v : string) (flat : list (Key * list string))
    : list (Key * list string) :=
  match flat with
  | [] => [(k, [v])]
  | (k', vs) :: rest =>
      if decide (k = k') then (k', (vs ++ [v])%list) :: rest
      else (k', vs) :: combine_value k v rest
  end.

Definition parse_values (params : list (Key * string)) : list (Key * list string) :=
  foldl (fun flat kv => combine_value (fst kv) (snd kv) flat) [] params.

Definition value_of (vs : list string) : Value :=
  match vs with
  | [v] => VStr v
  | _ => VArr (map VStr vs)
  end.

Definition is_digit (c : ascii) : bool :=
  let n := nat_of_ascii c in (48 <=? n)%nat && (n <=? 57)%nat.

Fixpoint all_digits (s : string) : bool :=
  match s with
  | EmptyString => true
  | String c s' => is_digit c && all_digits s'
  end.

Fixpoint has_bracket (s : string) : bool :=
  match s with
  | EmptyString => false
  | String c s' => Ascii.eqb c "[" || Ascii.eqb c "]" || has_bracket s'
  end.

Definition plain_name (n : string) : bool :=
  negb (String.eqb n "") && negb (has_bracket n) && negb (String.eqb n "__proto__").

(** Second pass: each combined key is merged into the result. *)
Definition merge_key (acc : option (gmap string Value)) (kv : Key * list string)
    : option (gmap string Value) :=
  match acc with
  | None => None
  | Some o =>
      match fst kv with
      | Plain n =>
          if negb (plain_name n) then None
          else match o !! n with
               | None => Some (<[n := value_of (snd kv)]> o)
               | Some _ => None
               end
      | Sub n s =>
          if negb (plain_name n) || negb (plain_name s) || all_digits s then None
          else match o !! n with
               | None => Some (<[n := VObj {[s := value_of (snd kv)]}]> o)
               | Some (VObj inner) =>
                   match inner !! s with
                   | None => Some (<[n := VObj (<[s := value_of (snd kv)]> inner)]> o)
                   | Some _ => None
                   end
               | Some _ => None
               end
      end
  end.

Definition qs_parse (params : list (Key * string)) : option (gmap string Value) :=
  if (1000 <? length params)%nat then None
  else foldl merge_key (Some ∅) (parse_values params).

(** ** The process supervisor (the start-up script) *)

Module Supervisor.

(** What the callbacks handed to [server.close] do. *)
Inductive Action :=
  | Log (line : string)          (* console.log *)
  | Exit (status : Z).           (* process.exit *)

Inductive Effect :=
  | Do (a : Action)
  | CloseServer (callback : list Action).   (* server.close(callback) *)

(** [console.log(err.name, err.message)] *)
Definition name_and_message (name msg : string) : string := name ++ " " ++ msg.

(** [process.on('uncaughtException', ...)] (lines 4-8). *)
Definition on_uncaughtException (name msg : string) : list Effect :=
  [ Do (Log "UNCAUGHT EXCEPTION! 💥 Shutting down...");
    Do (Log (name_and_message name msg));
    Do (Exit 1) ].

(** [process.on('unhandledRejection', ...)] (lines 31-37). *)
Definition on_unhandledRejection (name msg : string) : list Effect :=
  [ Do (Log "UNHANDLED REJECTION! 💥 Shutting down...");
    Do (Log (name_and_message name msg));
    CloseServer [Exit 1] ].

Definition farewell : string := "💥 Process terminated!".

(** [process.on('SIGTERM', ...)] (lines 41-48). *)
Definition on_SIGTERM : list Effect :=
  [ Do (Log "👋 SIGTERM RECEIVED. Shutting down gracefully");
    CloseServer [Log farewell] ].

Record Process := {
  listening : bool;                  (* the server accepts connections *)
  in_flight : nat;                   (* requests being served *)
  on_close : list (list Action);     (* callbacks waiting for the server's 'close' *)
  exited : option Z;                 (* the argument of process.exit, once called *)
  output : list string
}.

(** After [app.listen] (line 27). *)
Definition booted : Process :=
  {| listening := true; in_flight := 0; on_close := []; exited := None; output := [] |}.

(** Nothing runs once [process.exit] was called. *)
Definition act (s : Process) (a : Action) : Process :=
  match exited s with
  | Some _ => s
  | None =>
      match a with
      | Log line =>
          {| listening := listening s; in_flight := in_flight s; on_close := on_close s;
             exited := None; output := output s ++ [line] |}
      | Exit status =>
          {| listening := listening s; in_flight := in_flight s; on_close := on_close s;
             exited := Some status; output := output s |}
      end
  end.

(** [server.close] stops the server from accepting connections; its
    callback waits for the 'close' event. *)
Definition effect (s : Process) (e : Effect) : Process :=
  match exited s with
  | Some _ => s
  | None =>
      match e with
      | Do a => act s a
      | CloseServer callback =>
          {| listening := false; in_flight := in_flight s;
             on_close := on_close s ++ [callback];
             exited := None; output := output s |}
      end
  end.

(** The server emits 'close' when it no longer listens and the last
    connection has ended: the waiting callbacks run, in order. *)
Definition emit_close (s : Process) : Process :=
  if negb (listening s) && (in_flight s =? 0)%nat
  then foldl (fun s' callback => foldl act s' callback)
             {| listening := false; in_flight := 0; on_close := [];
                exited := exited s; output := output s |}
             (on_close s)
  else s.

Definition run_handler (handler : list Effect) (s : Process) : Process :=
  emit_close (foldl effect s handler).

Inductive Event :=
  | UncaughtException (name msg : string)
  | UnhandledRejection (name msg : string)
  | SIGTERM
  | Connection         (* a request arrives *)
  | Completion.        (* a request in flight has been answered *)

Definition step (s : Process) (ev : Event) : Process :=
  match exited s with
  | Some _ => s
  | None =>
      match ev with
      | UncaughtException name msg => run_handler (on_uncaughtException name msg) s
      | UnhandledRejection name msg => run_handler (on_unhandledRejection name msg) s
      | SIGTERM => run_handler on_SIGTERM s
      | Connection =>
          if listening s
          then {| listening := true; in_flight := S (in_flight s); on_close := on_close s;
                  exited := None; output := output s |}
          else s
      | Completion =>
          emit_close {| listening := listening s; in_flight := pred (in_flight s);
                        on_close := on_close s; exited := None; output := output s |}
      end
  end.

Definition run (s : Process) (evs : list Event) : Process := foldl step s evs.







(** The events that the script treats as failures. *)
Definition is_failure (ev : Event) : bool :=
  match ev with UncaughtException _ _ | UnhandledRejection _ _ => true | _ => false end.

(** The callbacks that the script hands to [server.close]: the farewell
    of SIGTERM, and the exit of a rejection. *)
Definition registered (seen_failure : Prop) (callback : list Action) : Prop :=
  callback = [Log farewell] \/ (callback = [Exit 1] /\ seen_failure).

(** What holds of the process after any events: it has not exited, or it
    exited with status 1 after a failure; and the callbacks that wait for
    the server to close are the script's. *)
Definition sound (seen_failure : Prop) (s : Process) : Prop :=
  (exited s = None \/ (exited s = Some 1%Z /\ seen_failure))
  /\ Forall (registered seen_failure) (on_close s).

(** A server that has stopped listening, with no more requests in flight
    than [n]. *)
Definition closed_within (n : nat) (s : Process) : Prop :=
  listening s = false /\ (in_flight s <= n)%nat.

End Supervisor.

(** ** The start-up script: the connection string and the order of the
    script *)

Module Startup.
Import Supervisor.

(** The variables of [process.env] that the script reads for the
    database. *)
Record ProcessEnv := {
  DATABASE : option string;
  DATABASE_PASSWORD : option string
}.

(** [s] around the first occurrence of [pattern]. *)
Fixpoint split_at (pattern s : string) : option (string * string) :=
  match rest_after pattern s with
  | Some after => Some (EmptyString, after)
  | None =>
      match s with
      | EmptyString => None
      | String c s' =>
          match split_at pattern s' with
          | Some (before, after) => Some (String c before, after)
          | None => None
          end
      end
  end.

(** The replacement text of [String.prototype.replace] for a pattern that
    is a string: [$$] stands for a dollar, [$&] for the text matched, [$`]
    and [$'] for the text before and after it; there are no groups, so any
    other dollar stands for itself. *)
Fixpoint substitution (matched before after template : string) : string :=
  match template with
  | EmptyString => EmptyString
  | String c tail =>
      if Ascii.eqb c "$" then
        match tail with
        | String d rest =>
            if Ascii.eqb d "$" then String "$" (substitution matched before after rest)
            else if Ascii.eqb d "&" then matched ++ substitution matched before after rest
            else if Ascii.eqb d "`" then before ++ substitution matched before after rest
            else if Ascii.eqb d "'" then after ++ substitution matched before after rest
            else String c (substitution matched before after tail)
        | EmptyString => String c EmptyString
        end
      else String c (substitution matched before after tail)
  end.

(** [s.replace(pattern, template)], [pattern] a string: the first
    occurrence only. *)
Definition replace (s pattern template : string) : string :=
  match split_at pattern s with
  | None => s
  | Some (before, after) =>
      before ++ substitution pattern before after template ++ after
  end.

(** [DB] (lines 13-16).  [None]: [process.env.DATABASE] is undefined and
    the call of [replace] throws a TypeError; an undefined password is
    converted to the string "undefined". *)
Definition DB (env : ProcessEnv) : option string :=
  match DATABASE env with
  | None => None
  | Some template =>
      Some (replace template "<PASSWORD>" (default "undefined" (DATABASE_PASSWORD env)))
  end.

(** Before [app.listen]. *)
Definition loaded : Process :=
  {| listening := false; in_flight := 0; on_close := []; exited := None; output := [] |}.

(** The script up to [app.listen] (lines 4-29).  The handler of uncaught
    exceptions is installed first, so a TypeError of line 13 reaches it;
    [type_error] is the message the engine gives it. *)
Definition start_up (env : ProcessEnv) (type_error : string) : Process :=
  match DB env with
  | None => run_handler (on_uncaughtException "TypeError" type_error) loaded
  | Some _ => booted
  end.

(** The characters of [s]. *)
Fixpoint chars (s : string) : list ascii :=
  match s with
  | EmptyString => []
  | String c s' => c :: chars s'
  end.

(** No replacement pattern occurs in [template]. *)
Definition pattern_free (template : string) : Prop :=
  forall before d after,
    template = before ++ String "$" (String d after) ->
    d <> "$"%char /\ d <> "&"%char /\ d <> "`"%char /\ d <> "'"%char.

End Startup.

(** ** The booking script of the browser *)

Module Booking.
Import Startup.

(** The URL that [bookTour] requests (line 11). *)
Definition checkout_session_url (tourId : string) : string :=
  "/api/v1/bookings/checkout-session/" ++ tourId.

Definition is_alnum (c : ascii) : bool :=
  let n := nat_of_ascii c in
  ((48 <=? n)%nat && (n <=? 57)%nat) || ((65 <=? n)%nat && (n <=? 90)%nat)
  || ((97 <=? n)%nat && (n <=? 122)%nat).

(** The request of [bookTour] as it reaches the server, for an id made of
    letters and digits (the ids of the tours are): the path is the URL as
    the script wrote it. *)
Definition checkout_request (tourId : string) (w : Wire) : Prop :=
  forallb is_alnum (chars tourId) = true
  /\ method w = GET /\ path w = checkout_session_url tourId.

End Booking.

(** ** The map script of the browser *)

Module MapClient.

Section Drawing.
(** What [loc.coordinates] holds, and whether the map library accepts it
    as a position ([LngLat.convert] throws when it does not). *)
Context {Coordinates : Type} (accepted : Coordinates -> bool).

Record Location := {
  coordinates : Coordinates;
  day : N;
  description : string
}.

(** The calls that the script makes on the page and on the map library. *)
Inductive MapCall :=
  | NewMap (container style : string) (scrollZoom : bool)
  | CreateElement (tag className : string)
  | AddMarker (anchor : string) (position : Coordinates)
  | AddPopup (offset : Z) (position : Coordinates) (html : string)
  | ExtendBounds (position : Coordinates)
  | FitBounds (top bottom left right : Z).

(** The text of the popup (line 35). *)
Definition popup_html (loc : Location) : string :=
  "<p>Day " ++ NilZero.string_of_uint (N.to_uint (day loc)) ++ ": "
  ++ description loc ++ "</p>".

(** One turn of [locations.forEach] (lines 17-40): the calls made, and
    whether the turn threw.  The first call that reads the coordinates is
    the marker's [setLngLat]. *)
Definition draw (loc : Location) : list MapCall * bool :=
  if accepted (coordinates loc)
  then ([ CreateElement "div" "marker";
          AddMarker "bottom" (coordinates loc);
          AddPopup 30 (coordinates loc) (popup_html loc);
          ExtendBounds (coordinates loc) ], false)
  else ([ CreateElement "div" "marker" ], true).

(** [forEach] stops at the first turn that throws. *)
Fixpoint draw_all (locations : list Location) : list MapCall * bool :=
  match locations with
  | [] => ([], false)
  | loc :: rest =>
      let '(calls, threw) := draw loc in
      if threw then (calls, true)
      else let '(more, threw') := draw_all rest in ((calls ++ more)%list, threw')
  end.

(** [displayMap] (lines 2-50): the calls made, and whether it threw. *)
Definition displayMap (locations : list Location) : list MapCall * bool :=
  let '(calls, threw) := draw_all locations in
  let created := NewMap "map" "mapbox://styles/chanon2000/ckuuu7qz34le118pcgwync9bg" false in
  if threw then (created :: calls, true)
  else (created :: calls ++ [FitBounds 200 150 100 100], false)%list.

(** The positions of the markers, of the popups and of the points the
    bounds were extended by, in the order of the calls. *)
Definition markers (calls : list MapCall) : list Coordinates :=
  flat_map (fun c => match c with AddMarker _ p => [p] | _ => [] end) calls.

Definition popups (calls : list MapCall) : list (Coordinates * string) :=
  flat_map (fun c => match c with AddPopup _ p html => [(p, html)] | _ => [] end) calls.

Definition extended (calls : list MapCall) : list Coordinates :=
  flat_map (fun c => match c with ExtendBounds p => [p] | _ => [] end) calls.

Definition is_fit (c : MapCall) : bool :=
  match c with FitBounds _ _ _ _ => true | _ => false end.

End Drawing.

End MapClient.

(** ** Vocabulary of the properties *)

Definition stages_of (l : Layer) : list Stage :=
  match l with
  | Use _ s => [s]
  | Route _ _ hs => hs
  | UseError _ s => [s]
  end.

(** The layer applies to the request: its mount path or its route matches. *)
Definition matches (w : Wire) (l : Layer) : bool :=
  match l with
  | Use mount _ | UseError mount _ => under_mount mount (path w)
  | Route m pattern _ => handles_method m (method w) && route_match pattern (path w)
  end.

Definition running (x : Run) : bool :=
  match phase x with Running _ => true | _ => false end.

(** The run once the error handler [s] has answered the fault [f]. *)
Definition answered (E : Env) (s : Stage) (p : Props) (f : Fault) (x : Run) : Run :=
  {| phase := Finished s (globalErrorHandler E f); store := store x;
     trace := trace x ++ [(s, p)]; thrown := thrown x |}.

Definition is_error_layer (l : Layer) : bool :=
  match l with UseError _ _ => true | _ => false end.

(** The handlers of the resources and views. *)
Definition is_router (s : Stage) : bool :=
  match s with
  | ViewRouter | TourRouter | UserRouter | ReviewRouter | BookingRouter => true
  | _ => false
  end.

(** The handlers of the repository: the routers and the webhook handler. *)
Definition is_resource_handler (s : Stage) : bool :=
  is_router s || bool_decide (s = WebhookCheckout).

(** The handlers of the repository, by the stage that calls them. *)
Definition collaborator (C : Collaborators) (s : Stage) : option (Request -> Outcome) :=
  match s with
  | ViewRouter => Some (viewRouter C)
  | TourRouter => Some (tourRouter C)
  | UserRouter => Some (userRouter C)
  | ReviewRouter => Some (reviewRouter C)
  | BookingRouter => Some (bookingRouter C)
  | WebhookCheckout => Some (webhookCheckout C)
  | _ => None
  end.

(** Modelled from the spec: the handlers are not among the sources.
    "Handlers forward faults to the single terminal classifier rather than
    building ad hoc per-route error responses": a handler that answers
    does so with a status below 400. *)
Definition forwards_faults (C : Collaborators) : Prop :=
  forall s h r resp,
    collaborator C s = Some h -> h r = End resp -> (statusCode resp < 400)%nat.

(** The answer of the rate limiter to a client over its quota. *)
Definition limit_response : Response :=
  {| statusCode := 429; content := Text limiter_message |}.

(** The answer of [cors()] to a pre-flight request. *)
Definition preflight_response : Response := {| statusCode := 204; content := Empty |}.

(** The body of a response has the shape {status, message}. *)
Definition shaped (r : Response) : Prop :=
  exists status msg detail, content r = ErrorJson status msg detail.

(** What a run may have reached: a failure is on record with its fault,
    and an answer is a success, the error handler's answer to the fault on
    record, or the rate limiter's refusal. *)
Definition acceptable (E : Env) (x : Run) : Prop :=
  match phase x with
  | Running _ => True
  | Failed _ f => exists who, thrown x = Some (who, f)
  | Finished s r =>
      (statusCode r < 400)%nat
      \/ (s = GlobalErrorHandler
          /\ exists who f, thrown x = Some (who, f) /\ r = globalErrorHandler E f)
      \/ (s = Limiter /\ r = limit_response)
  end.


(** [sub] occurs in [s]. *)
Definition contains (sub s : string) : Prop :=
  exists before after, s = before ++ sub ++ after.

(** [a] is called before [b]. *)
Definition called_before (a b : Stage) (called : list Stage) : Prop :=
  exists l1 l2 l3, called = (l1 ++ a :: l2 ++ b :: l3)%list.


(** [s] begins with [pre], letter case apart. *)
Definition begins_with (pre s : string) : bool := String.prefix (lower pre) (lower s).

(** *** Sequences of requests and the rate limiter *)

(** Requests served one after the other, each at its instant. *)
Record Arrival := { at_time : Z; from : Wire; parsed : gmap string Value }.

Fixpoint serve_all (E : Env) (L : Library) (C : Collaborators) (st : AppState)
    (arrivals : list Arrival) : list (Arrival * Result) :=
  match arrivals with
  | [] => []
  | a :: rest =>
      let r := serve E L C (at_time a) st (from a) (parsed a) in
      (a, r) :: serve_all E L C (store' r) rest
  end.

(** The request went past the rate limiter: the limiter was called and did
    not answer. *)
Definition passed_limiter (r : Result) : bool :=
  bool_decide (Limiter ∈ stages r) && negb (bool_decide (responder r = Limiter)).

(** How many of the requests of client [addr] that arrived from [lo] up
    to, not including, [hi] went past the rate limiter. *)
Definition passed_in (addr : string) (lo hi : Z) (served : list (Arrival * Result)) : nat :=
  length (filter (fun ar => ip (from (fst ar)) = addr
                            /\ passed_limiter (snd ar) = true
                            /\ (lo <= at_time (fst ar) < hi)%Z) served).

(** The requests arrive in order, none before [t]. *)
Fixpoint in_order (t : Z) (arrivals : list Arrival) : Prop :=
  match arrivals with
  | [] => True
  | a :: rest => (t <= at_time a)%Z /\ in_order (at_time a) rest
  end.

(** The hits on record for a client. *)
Definition hits_of (st : AppState) (addr : string) : nat := default 0 (hits st !! addr).

(** The count the store gives a request of [w] at instant [now], and the
    store it leaves. *)
Definition counted (now : Z) (w : Wire) (st : AppState) : nat * AppState :=
  incr (ip w) (advance now st).

(** *** The layers of [app.js], cut where the properties need it *)

Definition before_limiter (E : Env) : list Layer :=
  [ Use "/" Cors; Route (Some OPTIONS) "*" [CorsPreflight]; Use "/" Static; Use "/" Helmet ]
  ++ (if development E then [Use "/" Morgan] else []).

(** The layers up to and including the rate limiter. *)
Definition front (E : Env) : list Layer :=
  (before_limiter E ++ [Use "/api" Limiter])%list.

(** The stages of the layers up to the rate limiter. *)
Definition front_stages : list Stage := [Cors; CorsPreflight; Static; Helmet; Morgan; Limiter].

(** The stages of the layers before the webhook route, called in order
    for a request that none of them stops. *)
Definition front_calls (E : Env) (p : Props) : list (Stage * Props) :=
  ([(Cors, p); (Static, p); (Helmet, p)]
   ++ (if development E then [(Morgan, p)] else []))%list.

Definition webhook_route : Layer :=
  Route (Some POST) "/webhook-checkout" [RawBody; WebhookCheckout].

Definition body_parsers : list Layer :=
  [ Use "/" JsonParser; Use "/" UrlencodedParser ].

Definition sanitizers : list Layer :=
  [ Use "/" MongoSanitize; Use "/" Xss ].

Definition guards_and_routers : list Layer :=
  [ Use "/" Hpp; Use "/" Compression; Use "/" RequestTime;
    Use "/" ViewRouter; Use "/api/v1/tours" TourRouter; Use "/api/v1/users" UserRouter;
    Use "/api/v1/reviews" ReviewRouter; Use "/api/v1/bookings" BookingRouter ].

Definition last_resort : list Layer :=
  [ Route None "*" [CatchAll]; UseError "/" GlobalErrorHandler ].

(** Everything above the catch-all route. *)
Definition upstream (E : Env) : list Layer :=
  (before_limiter E ++ [Use "/api" Limiter] ++ [webhook_route] ++ body_parsers
   ++ [Use "/" CookieParser] ++ sanitizers ++ guards_and_routers)%list.

(** Everything below the rate limiter. *)
Definition downstream : list Layer :=
  ([webhook_route] ++ body_parsers ++ [Use "/" CookieParser] ++ sanitizers
   ++ guards_and_routers ++ last_resort)%list.

(** The layers below the webhook route. *)
Definition after_webhook : list Layer :=
  (body_parsers ++ [Use "/" CookieParser] ++ sanitizers ++ guards_and_routers
   ++ last_resort)%list.

Definition below_parsers : list Layer :=
  ([Use "/" CookieParser] ++ sanitizers ++ guards_and_routers ++ last_resort)%list.

(** The layers above and below the two sanitisers. *)
Definition above_sanitizers (E : Env) : list Layer :=
  (front E ++ [webhook_route] ++ body_parsers ++ [Use "/" CookieParser])%list.

Definition below_sanitizers : list Layer :=
  (guards_and_routers ++ last_resort)%list.

(** The first three layers: CORS, the pre-flight route, static files; and
    the layers behind them. *)
Definition entry : list Layer :=
  [ Use "/" Cors; Route (Some OPTIONS) "*" [CorsPreflight]; Use "/" Static ].

Definition behind_entry (E : Env) : list Layer :=
  ([Use "/" Helmet] ++ (if development E then [Use "/" Morgan] else [])
   ++ [Use "/api" Limiter] ++ downstream)%list.

(** The layers above the cookie parser, and those between the cookie
    parser and the view router. *)
Definition above_cookies (E : Env) : list Layer :=
  (front E ++ [webhook_route] ++ body_parsers)%list.

Definition request_guards : list Layer :=
  (sanitizers ++ [Use "/" Hpp; Use "/" Compression; Use "/" RequestTime])%list.

(** The routers of the API: their layers, and each with the path it is
    mounted at. *)
Definition api_layers : list Layer :=
  [ Use "/api/v1/tours" TourRouter; Use "/api/v1/users" UserRouter;
    Use "/api/v1/reviews" ReviewRouter; Use "/api/v1/bookings" BookingRouter ].

Definition api_mounts : list (string * Stage) :=
  [ ("/api/v1/tours", TourRouter); ("/api/v1/users", UserRouter);
    ("/api/v1/reviews", ReviewRouter); ("/api/v1/bookings", BookingRouter) ].

(** *** Query parameters *)





(** ** Sample surroundings, used to run the pipeline on concrete requests *)

Definition production : Env :=
  {| NODE_ENV := Some "production"; public := fun _ => Miss |}.

(** A library whose parsers accept every body and whose sanitisers find
    nothing to rewrite. *)
Definition lenient : Library :=
  {| json_check := fun _ => None;
     encoding_exists := fun _ => true;
     urlencoded_parse := fun _ => inr ∅;
     cookie_parse := fun _ => ∅;
     mongo_sanitize_body := fun b => b;
     mongo_sanitize_query := fun q => q;
     xss_clean_body := fun b => b;
     xss_clean_query := fun q => q |}.

(** Routers without routes, and a webhook handler that acknowledges. *)
Definition bare : Collaborators :=
  {| viewRouter := fun r => Next (props r);
     tourRouter := fun r => Next (props r);
     userRouter := fun r => Next (props r);
     reviewRouter := fun r => Next (props r);
     bookingRouter := fun r => Next (props r);
     webhookCheckout := fun r => End {| statusCode := 200; content := Document (body (props r)) |} |}.

Definition get (p : string) (q : option string) (addr : string) : Wire :=
  {| method := GET; path := p; search := q; ip := addr; contentType := None;
     charset := None; contentEncoding := Identity; hasBody := false; payload := [];
     cookieHeader := None |}.

Definition post (p : string) (media : string) (data : list byte) : Wire :=
  {| method := POST; path := p; search := None; ip := "203.0.113.7";
     contentType := Some media; charset := None; contentEncoding := Identity;
     hasBody := true; payload := data; cookieHeader := None |}.

Definition client : string := "198.51.100.4".

(** The store of a limiter created at instant 0. *)
Definition fresh_store : AppState := {| hits := ∅; resetTime := limiter_windowMs |}.

(** [n] copies of a request, all arriving at instant [t]. *)
Definition burst (n : nat) (t : Z) (w : Wire) : list Arrival :=
  repeat {| at_time := t; from := w; parsed := ∅ |} n.

(** A webhook delivery: a small JSON document. *)
Definition delivery : Wire :=
  post "/webhook-checkout" "application/json" [x7b; x7d].

(** The same bytes, posted as plain text. *)
Definition plain_delivery : Wire :=
  post "/webhook-checkout" "text/plain" [x7b; x7d].


(** The request of the specification's example:
    GET /api/v1/tours?price[gte]=100&price[lte]=500&difficulty=easy&difficulty=hard *)
Definition tours_params : list (Key * string) :=
  [ (Sub "price" "gte", "100"); (Sub "price" "lte", "500");
    (Plain "difficulty", "easy"); (Plain "difficulty", "hard") ].

Definition tours_wire : Wire :=
  get "/api/v1/tours" (Some (search_of tours_params)) client.



(** A production server whose public directory holds one stylesheet. *)
Definition with_stylesheet : Env :=
  {| NODE_ENV := Some "production";
     public := fun p => if String.eqb p "/css/style.css"
                        then File [x62; x6f; x64; x79; x7b; x7d] else Miss |}.

(** A pre-flight request for a route of the API. *)
Definition preflight : Wire :=
  {| method := OPTIONS; path := "/api/v1/tours"; search := None; ip := client;
     contentType := None; charset := None; contentEncoding := Identity;
     hasBody := false; payload := []; cookieHeader := None |}.

(** A store in which the client has used up the quota of the window. *)
Definition exhausted : AppState :=
  {| hits := {[ client := limiter_max ]}; resetTime := limiter_windowMs |}.

(** A small JSON document for a resource route, and the same declared in
    a charset outside UTF. *)
Definition small_json : Wire :=
  post "/api/v1/tours" "application/json" [x7b; x7d].

Definition latin_json : Wire :=
  {| method := POST; path := "/api/v1/tours"; search := None; ip := client;
     contentType := Some "application/json"; charset := Some "iso-8859-1";
     contentEncoding := Identity; hasBody := true; payload := [x7b; x7d];
     cookieHeader := None |}.

(** A library whose JSON parser refuses every document. *)
Definition fussy : Library :=
  {| json_check := fun _ => Some "Unexpected token";
     encoding_exists := String.eqb "utf-8";
     urlencoded_parse := fun _ => inr ∅;
     cookie_parse := fun _ => ∅;
     mongo_sanitize_body := fun b => b;
     mongo_sanitize_query := fun q => q;
     xss_clean_body := fun b => b;
     xss_clean_query := fun q => q |}.

(** A query with a repeated parameter outside the whitelist, one inside
    it, and a range. *)
Definition polluted_query : gmap string Value :=
  {[ "sort" := VArr [VStr "price"; VStr "-ratingsAverage"];
     "duration" := VArr [VStr "5"; VStr "9"];
     "price" := VObj {[ "gte" := VStr "100" ]} ]}.

(** The id of a tour. *)
Definition tour_id : string := "5c88fa8cf4afda39709c2955".

(** A connection template and the environment that holds it. *)
Definition connection_template : string * string :=
  ("mongodb+srv://natours:", "@cluster0.mongodb.net/natours?retryWrites=true").

Definition configured (password : option string) : Startup.ProcessEnv :=
  {| Startup.DATABASE := Some (fst connection_template ++ "<PASSWORD>"
                               ++ snd connection_template);
     Startup.DATABASE_PASSWORD := password |}.

(** A local database, whose address has no place for a password; and an
    environment in which the database is not configured. *)
Definition local_database : Startup.ProcessEnv :=
  {| Startup.DATABASE := Some "mongodb://localhost:27017/natours";
     Startup.DATABASE_PASSWORD := None |}.

Definition unconfigured : Startup.ProcessEnv :=
  {| Startup.DATABASE := None; Startup.DATABASE_PASSWORD := Some "s3cret" |}.

(** Positions in degrees, as (longitude, latitude); the map library
    accepts the latitudes from -90 to 90. *)
Definition in_range (position : Z * Z) : bool :=
  (-90 <=? snd position)%Z && (snd position <=? 90)%Z.

Definition miami : @MapClient.Location (Z * Z) :=
  {| MapClient.coordinates := ((-80)%Z, 25%Z); MapClient.day := 1%N;
     MapClient.description := "Lummus Park Beach" |}.

Definition nowhere : @MapClient.Location (Z * Z) :=
  {| MapClient.coordinates := (0%Z, 120%Z); MapClient.day := 2%N;
     MapClient.description := "Off the map" |}.

(** * Properties *)

(** ** The dispatch rule *)

Section Dispatch.
Context (E : Env) (L : Library) (C : Collaborators) (now : Z) (w : Wire).

Local Abbreviation step := (step_layer E L C now w).
Local Abbreviation handle' := (handle E L C now w).
Local Abbreviation call' := (call E L C now w).
Local Abbreviation route' := (run_route E L C now w).

Lemma call_trace s x p : trace (call' s x p) = (trace x ++ [(s, p)])%list.
Proof. unfold call. destruct (run_stage _ _ _ _ _ _ _); reflexivity. Qed.

Lemma call_store s x p : s <> Limiter -> store (call' s x p) = store x.
Proof.
  intros Hs. unfold call.
  destruct s; try congruence; reflexivity.
Qed.

Lemma handle_app l1 l2 x : handle' (l1 ++ l2)%list x = handle' l2 (handle' l1 x).
Proof. unfold handle. apply foldl_app. Qed.

Lemma handle_cons l ls x : handle' (l :: ls) x = handle' ls (step x l).
Proof. reflexivity. Qed.

Lemma route_trace hs x :
  exists extra, trace (route' hs x) = (trace x ++ extra)%list
                /\ Forall (fun sp => fst sp ∈ hs) extra.
Proof.
  revert x. induction hs as [|s hs IH]; intros x; simpl.
  - exists []. rewrite app_nil_r. auto.
  - destruct (phase x) eqn:Hp.
    + destruct (IH (call' s x p)) as (extra & Ht & Hall).
      exists ((s, p) :: extra). split.
      * rewrite Ht, call_trace, <- app_assoc. reflexivity.
      * constructor; [set_solver|].
        eapply Forall_impl; [exact Hall|]. intros; set_solver.
    + exists []. rewrite app_nil_r. auto.
    + exists []. rewrite app_nil_r. auto.
Qed.

Lemma step_trace l x :
  exists extra, trace (step x l) = (trace x ++ extra)%list
                /\ Forall (fun sp => fst sp ∈ stages_of l /\ matches w l = true) extra.
Proof.
  unfold step_layer.
  destruct (phase x) eqn:Hp, l; simpl;
    try (exists []; rewrite app_nil_r; split; [reflexivity|constructor]).
  - destruct (under_mount _ _) eqn:Hm.
    + exists [(s, p)]. rewrite call_trace. split; [reflexivity|].
      constructor; [split; [set_solver|reflexivity]|constructor].
    + exists []. rewrite app_nil_r. auto.
  - destruct (_ && _) eqn:Hm.
    + destruct (route_trace hs x) as (extra & Ht & Hall). exists extra.
      split; [exact Ht|]. eapply Forall_impl; [exact Hall|]. intros; split; [assumption|reflexivity].
    + exists []. rewrite app_nil_r. auto.
  - destruct (under_mount _ _) eqn:Hm; simpl.
    + exists [(s, p)]. split; [reflexivity|].
      constructor; [split; [set_solver|reflexivity]|constructor].
    + exists []. rewrite app_nil_r. auto.
Qed.

(** The trace only grows, and only by stages of the layers that apply. *)
Lemma handle_trace ls x :
  exists extra, trace (handle' ls x) = (trace x ++ extra)%list
                /\ Forall (fun sp => exists l, l ∈ ls /\ fst sp ∈ stages_of l
                                               /\ matches w l = true) extra.
Proof.
  revert x. induction ls as [|l ls IH]; intros x.
  - exists []. rewrite app_nil_r. split; [reflexivity|constructor].
  - rewrite handle_cons.
    destruct (IH (step x l)) as (e2 & H2 & A2).
    destruct (step_trace l x) as (e1 & H1 & A1).
    exists (e1 ++ e2)%list. split.
    + rewrite H2, H1, <- app_assoc. reflexivity.
    + apply Forall_app. split.
      * eapply Forall_impl; [exact A1|]. intros sp [Hsp Hm]. exists l.
        split; [apply elem_of_cons; left; reflexivity|]. split; assumption.
      * eapply Forall_impl; [exact A2|]. intros sp (l' & Hl' & Hsp). exists l'.
        split; [apply elem_of_cons; right; exact Hl'|exact Hsp].
Qed.

Lemma step_finished l x s r : phase x = Finished s r -> step x l = x.
Proof. intros H. unfold step_layer. rewrite H. reflexivity. Qed.

Lemma handle_finished ls x s r : phase x = Finished s r -> handle' ls x = x.
Proof.
  revert x. induction ls as [|l ls IH]; intros x H; [reflexivity|].
  rewrite handle_cons, (step_finished l x s r H). auto.
Qed.

Lemma step_not_running l x : running x = false -> running (step x l) = false.
Proof.
  unfold running, step_layer. destruct (phase x) eqn:Hp; [discriminate| |]; intros _.
  - destruct l; rewrite ?Hp; try reflexivity.
    destruct (under_mount _ _); simpl; [reflexivity|]. rewrite Hp. reflexivity.
  - rewrite Hp. reflexivity.
Qed.

Lemma handle_not_running ls x : running x = false -> running (handle' ls x) = false.
Proof.
  revert x. induction ls as [|l ls IH]; intros x H; [exact H|].
  rewrite handle_cons. apply IH, step_not_running, H.
Qed.

(** Once a request has failed, only error handlers are called. *)
Lemma step_failed_trace l x :
  running x = false ->
  exists extra, trace (step x l) = (trace x ++ extra)%list
                /\ Forall (fun sp => exists m, l = UseError m (fst sp)) extra.
Proof.
  unfold running, step_layer. destruct (phase x) eqn:Hp; [discriminate| |]; intros _.
  - destruct l; try (exists []; rewrite app_nil_r; split; [reflexivity|constructor]).
    destruct (under_mount _ _); simpl.
    + exists [(s, p)]. split; [reflexivity|]. constructor; [|constructor]. exists mount. reflexivity.
    + exists []. rewrite app_nil_r; split; [reflexivity|constructor].
  - exists []. rewrite app_nil_r; split; [reflexivity|constructor].
Qed.

Lemma handle_failed_trace ls x :
  running x = false ->
  exists extra, trace (handle' ls x) = (trace x ++ extra)%list
                /\ Forall (fun sp => exists m, UseError m (fst sp) ∈ ls) extra.
Proof.
  revert x. induction ls as [|l ls IH]; intros x H.
  - exists []. rewrite app_nil_r. split; [reflexivity|constructor].
  - rewrite handle_cons.
    destruct (step_failed_trace l x H) as (e1 & H1 & A1).
    destruct (IH (step x l) (step_not_running l x H)) as (e2 & H2 & A2).
    exists (e1 ++ e2)%list. split.
    + rewrite H2, H1, <- app_assoc. reflexivity.
    + apply Forall_app. split.
      * eapply Forall_impl; [exact A1|]. intros sp (m & ->). exists m. set_solver.
      * eapply Forall_impl; [exact A2|]. intros sp (m & Hm). exists m. set_solver.
Qed.

(** A property of runs that every call and every error answer preserves
    holds at the end. *)
Lemma route_inv (P : Run -> Prop) hs :
  (forall y s p, P y -> phase y = Running p -> s ∈ hs -> P (call' s y p)) ->
  forall x, P x -> P (route' hs x).
Proof.
  induction hs as [|s hs IH]; intros Hcall x Hx; simpl; [exact Hx|].
  destruct (phase x) eqn:Hp; try exact Hx.
  apply IH.
  - intros y s' p' Hy Hr Hin. apply Hcall; [exact Hy|exact Hr|set_solver].
  - apply Hcall; [exact Hx|exact Hp|set_solver].
Qed.

Lemma layers_inv (P : Run -> Prop) ls :
  (forall y s p l, P y -> phase y = Running p ->
                   l ∈ ls -> matches w l = true -> s ∈ stages_of l -> P (call' s y p)) ->
  (forall y s p f m, P y -> phase y = Failed p f ->
                     UseError m s ∈ ls -> under_mount m (path w) = true ->
                     P (answered E s p f y)) ->
  forall x, P x -> P (handle' ls x).
Proof.
  induction ls as [|l ls IH]; intros Hcall Herr x Hx; [exact Hx|].
  rewrite handle_cons. apply IH.
  - intros y s p l' Hy Hr Hin. apply Hcall; [exact Hy|exact Hr|set_solver].
  - intros y s p f m Hy Hf Hin. apply (Herr y s p f m); [exact Hy|exact Hf|set_solver].
  - unfold step_layer. destruct (phase x) eqn:Hp; [| |exact Hx].
    + destruct l as [mount s|m pattern hs|mount s]; [| |exact Hx].
      * destruct (under_mount mount (path w)) eqn:Hm; [|exact Hx].
        apply (Hcall x s p (Use mount s)); [exact Hx|exact Hp|set_solver|exact Hm|simpl; set_solver].
      * destruct (handles_method m (method w) && route_match pattern (path w)) eqn:Hm; [|exact Hx].
        apply route_inv; [|exact Hx].
        intros y s p' Hy Hr Hin.
        apply (Hcall y s p' (Route m pattern hs)); [exact Hy|exact Hr|set_solver|exact Hm|exact Hin].
    + destruct l as [mount s|m pattern hs|mount s]; try exact Hx.
      destruct (under_mount mount (path w)) eqn:Hm; [|exact Hx].
      apply (Herr x s p f mount); [exact Hx|exact Hp|set_solver|exact Hm].
Qed.

Lemma call_phase s x p s' r : phase (call' s x p) = Finished s' r -> s' = s.
Proof.
  unfold call. destruct (run_stage _ _ _ _ _ _ _) as [[?|?|?] ?]; simpl; congruence.
Qed.

(** Layers that do not call the rate limiter leave its store alone and
    never answer in its name. *)
Lemma quiet_layers ls x :
  Forall (fun l => matches w l = true -> Limiter ∉ stages_of l) ls ->
  store (handle' ls x) = store x
  /\ (forall r, phase (handle' ls x) = Finished Limiter r -> phase x = Finished Limiter r).
Proof.
  intros Hq. rewrite Forall_forall in Hq.
  apply (layers_inv (fun y => store y = store x
           /\ (forall r, phase y = Finished Limiter r -> phase x = Finished Limiter r))).
  - intros y s p l [Hst Hph] Hr Hl Hm Hs.
    assert (s <> Limiter) as Hne by (intros ->; exact (Hq l Hl Hm Hs)).
    split.
    + rewrite call_store; assumption.
    + intros r Hfin. apply call_phase in Hfin. congruence.
  - intros y s p f m [Hst Hph] Hf Hl Hm. split; [exact Hst|].
    simpl. intros r Hfin. injection Hfin as -> _.
    exfalso. apply (Hq (UseError m Limiter) Hl Hm). simpl. set_solver.
  - split; [reflexivity|auto].
Qed.

(** A stage that no layer holds is not called. *)
Lemma uncalled s ls x :
  Forall (fun l => s ∉ stages_of l) ls ->
  s ∈ fst <$> trace (handle' ls x) -> s ∈ fst <$> trace x.
Proof.
  intros Hq. destruct (handle_trace ls x) as (extra & -> & Hall).
  rewrite fmap_app, elem_of_app. intros [H|H]; [exact H|].
  apply list_elem_of_fmap in H as (sp & Hs & Hin).
  destruct (proj1 (Forall_forall _ _) Hall sp Hin) as (l & Hl & Hsl & _).
  exfalso. apply (proj1 (Forall_forall _ _) Hq l Hl). rewrite Hs. exact Hsl.
Qed.

Lemma app_around_limiter :
  app E = (before_limiter E ++ [Use "/api" Limiter] ++ downstream)%list.
Proof. unfold app, downstream, before_limiter. destruct (development E); reflexivity. Qed.

Lemma app_upstream : app E = (upstream E ++ last_resort)%list.
Proof. unfold app, upstream, before_limiter. destruct (development E); reflexivity. Qed.

End Dispatch.

(** ** What the installed functions can do *)

Lemma body_parser_no_end media cs known limit parse r resp :
  body_parser media cs known limit parse r <> End resp.
Proof.
  unfold body_parser.
  repeat match goal with
         | |- context [if ?b then _ else _] => destruct b
         | |- context [match ?x with _ => _ end] => destruct x
         end; discriminate.
Qed.

Lemma hpp_next wl r : exists p, hpp wl r = Next p.
Proof.
  unfold hpp. cbn [body set_query].
  destruct (body (props r)); try (eexists; reflexivity).
  destruct (type_is _ _); eexists; reflexivity.
Qed.

Lemma globalErrorHandler_shaped E f : shaped (globalErrorHandler E f).
Proof.
  unfold shaped, globalErrorHandler.
  destruct (development E); [|destruct (isOperational f)]; simpl; eauto.
Qed.

Section Stages.
Context (E : Env) (L : Library) (C : Collaborators) (now : Z).

(** A function of [app.js] that ends the response itself does so with a
    status below 400, the rate limiter apart. *)
Lemma stage_end s st r resp st' :
  forwards_faults C ->
  run_stage E L C now s st r = (End resp, st') ->
  (statusCode resp < 400)%nat \/ (s = Limiter /\ resp = limit_response).
Proof.
  intros HC H. destruct s; simpl in H; unfold ok in H;
    try discriminate;
    try (injection H as H _; left;
         first [ exact (HC ViewRouter _ r resp eq_refl H)
               | exact (HC TourRouter _ r resp eq_refl H)
               | exact (HC UserRouter _ r resp eq_refl H)
               | exact (HC ReviewRouter _ r resp eq_refl H)
               | exact (HC BookingRouter _ r resp eq_refl H)
               | exact (HC WebhookCheckout _ r resp eq_refl H) ]).
  - unfold cors in H. injection H as H _. case_bool_decide; [|discriminate].
    injection H as <-. left. simpl. lia.
  - unfold cors in H. injection H as H _. case_bool_decide; [|discriminate].
    injection H as <-. left. simpl. lia.
  - injection H as H _. unfold serve_static in H.
    destruct (method (wire r)); try discriminate;
      destruct (public E (path (wire r))); try discriminate;
      try destruct (has_trailing_slash (path (wire r))); try discriminate;
      try destruct (public E (path (wire r) ++ "index.html")); try discriminate;
      injection H as <-; left; simpl; lia.
  - unfold limiter in H. destruct (incr _ _) as [current st1].
    destruct (limiter_max <? current)%nat; [|discriminate].
    injection H as <- _. right. auto.
  - injection H as H _. exfalso. eapply body_parser_no_end, H.
  - injection H as H _. exfalso. eapply body_parser_no_end, H.
  - injection H as H _. exfalso. eapply body_parser_no_end, H.
  - injection H as H _. unfold cookie_parser in H. destruct (cookies _); discriminate.
  - injection H as H _. destruct (hpp_next whitelist r) as [p Hp]. congruence.
Qed.

Context (w : Wire).

(** The last two layers answer whatever reaches them. *)
Lemma last_resort_run y :
  handle E L C now w last_resort y =
  match phase y with
  | Running p =>
      let f := AppError ("Can't find " ++ originalUrl w ++ " on this server!") 404 in
      {| phase := Finished GlobalErrorHandler (globalErrorHandler E f);
         store := store y;
         trace := (trace y ++ [(CatchAll, p)]) ++ [(GlobalErrorHandler, p)];
         thrown := Some (CatchAll, f) |}
  | Failed p f => answered E GlobalErrorHandler p f y
  | Finished _ _ => y
  end.
Proof.
  unfold handle, last_resort, answered. simpl. unfold step_layer. simpl.
  destruct (phase y) eqn:Hp; simpl; rewrite ?Hp; simpl; reflexivity.
Qed.

Lemma error_layer_of_app m s : UseError m s ∈ app E -> s = GlobalErrorHandler.
Proof.
  unfold app. destruct (development E); simpl; intros H;
    repeat (apply elem_of_cons in H as [H|H]; [try discriminate; try (injection H as _ <-; reflexivity)|]);
    apply elem_of_nil in H; contradiction.
Qed.

End Stages.

(** ** C1: which responses bypass the error handler *)

Section Shaping.
Context (E : Env) (L : Library) (C : Collaborators) (now : Z) (w : Wire).

Lemma always_answered x :
  exists s r, phase (handle E L C now w (app E) x) = Finished s r.
Proof.
  rewrite app_upstream, handle_app, last_resort_run.
  destruct (phase (handle E L C now w (upstream E) x)) eqn:Hp; simpl; eauto.
Qed.

Lemma acceptable_run x :
  forwards_faults C -> acceptable E x -> acceptable E (handle E L C now w (app E) x).
Proof.
  intros HC. apply layers_inv.
  - intros y s p l _ _ _ _ _. unfold acceptable, call.
    destruct (run_stage _ _ _ _ _ _ _) as [[p'|f|resp] st'] eqn:Hrun; simpl.
    + exact I.
    + eauto.
    + destruct (stage_end E L C now _ _ _ _ _ HC Hrun) as [Hlt|[-> ->]]; auto.
  - intros y s p f m Hy Hf Hin _. unfold acceptable in *. rewrite Hf in Hy.
    destruct Hy as [who Hwho]. simpl. right. left. split.
    + eapply error_layer_of_app, Hin.
    + eauto.
Qed.

End Shaping.

(** C1, as amended: every response is a success (status below 400), or it
    is the answer of the terminal error handler to the fault that was
    thrown, shaped {status, message}, or it is the rate limiter's own 429
    with its fixed message.  The handlers of the repository are taken to
    forward their faults, as the specification says. *)
Theorem C1_error_responses (E : Env) (L : Library) (C : Collaborators) (now : Z)
    (st : AppState) (w : Wire) (q : gmap string Value) :
  forwards_faults C ->
  let r := serve E L C now st w q in
  (statusCode (response r) < 400)%nat
  \/ (responder r = GlobalErrorHandler /\ shaped (response r)
      /\ exists who f, fault r = Some (who, f) /\ response r = globalErrorHandler E f)
  \/ (responder r = Limiter /\ response r = limit_response).
Proof.
  intros HC r. subst r. unfold serve, finish. cbn [response responder fault].
  pose proof (acceptable_run E L C now w (start st w q) HC I) as Hacc.
  destruct (always_answered E L C now w (start st w q)) as (s & resp & Hp).
  unfold acceptable in Hacc. rewrite Hp in *.
  destruct Hacc as [Hlt|[(-> & who & f & Hth & ->)|[-> ->]]]; auto.
  right. left. split; [reflexivity|]. split; [apply globalErrorHandler_shaped|eauto].
Qed.

Lemma bare_forwards_faults : forwards_faults bare.
Proof.
  intros s h r resp Hs Hh.
  destruct s; simpl in Hs; try discriminate; injection Hs as <-;
    simpl in Hh; try discriminate.
  injection Hh as <-. simpl. lia.
Qed.

Lemma C1_error_responses_witness :
  forwards_faults bare
  /\ let r := serve production lenient bare 0 fresh_store (get "/" None client) ∅ in
     (statusCode (response r) < 400)%nat
     \/ (responder r = GlobalErrorHandler /\ shaped (response r)
         /\ exists who f, fault r = Some (who, f)
                          /\ response r = globalErrorHandler production f)
     \/ (responder r = Limiter /\ response r = limit_response).
Proof.
  split; [exact bare_forwards_faults|].
  exact (C1_error_responses production lenient bare 0 fresh_store
           (get "/" None client) ∅ bare_forwards_faults).
Defined.

(** C1 as stated fails: the 101st request of a client under /api within
    one window is answered by the rate limiter itself.  The status is 429,
    the body is the bare message, no fault was thrown and the error handler
    was not called. *)
Lemma C1_rate_limiter_answers_itself :
  let w := get "/api/v1/tours" None client in
  let served := serve_all production lenient bare fresh_store (burst 101 0 w) in
  (fun ar => (response (snd ar), responder (snd ar), stages (snd ar), fault (snd ar)))
    <$> (served !! 100%nat)
  = Some ({| statusCode := 429; content := Text limiter_message |},
          Limiter, [Cors; Static; Helmet; Limiter], None).
Proof. vm_compute. reflexivity. Qed.

(** ** The rate limiter in the pipeline *)

Lemma no_limiter_before E :
  Forall (fun l => Limiter ∉ stages_of l) (before_limiter E).
Proof.
  unfold before_limiter. destruct (development E);
    apply (bool_decide_unpack _); vm_compute; exact I.
Qed.

Lemma no_limiter_downstream : Forall (fun l => Limiter ∉ stages_of l) downstream.
Proof. apply (bool_decide_unpack _). vm_compute. exact I. Qed.

Section Limiting.
Context (E : Env) (L : Library) (C : Collaborators) (now : Z) (w : Wire).

Local Abbreviation handle' := (handle E L C now w).

Lemma quiet ls x :
  Forall (fun l => Limiter ∉ stages_of l) ls ->
  store (handle' ls x) = store x
  /\ (forall r, phase (handle' ls x) = Finished Limiter r -> phase x = Finished Limiter r)
  /\ (Limiter ∈ fst <$> trace (handle' ls x) -> Limiter ∈ fst <$> trace x).
Proof.
  intros Hq.
  destruct (quiet_layers E L C now w ls x) as [Hst Hph].
  { eapply Forall_impl; [exact Hq|]. auto. }
  split; [exact Hst|]. split; [exact Hph|].
  apply uncalled, Hq.
Qed.

(** How a request fares at the rate limiter: either the limiter is not
    called and its store is untouched, or the request is under [/api], it
    is counted, and it is refused exactly when the count exceeds the
    quota. *)
Lemma limiter_accounting st q :
  let r := serve E L C now st w q in
  ((Limiter ∉ stages r) /\ store' r = st /\ responder r <> Limiter)
  \/ (under_mount "/api" (path w) = true /\ Limiter ∈ stages r
      /\ store' r = snd (counted now w st)
      /\ (if (limiter_max <? fst (counted now w st))%nat
          then responder r = Limiter /\ response r = limit_response
          else responder r <> Limiter)).
Proof.
  intros r. subst r. unfold serve, stages, finish.
  cbn [calls store' responder response].
  rewrite app_around_limiter, !handle_app.
  set (y1 := handle' (before_limiter E) (start st w q)).
  destruct (quiet (before_limiter E) (start st w q) (no_limiter_before E))
    as (Hst1 & Hph1 & Htr1). fold y1 in Hst1, Hph1, Htr1.
  simpl in Hst1.
  assert (Limiter ∉ fst <$> trace y1) as Hno1.
  { intros H. apply Htr1 in H. simpl in H. set_solver. }
  assert (forall r, phase y1 <> Finished Limiter r) as Hnf1.
  { intros r H. apply Hph1 in H. discriminate. }
  set (y2 := handle' [Use "/api" Limiter] y1).
  destruct (quiet downstream y2 no_limiter_downstream) as (Hst3 & Hph3 & Htr3).
  set (y3 := handle' downstream y2) in *.
  assert (responder_of : forall s r, phase y3 = Finished s r -> s = Limiter ->
                                     phase y2 = Finished Limiter r).
  { intros s r H ->. auto. }
  destruct (handle_trace E L C now w downstream y2) as (extra & Htrace & _).
  fold y3 in Htrace.
  assert (y2 = y1 \/ exists p, phase y1 = Running p
                              /\ under_mount "/api" (path w) = true
                              /\ y2 = call E L C now w Limiter y1 p) as [Hy2|(p & Hp & Hm & Hy2)].
  { subst y2. unfold handle. simpl. unfold step_layer.
    destruct (phase y1) eqn:Hp; auto.
    destruct (under_mount "/api" (path w)) eqn:Hm; eauto. }
  - left. rewrite Hst3, Hy2, Hst1. split; [|split; [reflexivity|]].
    + intros H. apply Htr3 in H. rewrite Hy2 in H. contradiction.
    + destruct (phase y3) eqn:Hp3; try discriminate.
      intros ->. pose proof (Hph3 _ eq_refl) as Hp2. rewrite Hy2 in Hp2.
      exact (Hnf1 _ Hp2).
  - right. split; [exact Hm|].
    assert (store y2 = snd (counted now w st)
            /\ trace y2 = (trace y1 ++ [(Limiter, p)])%list
            /\ phase y2 = if (limiter_max <? fst (counted now w st))%nat
                          then Finished Limiter limit_response else Running p)
      as (Hs2 & Ht2 & Hp2).
    { rewrite Hy2. unfold call, run_stage, limiter, counted. cbn [wire props].
      rewrite Hst1. destruct (incr (ip w) (advance now st)) as [n st1]. cbn [fst snd].
      destruct (limiter_max <? n)%nat; auto. }
    split; [|split].
    + rewrite Htrace, Ht2, !fmap_app. apply elem_of_app. left.
      apply elem_of_app. right. apply elem_of_cons. left. reflexivity.
    + rewrite Hst3. exact Hs2.
    + destruct (limiter_max <? fst (counted now w st))%nat.
      * subst y3. rewrite (handle_finished E L C now w downstream y2 _ _ Hp2).
        rewrite Hp2. auto.
      * destruct (phase y3) eqn:Hp3; try discriminate.
        intros ->. pose proof (Hph3 _ eq_refl) as Hp2'. rewrite Hp2 in Hp2'.
        discriminate.
Qed.

End Limiting.

Lemma rest_after_prefix m p rest : rest_after m p = Some rest -> String.prefix m p = true.
Proof.
  revert p. induction m as [|a m IH]; intros p H; [destruct p; reflexivity|].
  destruct p as [|b p]; simpl in *; [discriminate|].
  destruct (Ascii.eqb a b) eqn:Hab; [|discriminate].
  apply Ascii.eqb_eq in Hab. subst b.
  destruct (ascii_dec a a); [eauto|contradiction].
Qed.

Lemma under_api_begins p : under_mount "/api" p = true -> begins_with "/api" p = true.
Proof.
  unfold under_mount, begins_with.
  change (String.eqb "/api" "/") with false. cbv iota.
  destruct (rest_after (lower "/api") (lower p)) eqn:H; [|discriminate].
  intros _. eapply rest_after_prefix, H.
Qed.

(** ** C9: the rate limiter applies under [/api] only *)

(** C9: a request whose path does not begin with /api (compared as
    Express compares mount paths, letter case apart) never reaches the
    rate limiter: the limiter is not called, its store is left as it was,
    so no quota is consumed, and the response is not the limiter's.  This
    holds from every state of the store and hence for any number of such
    requests in a row. *)
Theorem C9_limiter_only_under_api (E : Env) (L : Library) (C : Collaborators)
    (st : AppState) (arrivals : list Arrival) :
  Forall (fun a => begins_with "/api" (path (from a)) = false) arrivals ->
  Forall (fun ar => (Limiter ∉ stages (snd ar)) /\ responder (snd ar) <> Limiter
                    /\ store' (snd ar) = st)
         (serve_all E L C st arrivals).
Proof.
  induction arrivals as [|a rest IH]; intros H; cbn [serve_all]; [constructor|].
  inversion H as [|? ? Ha Hrest]; subst.
  destruct (limiter_accounting E L C (at_time a) (from a) st (parsed a))
    as [(Hno & Hst & Hresp)|(Hm & _)].
  - constructor; [cbn [snd]; auto|]. rewrite Hst. apply IH, Hrest.
  - apply under_api_begins in Hm. congruence.
Qed.

Lemma C9_limiter_only_under_api_witness :
  let arrivals := burst 2 0 (post "/webhook-checkout" "application/json" []) in
  Forall (fun a => begins_with "/api" (path (from a)) = false) arrivals
  /\ Forall (fun ar => (Limiter ∉ stages (snd ar)) /\ responder (snd ar) <> Limiter
                       /\ store' (snd ar) = fresh_store)
            (serve_all production lenient bare fresh_store arrivals).
Proof.
  assert (Forall (fun a => begins_with "/api" (path (from a)) = false)
                 (burst 2 0 (post "/webhook-checkout" "application/json" []))) as H.
  { repeat constructor. }
  split; [exact H|].
  exact (C9_limiter_only_under_api production lenient bare fresh_store _ H).
Defined.

(** ** C4: the quota of the rate limiter *)

Lemma in_order_weaken t t' arrivals : (t' <= t)%Z -> in_order t arrivals -> in_order t' arrivals.
Proof. destruct arrivals; simpl; [auto|]. intros ? [? ?]. split; [lia|assumption]. Qed.

Lemma windowMs_pos : (0 < limiter_windowMs)%Z.
Proof. reflexivity. Qed.

(** The store at instant [t]: its window is the one that holds [t]; the
    counters are kept when [t] is in the window on record and cleared
    otherwise. *)
Lemma advance_spec t st :
  (resetTime st - limiter_windowMs <= t)%Z ->
  exists j, (0 <= j)%Z
    /\ resetTime (advance t st) = (resetTime st + j * limiter_windowMs)%Z
    /\ (resetTime (advance t st) - limiter_windowMs <= t < resetTime (advance t st))%Z
    /\ (j = 0%Z -> advance t st = st)
    /\ ((0 < j)%Z -> hits (advance t st) = ∅).
Proof.
  intros Ht. unfold advance. pose proof windowMs_pos as HW.
  destruct (t <? resetTime st)%Z eqn:Hlt.
  - apply Z.ltb_lt in Hlt. exists 0%Z. repeat split; try lia. 
  - apply Z.ltb_ge in Hlt. exists ((t - resetTime st) / limiter_windowMs + 1)%Z.
    cbn [resetTime hits].
    pose proof (Z.div_mod (t - resetTime st) limiter_windowMs ltac:(lia)) as Hdm.
    pose proof (Z.mod_pos_bound (t - resetTime st) limiter_windowMs HW) as Hmod.
    assert (0 <= (t - resetTime st) / limiter_windowMs)%Z by (apply Z.div_pos; lia).
    repeat split; try lia.
Qed.

Section Window.
Context (E : Env) (L : Library) (C : Collaborators) (addr : string).

Lemma none_before lo hi t st arrivals :
  in_order t arrivals -> (hi <= t)%Z ->
  passed_in addr lo hi (serve_all E L C st arrivals) = 0.
Proof.
  revert t st. induction arrivals as [|a rest IH]; intros t st Hord Hhi; [reflexivity|].
  destruct Hord as [Ht Hrest]. cbn [serve_all]. unfold passed_in.
  rewrite filter_cons. cbn [fst snd].
  destruct (decide _) as [(_ & _ & Hin)|_]; [lia|].
  apply (IH (at_time a)); [exact Hrest|lia].
Qed.

Lemma passed_in_cons lo hi a r served :
  passed_in addr lo hi ((a, r) :: served) =
  ((if decide (ip (from a) = addr /\ passed_limiter r = true /\ (lo <= at_time a < hi)%Z)
    then 1 else 0) + passed_in addr lo hi served)%nat.
Proof.
  unfold passed_in. rewrite filter_cons. cbn [fst snd].
  destruct (decide _); reflexivity.
Qed.

Lemma window_bound arrivals : forall st k,
  in_order (resetTime st - limiter_windowMs) arrivals -> (0 <= k)%Z ->
  (passed_in addr (resetTime st + (k - 1) * limiter_windowMs)
                  (resetTime st + k * limiter_windowMs)
                  (serve_all E L C st arrivals)
   <= if (k =? 0)%Z then limiter_max - hits_of st addr else limiter_max)%nat.
Proof.
  induction arrivals as [|a rest IH]; intros st k Hord Hk.
  { unfold passed_in. simpl. lia. }
  destruct Hord as [Ht Hrest]. cbn [serve_all]. rewrite passed_in_cons.
  pose proof windowMs_pos as HW.
  destruct (limiter_accounting E L C (at_time a) (from a) st (parsed a))
    as [(Hno & Hst & _)|(_ & Hin & Hst & Hresp)].
  - (* the limiter is not called *)
    rewrite Hst.
    destruct (decide _) as [(_ & Hp & _)|_].
    + unfold passed_limiter in Hp. rewrite bool_decide_eq_false_2 in Hp by exact Hno.
      discriminate.
    + apply IH; [|exact Hk]. eapply in_order_weaken; [|exact Hrest]. lia.
  - (* the request is counted *)
    rewrite Hst. unfold counted in *.
    destruct (advance_spec (at_time a) st Ht) as (j & Hj & HR1 & Hwin & Hsame & Hclear).
    set (st1 := advance (at_time a) st) in *.
    unfold incr in *. cbn [fst snd] in *.
    set (st2 := {| hits := _; resetTime := resetTime st1 |}) in *.
    assert (passed_limiter (serve E L C (at_time a) st (from a) (parsed a)) = true
            -> (S (hits_of st1 (ip (from a))) <= limiter_max)%nat) as Hpass.
    { unfold passed_limiter. fold (hits_of st1 (ip (from a))) in Hresp.
      destruct (limiter_max <? S (hits_of st1 (ip (from a))))%nat eqn:Hcmp.
      - destruct Hresp as [-> _].
        rewrite (bool_decide_eq_true_2 (Limiter = Limiter) eq_refl).
        rewrite andb_false_r. discriminate.
      - intros _. apply Nat.ltb_ge in Hcmp. exact Hcmp. }
    assert (resetTime st2 = resetTime st1) as HR2 by reflexivity.
    assert (in_order (resetTime st2 - limiter_windowMs) rest) as Hord2.
    { eapply in_order_weaken; [|exact Hrest]. rewrite HR2. lia. }
    destruct (Z.lt_trichotomy k j) as [Hkj|[Hkj|Hkj]].
    + (* the window ended before this request *)
      rewrite (none_before _ _ (at_time a)); [|exact Hrest|nia].
      destruct (decide _) as [(_ & _ & Hw)|_]; [nia|].
      lia.
    + (* the window of this request *)
      subst k.
      pose proof (IH st2 0%Z Hord2 ltac:(lia)) as Hrec.
      rewrite HR2 in Hrec. change (0 =? 0)%Z with true in Hrec. cbv iota in Hrec.
      replace (resetTime st + (j - 1) * limiter_windowMs)%Z
        with (resetTime st1 + (0 - 1) * limiter_windowMs)%Z by lia.
      replace (resetTime st + j * limiter_windowMs)%Z
        with (resetTime st1 + 0 * limiter_windowMs)%Z by lia.
      assert ((if (j =? 0)%Z then limiter_max - hits_of st addr else limiter_max)%nat
              = (limiter_max - hits_of st1 addr)%nat) as ->.
      { destruct (j =? 0)%Z eqn:Hj0.
        - apply Z.eqb_eq in Hj0. subst st1. rewrite (Hsame Hj0). reflexivity.
        - apply Z.eqb_neq in Hj0. unfold hits_of. rewrite Hclear by lia.
          rewrite lookup_empty. reflexivity. }
      destruct (decide (ip (from a) = addr)) as [Hip|Hip].
      * assert (hits_of st2 addr = S (hits_of st1 addr)) as Hh2.
        { unfold hits_of, st2. cbn [hits]. rewrite Hip, lookup_insert_eq. reflexivity. }
        rewrite Hh2 in Hrec.
        destruct (decide _) as [(_ & Hp & _)|_].
        -- apply Hpass in Hp. rewrite Hip in Hp. lia.
        -- lia.
      * assert (hits_of st2 addr = hits_of st1 addr) as Hh2.
        { unfold hits_of, st2. cbn [hits]. rewrite lookup_insert_ne by exact Hip. reflexivity. }
        rewrite Hh2 in Hrec.
        destruct (decide _) as [(Hip' & _)|_]; [contradiction|]. lia.
    + (* a later window *)
      pose proof (IH st2 (k - j)%Z Hord2 ltac:(lia)) as Hrec.
      rewrite HR2 in Hrec.
      replace (resetTime st1 + (k - j - 1) * limiter_windowMs)%Z
        with (resetTime st + (k - 1) * limiter_windowMs)%Z in Hrec by lia.
      replace (resetTime st1 + (k - j) * limiter_windowMs)%Z
        with (resetTime st + k * limiter_windowMs)%Z in Hrec by lia.
      destruct (k - j =? 0)%Z eqn:Hkj0; [apply Z.eqb_eq in Hkj0; lia|].
      destruct (k =? 0)%Z eqn:Hk0; [apply Z.eqb_eq in Hk0; lia|].
      destruct (decide _) as [(_ & _ & Hw)|_]; [nia|]. lia.
Qed.

End Window.

(** C4, as amended: the quota holds per window of the limiter's store, not
    per rolling hour.  The store counts the requests of each client in
    windows of one hour laid end to end from its creation and clears every
    counter when a window ends.  Of the requests of one client that arrive
    in any one such window, at most 100 go past the limiter; and a request
    that reaches the limiter when 100 or more of the client's requests are
    already counted in the current window is answered by the limiter
    itself, with status 429 and the fixed message. *)
Theorem C4_quota_per_window (E : Env) (L : Library) (C : Collaborators)
    (st : AppState) (arrivals : list Arrival) (addr : string) (k : Z) :
  in_order (resetTime st - limiter_windowMs) arrivals ->
  (0 <= k)%Z ->
  (passed_in addr (resetTime st + (k - 1) * limiter_windowMs)
                  (resetTime st + k * limiter_windowMs)
                  (serve_all E L C st arrivals) <= 100)%nat
  /\ forall now w q,
       let r := serve E L C now st w q in
       Limiter ∈ stages r ->
       (100 <= hits_of (advance now st) (ip w))%nat ->
       responder r = Limiter
       /\ statusCode (response r) = 429
       /\ content (response r)
          = Text "Too many requests from this IP, please try again in an hour!".
Proof.
  intros Hord Hk. split.
  - pose proof (window_bound E L C addr arrivals st k Hord Hk) as H.
    change limiter_max with 100 in H. destruct (k =? 0)%Z; lia.
  - intros now w q r Hin Hover. subst r.
    destruct (limiter_accounting E L C now w st q) as [(Hno & _)|(_ & _ & _ & Hresp)].
    + contradiction.
    + unfold counted, incr in Hresp. cbn [fst] in Hresp.
      fold (hits_of (advance now st) (ip w)) in Hresp.
      destruct (limiter_max <? S (hits_of (advance now st) (ip w)))%nat eqn:Hcmp.
      * destruct Hresp as [-> ->]. auto.
      * apply Nat.ltb_ge in Hcmp. change limiter_max with 100 in Hcmp. lia.
Qed.

Lemma C4_quota_per_window_witness :
  let arrivals := burst 3 5 (get "/api/v1/tours" None client) in
  in_order (resetTime fresh_store - limiter_windowMs) arrivals
  /\ (0 <= 0)%Z
  /\ (passed_in client (resetTime fresh_store + (0 - 1) * limiter_windowMs)
                       (resetTime fresh_store + 0 * limiter_windowMs)
                       (serve_all production lenient bare fresh_store arrivals) <= 100)%nat.
Proof.
  split; [|split].
  - vm_compute. repeat split; discriminate.
  - lia.
  - apply (C4_quota_per_window production lenient bare fresh_store
             (burst 3 5 (get "/api/v1/tours" None client)) client 0).
    + vm_compute. repeat split; discriminate.
    + lia.
Defined.

(** C4 as stated fails: 200 requests of one client, 100 in the last
    millisecond of a window and 100 in the first of the next, all go past
    the limiter, within one rolling hour. *)
Lemma C4_rolling_hour_exceeded :
  let w := get "/api/v1/tours" None client in
  let arrivals := (burst 100 (limiter_windowMs - 1) w ++ burst 100 limiter_windowMs w)%list in
  let served := serve_all production lenient bare fresh_store arrivals in
  passed_in client (limiter_windowMs - 1) (limiter_windowMs - 1 + limiter_windowMs) served
  = 200.
Proof. vm_compute. reflexivity. Qed.

(** ** C5: the parameter-pollution guard *)

Lemma put_back_lookup wl : forall pp k,
  fst (put_back wl pp) !! k
  = match snd pp !! k with
    | Some v => if decide (k ∈ wl) then Some v else fst pp !! k
    | None => fst pp !! k
    end.
Proof.
  unfold put_back. induction wl as [|w wl IH]; intros [p q] k; cbn [foldl fst snd].
  - destruct (q !! k); [|reflexivity]. destruct (decide (k ∈ [])) as [H|_]; [|reflexivity].
    apply elem_of_nil in H. contradiction.
  - rewrite IH. destruct (q !! w) as [v0|] eqn:Hw; cbn [fst snd].
    + destruct (decide (k = w)) as [->|Hne].
      * rewrite lookup_delete_eq, lookup_insert_eq, Hw.
        destruct (decide (w ∈ w :: wl)) as [_|H]; [reflexivity|].
        exfalso. apply H, elem_of_cons. auto.
      * rewrite lookup_delete_ne, lookup_insert_ne by congruence.
        destruct (q !! k); [|reflexivity].
        destruct (decide (k ∈ wl)), (decide (k ∈ w :: wl)) as [H|H]; try reflexivity.
        -- exfalso. apply H, elem_of_cons. auto.
        -- apply elem_of_cons in H as [?|?]; contradiction.
    + destruct (q !! k) as [v|] eqn:Hk; [|reflexivity].
      destruct (decide (k ∈ wl)), (decide (k ∈ w :: wl)) as [H|H]; try reflexivity.
      * exfalso. apply H, elem_of_cons. auto.
      * apply elem_of_cons in H as [->|?]; [congruence|contradiction].
Qed.











Lemma hpp_query wl r :
  exists p, hpp wl r = Next p
            /\ query p = fst (hpp_object wl (query (props r)) (queryPolluted (props r))).
Proof.
  unfold hpp. cbn [body set_query].
  destruct (body (props r)); try (eexists; split; reflexivity).
  destruct (type_is _ _); eexists; split; reflexivity.
Qed.




(** ** C6: the example request of the specification *)

(** C6, as amended: for GET
    /api/v1/tours?price[gte]=100&price[lte]=500&difficulty=easy&difficulty=hard
    the guard leaves [price] as the range structure {gte: 100, lte: 500}
    and, [difficulty] being whitelisted, leaves [difficulty] as the array
    of both values, easy and hard. *)
Theorem C6_example_request :
  originalUrl tours_wire
  = "/api/v1/tours?price[gte]=100&price[lte]=500&difficulty=easy&difficulty=hard"
  /\ exists q p,
      qs_parse tours_params = Some q
      /\ hpp whitelist (incoming tours_wire q) = Next p
      /\ query p !! "price" = Some (VObj {[ "gte" := VStr "100"; "lte" := VStr "500" ]})
      /\ query p !! "difficulty" = Some (VArr [VStr "easy"; VStr "hard"]).
Proof.
  split; [reflexivity|].
  exists (default ∅ (qs_parse tours_params)).
  destruct (hpp_query whitelist (incoming tours_wire (default ∅ (qs_parse tours_params))))
    as (p & Hp & Hq).
  exists p. split; [vm_compute; reflexivity|]. split; [exact Hp|].
  rewrite Hq. split; vm_compute; reflexivity.
Qed.

(** C6 as stated fails: served through the whole pipeline, the example
    request reaches the tour router with [difficulty] still holding both
    values; it has not collapsed to the single value hard. *)
Lemma C6_difficulty_not_collapsed :
  let r := serve production lenient bare 0 fresh_store tours_wire
             (default ∅ (qs_parse tours_params)) in
  (fun sp => query (snd sp) !! "difficulty")
    <$> filter (fun sp => fst sp = TourRouter) (calls r)
  = [Some (VArr [VStr "easy"; VStr "hard"])].
Proof. vm_compute. reflexivity. Qed.

(** ** C8: the catch-all route *)

Lemma string_app_assoc (a b c : string) : (a ++ b) ++ c = a ++ b ++ c.
Proof.
  induction a as [|x a IH]; [reflexivity|].
  change (String x ((a ++ b) ++ c) = String x (a ++ b ++ c)). rewrite IH. reflexivity.
Qed.

Lemma no_catch_all_upstream E : Forall (fun l => CatchAll ∉ stages_of l) (upstream E).
Proof.
  unfold upstream, before_limiter. destruct (development E);
    apply (bool_decide_unpack _); vm_compute; exact I.
Qed.

Lemma not_found_answer E m :
  globalErrorHandler E (AppError m 404)
  = {| statusCode := 404;
       content := ErrorJson ClientFault m
                    (if development E then Some (AppError m 404) else None) |}.
Proof. unfold globalErrorHandler. destruct (development E); reflexivity. Qed.

(** C8, as amended: every request that reaches the catch-all route, that
    is, every request that no earlier stage of the pipeline answered or
    failed and that no router handled, is turned by it into an operational
    404 fault whose message contains the requested path; the fault goes to
    the error handler and the request is answered with status 404 and that
    message. *)
Theorem C8_unmatched_is_404 (E : Env) (L : Library) (C : Collaborators) (now : Z)
    (st : AppState) (w : Wire) (q : gmap string Value) :
  let r := serve E L C now st w q in
  CatchAll ∈ stages r ->
  exists f,
    fault r = Some (CatchAll, f)
    /\ code f = 404 /\ isOperational f = true
    /\ message f = "Can't find " ++ originalUrl w ++ " on this server!"
    /\ contains (path w) (message f)
    /\ responder r = GlobalErrorHandler
    /\ statusCode (response r) = 404
    /\ exists detail, content (response r) = ErrorJson ClientFault (message f) detail.
Proof.
  intros r. subst r. unfold serve, stages, finish.
  cbn [calls fault responder response].
  rewrite app_upstream, handle_app, last_resort_run.
  set (y := handle E L C now w (upstream E) (start st w q)).
  assert (CatchAll ∉ fst <$> trace y) as Hno.
  { intros H. apply (uncalled E L C now w) in H; [|apply no_catch_all_upstream].
    simpl in H. apply elem_of_nil in H. exact H. }
  destruct (phase y) eqn:Hp.
  - intros _. cbn [phase thrown].
    exists (AppError ("Can't find " ++ originalUrl w ++ " on this server!") 404).
    rewrite not_found_answer. cbn [code isOperational message AppError statusCode content].
    repeat split; try reflexivity.
    + unfold contains, originalUrl. exists "Can't find ".
      destruct (search w) as [qs|].
      * exists ("?" ++ qs ++ " on this server!"). rewrite !string_app_assoc. reflexivity.
      * exists " on this server!". reflexivity.
    + eauto.
  - unfold answered. cbn [trace]. rewrite fmap_app, elem_of_app. intros [H|H].
    + contradiction.
    + simpl in H. apply list_elem_of_singleton in H. discriminate.
  - rewrite Hp. intros H. contradiction.
Qed.

(** C8 as stated fails: the 101st request of a client for a path under
    /api that matches no route is answered 429 by the rate limiter; the
    catch-all route is not reached. *)
Lemma C8_unmatched_but_rate_limited :
  let w := get "/api/v2/nothing" None client in
  let served := serve_all production lenient bare fresh_store (burst 101 0 w) in
  (fun ar => (statusCode (response (snd ar)), stages (snd ar))) <$> (served !! 100%nat)
  = Some (429, [Cors; Static; Helmet; Limiter]).
Proof. vm_compute. reflexivity. Qed.

Lemma C8_unmatched_is_404_witness :
  let r := serve production lenient bare 0 fresh_store (get "/nothing" None client) ∅ in
  CatchAll ∈ stages r
  /\ exists f,
      fault r = Some (CatchAll, f)
      /\ code f = 404 /\ isOperational f = true
      /\ message f = "Can't find " ++ originalUrl (get "/nothing" None client) ++ " on this server!"
      /\ contains (path (get "/nothing" None client)) (message f)
      /\ responder r = GlobalErrorHandler
      /\ statusCode (response r) = 404
      /\ exists detail, content (response r) = ErrorJson ClientFault (message f) detail.
Proof.
  assert (CatchAll ∈ stages (serve production lenient bare 0 fresh_store
                               (get "/nothing" None client) ∅)) as H.
  { apply (bool_decide_unpack _). vm_compute. exact I. }
  split; [exact H|].
  exact (C8_unmatched_is_404 production lenient bare 0 fresh_store
           (get "/nothing" None client) ∅ H).
Defined.

(** ** Stepping through the layers *)

Section Steps.
Context (E : Env) (L : Library) (C : Collaborators) (now : Z) (w : Wire).

Local Abbreviation step := (step_layer E L C now w).
Local Abbreviation handle' := (handle E L C now w).

Lemma step_skip x l : matches w l = false -> step x l = x.
Proof.
  unfold step_layer, matches. intros H.
  destruct (phase x), l; try reflexivity; rewrite H; reflexivity.
Qed.

Lemma step_use x p m s :
  phase x = Running p -> under_mount m (path w) = true ->
  step x (Use m s) = call E L C now w s x p.
Proof. intros Hp Hm. unfold step_layer. rewrite Hp, Hm. reflexivity. Qed.

Lemma step_failed x p f l :
  phase x = Failed p f -> is_error_layer l = false -> step x l = x.
Proof. intros Hp Hl. unfold step_layer. rewrite Hp. destruct l; [reflexivity..|discriminate]. Qed.

Lemma call_next s x p p' :
  run_stage E L C now s (store x) {| wire := w; props := p |} = (Next p', store x) ->
  call E L C now w s x p
  = {| phase := Running p'; store := store x; trace := trace x ++ [(s, p)];
       thrown := thrown x |}.
Proof. intros H. unfold call. rewrite H. reflexivity. Qed.

Lemma call_throw s x p f :
  run_stage E L C now s (store x) {| wire := w; props := p |} = (Throw f, store x) ->
  call E L C now w s x p
  = {| phase := Failed p f; store := store x; trace := trace x ++ [(s, p)];
       thrown := Some (s, f) |}.
Proof. intros H. unfold call. rewrite H. reflexivity. Qed.

(** A request that is neither a pre-flight nor a GET or HEAD, and whose
    path is not under /api, goes through the first layers untouched. *)
Lemma front_passes st q :
  method w <> OPTIONS -> method w <> GET -> method w <> HEAD ->
  under_mount "/api" (path w) = false ->
  handle' (front E) (start st w q)
  = {| phase := Running (props (incoming w q)); store := st;
       trace := front_calls E (props (incoming w q)); thrown := None |}.
Proof.
  intros Ho Hg Hh Hapi.
  assert (cors {| wire := w; props := props (incoming w q) |}
          = Next (props (incoming w q))) as Hcors.
  { unfold cors. cbn [wire]. rewrite bool_decide_eq_false_2 by exact Ho. reflexivity. }
  assert (serve_static E {| wire := w; props := props (incoming w q) |}
          = Next (props (incoming w q))) as Hstatic.
  { unfold serve_static. cbn [wire]. destruct (method w); try reflexivity; contradiction. }
  assert (handles_method (Some OPTIONS) (method w) = false) as Hopt.
  { unfold handles_method. destruct (method w); try reflexivity; contradiction. }
  unfold front, before_limiter, front_calls, start.
  destruct (development E); cbn [List.app];
    repeat (rewrite handle_cons;
            first [ erewrite step_use by reflexivity;
                    erewrite call_next
                      by (unfold run_stage, ok; cbn [store]; rewrite ?Hcors, ?Hstatic; reflexivity)
                  | rewrite step_skip
                      by (cbn [matches]; rewrite ?Hopt, ?Hapi; reflexivity) ]);
    reflexivity.
Qed.
End Steps.

(** ** C3: the raw body of the webhook route *)

Lemma app_front E : app E = (front E ++ [webhook_route] ++ after_webhook)%list.
Proof. unfold app, front, before_limiter. destruct (development E); reflexivity. Qed.

Lemma webhook_not_api p :
  route_match "/webhook-checkout" p = true -> under_mount "/api" p = false.
Proof.
  unfold route_match, under_mount.
  change (String.eqb "/webhook-checkout" "*") with false.
  change (String.eqb "/api" "/") with false. cbv iota.
  change (lower "/webhook-checkout") with "/webhook-checkout".
  change (lower "/api") with "/api".
  destruct (lower p) as [|c1 [|c2 rest]]; cbn [rest_after]; try discriminate.
  - destruct (Ascii.eqb "/" c1); discriminate.
  - destruct (Ascii.eqb "/" c1); [|discriminate].
    destruct (Ascii.eqb "w" c2) eqn:Hw; [|discriminate].
    apply Ascii.eqb_eq in Hw. subst c2. reflexivity.
Qed.

Lemma read_identity w limit :
  contentEncoding w = Identity ->
  (N.of_nat (length (payload w)) <= limit)%N ->
  read_body w limit = inr (payload w).
Proof.
  intros He Hl. unfold read_body. rewrite He.
  destruct (limit <? N.of_nat (length (payload w)))%N eqn:H; [|reflexivity].
  apply N.ltb_lt in H. lia.
Qed.


(** With a charset that can be decoded, reading the text is reading the
    bytes. *)
Lemma read_text_known known cs w limit :
  known cs = true -> read_text known cs w limit = read_body w limit.
Proof.
  intros Hk. unfold read_text. rewrite Hk.
  destruct (contentEncoding w); [destruct (read_body w limit)|..]; reflexivity.
Qed.


(** What is read is within the limit, and in a charset that can be
    decoded. *)
Lemma read_text_read known cs w limit data :
  contentEncoding w = Identity -> read_text known cs w limit = inr data ->
  data = payload w /\ (N.of_nat (length (payload w)) <= limit)%N /\ known cs = true.
Proof.
  intros He. unfold read_text, read_body. rewrite He.
  destruct (limit <? N.of_nat (length (payload w)))%N eqn:Hl; [discriminate|].
  apply N.ltb_ge in Hl. destruct (known cs); [|discriminate].
  intros H. injection H as <-. auto.
Qed.

(** [express.raw] on a request that declares JSON, is not encoded and stays
    within 100kb: [req.body] becomes the buffer of the bytes sent. *)
Lemma raw_body_reads w q :
  hasBody w = true -> contentType w = Some "application/json" ->
  contentEncoding w = Identity ->
  (N.of_nat (length (payload w)) <= kb 100)%N ->
  raw_body {| wire := w; props := props (incoming w q) |}
  = Next (set_body (Buffer (payload w)) true
            (set_body (Fields ∅) false (props (incoming w q)))).
Proof.
  intros Hb Ht He Hl. unfold raw_body, body_parser, type_is.
  cbn [incoming wire props body_read body]. rewrite Hb, Ht.
  change (String.eqb "application/json" "application/json") with true.
  cbn [negb]. rewrite read_text_known by reflexivity.
  rewrite (read_identity w (kb 100) He Hl). reflexivity.
Qed.

Lemma no_webhook_below :
  Forall (fun l => WebhookCheckout ∉ stages_of l) after_webhook.
Proof. apply (bool_decide_unpack _). vm_compute. exact I. Qed.

(** C3, as amended: for every POST request to /webhook-checkout that
    carries a body declared as application/json, sent without content
    encoding and at most 100kb long, the handler receives as [req.body] the
    buffer of exactly the bytes the client sent.  The functions called
    before it are the CORS, static, helmet and logging middleware and the
    raw-body parser: neither generic body parser runs on the way, so the
    10kb limit of the JSON parser plays no part; the handler is called
    once. *)
Theorem C3_webhook_raw_body (E : Env) (L : Library) (C : Collaborators) (now : Z)
    (st : AppState) (w : Wire) (q : gmap string Value) :
  method w = POST ->
  route_match "/webhook-checkout" (path w) = true ->
  hasBody w = true ->
  contentType w = Some "application/json" ->
  contentEncoding w = Identity ->
  (N.of_nat (length (payload w)) <= 100 * 1024)%N ->
  let r := serve E L C now st w q in
  let p0 := props (incoming w q) in
  exists seen rest,
    calls r = (front_calls E p0 ++ [(RawBody, p0); (WebhookCheckout, seen)] ++ rest)%list
    /\ body seen = Buffer (payload w)
    /\ WebhookCheckout ∉ fst <$> rest.
Proof.
  intros Hm Hroute Hb Ht He Hl r p0. subst r p0.
  unfold serve, finish. cbn [calls].
  rewrite app_front, !handle_app.
  rewrite front_passes;
    [|rewrite Hm; discriminate..|apply webhook_not_api, Hroute].
  set (p0 := props (incoming w q)).
  set (seen := set_body (Buffer (payload w)) true (set_body (Fields ∅) false p0)).
  set (y2 := {| phase := Running p0; store := st; trace := front_calls E p0; thrown := None |}).
  assert (exists ph th,
             handle E L C now w [webhook_route] y2
             = {| phase := ph; store := st;
                  trace := (front_calls E p0 ++ [(RawBody, p0); (WebhookCheckout, seen)])%list;
                  thrown := th |}) as (ph & th & Hy3).
  { unfold handle, webhook_route. cbn [foldl]. unfold step_layer. cbn [phase y2].
    rewrite Hm, Hroute. cbn [handles_method andb orb bool_decide decide_rel].
    change (handles_method (Some POST) POST && true) with true. cbv iota.
    cbn [run_route phase y2].
    rewrite (call_next E L C now w RawBody y2 p0 seen)
      by (cbn [run_stage store y2]; subst p0 seen; rewrite (raw_body_reads w q Hb Ht He Hl);
          reflexivity).
    cbn [phase]. unfold call. cbn [store trace thrown].
    match goal with
    | |- context [run_stage E L C now WebhookCheckout ?s0 ?r0] =>
        destruct (run_stage E L C now WebhookCheckout s0 r0) as [o st'] eqn:Hrun
    end.
    cbn [run_stage] in Hrun. injection Hrun as _ <-.
    rewrite <- app_assoc. eauto. }
  rewrite Hy3.
  match goal with |- context [handle E L C now w after_webhook ?y] => set (y3 := y) end.
  destruct (handle_trace E L C now w after_webhook y3) as (extra & -> & Hall).
  exists seen, extra. subst y3. cbn [trace]. split; [rewrite <- app_assoc; reflexivity|].
  split; [reflexivity|].
  intros Hin. apply list_elem_of_fmap in Hin as (sp & Hs & Hin).
  destruct (proj1 (Forall_forall _ _) Hall sp Hin) as (l & Hl' & Hsl & _).
  apply (proj1 (Forall_forall _ _) no_webhook_below l Hl'). rewrite Hs. exact Hsl.
Qed.

Lemma C3_webhook_raw_body_witness :
  method delivery = POST
  /\ route_match "/webhook-checkout" (path delivery) = true
  /\ hasBody delivery = true
  /\ contentType delivery = Some "application/json"
  /\ contentEncoding delivery = Identity
  /\ (N.of_nat (length (payload delivery)) <= 100 * 1024)%N
  /\ let r := serve production lenient bare 0 fresh_store delivery ∅ in
     let p0 := props (incoming delivery ∅) in
     exists seen rest,
       calls r = (front_calls production p0
                  ++ [(RawBody, p0); (WebhookCheckout, seen)] ++ rest)%list
       /\ body seen = Buffer (payload delivery)
       /\ WebhookCheckout ∉ fst <$> rest.
Proof.
  assert (N.of_nat (length (payload delivery)) <= 100 * 1024)%N as Hl
    by (vm_compute; discriminate).
  repeat (split; [reflexivity|]). split; [exact Hl|].
  exact (C3_webhook_raw_body production lenient bare 0 fresh_store delivery ∅
           eq_refl eq_refl eq_refl eq_refl eq_refl Hl).
Defined.

(** C3 as stated fails: a POST to /webhook-checkout whose body is not
    declared as application/json is not read by the raw parser; the handler
    receives the empty object, not the bytes sent. *)
Lemma C3_plain_text_is_not_raw :
  let r := serve production lenient bare 0 fresh_store plain_delivery ∅ in
  payload plain_delivery = [x7b; x7d]
  /\ (fun sp => (fst sp, body (snd sp))) <$> calls r
     = [ (Cors, NoBody); (Static, NoBody); (Helmet, NoBody); (RawBody, NoBody);
         (WebhookCheckout, Fields ∅) ].
Proof. split; [reflexivity|]. vm_compute. reflexivity. Qed.

(** ** C7: the size limit of the generic body parsers *)

Lemma front_stage E :
  Forall (fun l => Forall (fun s => s ∈ front_stages) (stages_of l)) (front E).
Proof.
  unfold front, before_limiter. destruct (development E);
    apply (bool_decide_unpack _); vm_compute; exact I.
Qed.

Section Front.
Context (E : Env) (L : Library) (C : Collaborators) (now : Z) (w : Wire).

Lemma front_stage_keeps s st r p' st' :
  s ∈ front_stages ->
  run_stage E L C now s st r = (Next p', st') -> p' = props r.
Proof.
  intros Hs H. unfold front_stages in Hs.
  repeat (apply elem_of_cons in Hs as [->|Hs]);
    [..|apply elem_of_nil in Hs; contradiction]; cbn [run_stage] in H; unfold ok in H.
  - unfold cors in H. destruct (bool_decide _); congruence.
  - unfold cors in H. destruct (bool_decide _); congruence.
  - unfold serve_static in H.
    destruct (method (wire r)); try congruence;
      destruct (public E (path (wire r))); try congruence;
      destruct (has_trailing_slash (path (wire r))); try congruence;
      destruct (public E (path (wire r) ++ "index.html")); congruence.
  - congruence.
  - congruence.
  - unfold limiter in H. destruct (incr _ _). destruct (_ <? _)%nat; congruence.
Qed.

(** The layers up to the rate limiter do not touch the request and raise
    no fault that they let through. *)
Lemma front_keeps st q p :
  phase (handle E L C now w (front E) (start st w q)) = Running p ->
  p = props (incoming w q)
  /\ thrown (handle E L C now w (front E) (start st w q)) = None.
Proof.
  revert p.
  apply (layers_inv E L C now w
           (fun y => forall p, phase y = Running p ->
                               p = props (incoming w q) /\ thrown y = None)).
  - intros y s p l Hy Hp Hl _ Hs p'. unfold call.
    destruct (run_stage _ _ _ _ _ _ _) as [[p''|f|resp] st'] eqn:Hrun; cbn [phase thrown];
      try discriminate.
    intros Heq. injection Heq as <-.
    destruct (Hy p Hp) as [-> Hth]. split; [|exact Hth].
    eapply (front_stage_keeps s _ {| wire := w; props := props (incoming w q) |});
      [|exact Hrun].
    pose proof (proj1 (Forall_forall _ _) (front_stage E) l Hl) as Hfs.
    exact (proj1 (Forall_forall _ _) Hfs s Hs).
  - intros y s p f m _ _ _ _ p'. discriminate.
  - intros p Hp. injection Hp as <-. auto.
Qed.

Lemma front_called st q :
  Forall (fun sp => fst sp ∈ front_stages)
         (trace (handle E L C now w (front E) (start st w q))).
Proof.
  destruct (handle_trace E L C now w (front E) (start st w q)) as (extra & -> & Hall).
  cbn [trace start List.app]. eapply Forall_impl; [exact Hall|].
  intros sp (l & Hl & Hs & _).
  pose proof (proj1 (Forall_forall _ _) (front_stage E) l Hl) as Hfs.
  exact (proj1 (Forall_forall _ _) Hfs _ Hs).
Qed.

(** Below the body parsers a failed request only meets the error handler. *)
Lemma below_parsers_failed x p f :
  phase x = Failed p f ->
  handle E L C now w below_parsers x = answered E GlobalErrorHandler p f x.
Proof.
  intros Hp. unfold below_parsers, sanitizers, guards_and_routers, last_resort.
  cbn [List.app].
  repeat (rewrite handle_cons; rewrite (step_failed E L C now w x p f) by (exact Hp || reflexivity)).
  rewrite handle_cons. unfold step_layer. rewrite Hp.
  change (under_mount "/" (path w)) with true. reflexivity.
Qed.



End Front.

Lemma error_layer_below m s : UseError m s ∈ after_webhook -> s = GlobalErrorHandler.
Proof.
  unfold after_webhook, body_parsers, sanitizers, guards_and_routers, last_resort.
  cbn [List.app]. intros H.
  repeat (apply elem_of_cons in H as [H|H]; [try discriminate; try (injection H as _ <-; reflexivity)|]).
  apply elem_of_nil in H. contradiction.
Qed.

Lemma front_stage_plain s :
  s ∈ front_stages -> is_resource_handler s = false /\ s <> CatchAll /\ s <> JsonParser.
Proof.
  unfold front_stages. intros Hs.
  repeat (apply elem_of_cons in Hs as [->|Hs]; [repeat split; discriminate|]).
  apply elem_of_nil in Hs. contradiction.
Qed.



(** ** C10: the sanitisers and the webhook route *)

Lemma app_sanitizers E :
  app E = (above_sanitizers E ++ sanitizers ++ below_sanitizers)%list.
Proof.
  unfold app, above_sanitizers, front, before_limiter.
  destruct (development E); reflexivity.
Qed.

Lemma routers_below E s :
  is_router s = true ->
  Forall (fun l => s ∉ stages_of l) (above_sanitizers E ++ sanitizers).
Proof.
  unfold above_sanitizers, front, before_limiter.
  destruct s; try discriminate; intros _; destruct (development E);
    apply (bool_decide_unpack _); vm_compute; exact I.
Qed.

Lemma no_sanitizer_above E :
  Forall (fun l => (MongoSanitize ∉ stages_of l) /\ (Xss ∉ stages_of l))
         (front E ++ [webhook_route]).
Proof.
  unfold front, before_limiter. destruct (development E);
    apply (bool_decide_unpack _); vm_compute; exact I.
Qed.

Lemma error_layer_below_sanitizers m s :
  UseError m s ∈ below_sanitizers -> s = GlobalErrorHandler.
Proof.
  unfold below_sanitizers, guards_and_routers, last_resort.
  cbn [List.app]. intros H.
  repeat (apply elem_of_cons in H as [H|H]; [try discriminate; try (injection H as _ <-; reflexivity)|]).
  apply elem_of_nil in H. contradiction.
Qed.

Section Sanitizing.
Context (E : Env) (L : Library) (C : Collaborators) (now : Z) (w : Wire).

Lemma sanitize_next f g r : exists p, sanitize f g r = Next p.
Proof. unfold sanitize. eexists. reflexivity. Qed.

(** The two sanitisers run, one after the other, on every request that
    reaches them. *)
Lemma sanitizers_run x p :
  phase x = Running p ->
  exists p1 p2,
    handle E L C now w sanitizers x
    = {| phase := Running p2; store := store x;
         trace := (trace x ++ [(MongoSanitize, p); (Xss, p1)])%list;
         thrown := thrown x |}.
Proof.
  intros Hp. unfold sanitizers. rewrite !handle_cons.
  destruct (sanitize_next (mongo_sanitize_body L) (mongo_sanitize_query L)
              {| wire := w; props := p |}) as [p1 H1].
  destruct (sanitize_next (xss_clean_body L) (xss_clean_query L)
              {| wire := w; props := p1 |}) as [p2 H2].
  exists p1, p2.
  rewrite (step_use E L C now w x p "/" MongoSanitize Hp eq_refl).
  rewrite (call_next E L C now w MongoSanitize x p p1)
    by (cbn [run_stage]; rewrite H1; reflexivity).
  erewrite (step_use E L C now w _ p1 "/" Xss) by reflexivity.
  erewrite (call_next E L C now w Xss _ p1 p2)
    by (cbn [run_stage store]; rewrite H2; reflexivity).
  cbn [store trace thrown]. rewrite <- app_assoc. reflexivity.
Qed.

(** The webhook route ends the normal course of a POST request that
    reaches it, provided its handler never calls [next()]. *)
Lemma webhook_route_ends x :
  method w = POST -> route_match "/webhook-checkout" (path w) = true ->
  (forall r p, webhookCheckout C r <> Next p) ->
  running (handle E L C now w [webhook_route] x) = false.
Proof.
  intros Hm Hroute Hterminal. unfold handle, webhook_route. cbn [foldl].
  destruct (running x) eqn:Hrun; [|apply step_not_running, Hrun].
  unfold running in Hrun. destruct (phase x) as [p| |] eqn:Hp; try discriminate.
  unfold step_layer. rewrite Hp, Hm, Hroute.
  change (handles_method (Some POST) POST && true) with true. cbv iota.
  cbn [run_route]. rewrite Hp.
  set (x1 := call E L C now w RawBody x p).
  destruct (phase x1) as [p1|p1 f|s1 r1] eqn:Hp1.
  - unfold call, running. cbn [run_stage].
    destruct (webhookCheckout C {| wire := w; props := p1 |}) as [p2|f|resp] eqn:Hh;
      [|reflexivity..].
    exfalso. exact (Hterminal _ _ Hh).
  - unfold running. rewrite Hp1. reflexivity.
  - unfold running. rewrite Hp1. reflexivity.
Qed.

End Sanitizing.

(** C10: for a POST request to /webhook-checkout, whose handler answers or
    fails but never calls [next()], neither the NoSQL-injection sanitiser
    nor the XSS sanitiser is called; and whenever a router of the
    application is called, both sanitisers were called before it, in that
    order. *)
Theorem C10_sanitizers_and_webhook (E : Env) (L : Library) (C : Collaborators) (now : Z)
    (st : AppState) (w : Wire) (q : gmap string Value) :
  let r := serve E L C now st w q in
  (method w = POST ->
   route_match "/webhook-checkout" (path w) = true ->
   (forall r' p, webhookCheckout C r' <> Next p) ->
   (MongoSanitize ∉ stages r) /\ (Xss ∉ stages r))
  /\ (forall s, is_router s = true -> s ∈ stages r ->
                called_before MongoSanitize s (stages r)
                /\ called_before Xss s (stages r)).
Proof.
  intros r. subst r. unfold serve, stages, finish. cbn [calls]. split.
  - intros Hm Hroute Hterminal.
    rewrite app_front.
    rewrite (app_assoc (front E) [webhook_route] after_webhook), handle_app.
    set (y3 := handle E L C now w (front E ++ [webhook_route]) (start st w q)).
    assert (running y3 = false) as Hstop.
    { subst y3. rewrite handle_app. apply webhook_route_ends; assumption. }
    destruct (handle_failed_trace E L C now w after_webhook y3 Hstop) as (extra & -> & Hall).
    assert (forall s, s = MongoSanitize \/ s = Xss ->
                      s ∉ fst <$> (trace y3 ++ extra)%list) as Hnone.
    { intros s Hs. rewrite fmap_app, elem_of_app. intros [Hin|Hin].
      - apply (uncalled E L C now w) in Hin.
        + simpl in Hin. apply elem_of_nil in Hin. exact Hin.
        + eapply Forall_impl; [apply no_sanitizer_above|].
          intros l [? ?]. destruct Hs as [->| ->]; assumption.
      - apply list_elem_of_fmap in Hin as (sp & Heq & Hin).
        destruct (proj1 (Forall_forall _ _) Hall sp Hin) as (m & Hmem).
        apply error_layer_below in Hmem. destruct Hs as [->| ->]; congruence. }
    split; apply Hnone; auto.
  - intros s Hrouter Hin.
    rewrite app_sanitizers, !handle_app in *.
    set (yA := handle E L C now w (above_sanitizers E) (start st w q)) in *.
    set (yS := handle E L C now w sanitizers yA) in *.
    destruct (handle_trace E L C now w below_sanitizers yS) as (extra & Htr & _).
    (* the router is called below the sanitisers *)
    assert (s ∉ fst <$> trace yS) as Hnot.
    { intros H. subst yS yA. rewrite <- handle_app in H.
      apply (uncalled E L C now w) in H; [|apply routers_below, Hrouter].
      simpl in H. apply elem_of_nil in H. exact H. }
    (* so the request was still on its normal course there *)
    assert (running yS = true) as HrunS.
    { destruct (running yS) eqn:Hr; [reflexivity|].
      destruct (handle_failed_trace E L C now w below_sanitizers yS Hr) as (extra' & Htr' & Hall).
      rewrite Htr', fmap_app, elem_of_app in Hin. destruct Hin as [Hin|Hin]; [contradiction|].
      apply list_elem_of_fmap in Hin as (sp & Heq & Hin).
      destruct (proj1 (Forall_forall _ _) Hall sp Hin) as (m & Hmem).
      apply error_layer_below_sanitizers in Hmem. rewrite <- Heq in Hmem. rewrite Hmem in Hrouter. discriminate Hrouter. }
    assert (running yA = true) as HrunA.
    { destruct (running yA) eqn:Hr; [reflexivity|].
      subst yS. rewrite (handle_not_running E L C now w sanitizers yA Hr) in HrunS. discriminate. }
    unfold running in HrunA. destruct (phase yA) as [pA| |] eqn:HpA; try discriminate.
    destruct (sanitizers_run E L C now w yA pA HpA) as (p1 & p2 & HyS). fold yS in HyS.
    rewrite Htr in Hin |- *. rewrite HyS in Hin, Hnot |- *. cbn [trace] in *.
    rewrite !fmap_app in *. cbn [fmap list_fmap fst] in *.
    rewrite elem_of_app in Hin. destruct Hin as [Hin|Hin]; [contradiction|].
    apply list_elem_of_split in Hin as (l2 & l3 & Hsplit). rewrite Hsplit.
    split.
    + exists (fst <$> trace yA), (Xss :: l2), l3.
      rewrite <- !app_assoc. reflexivity.
    + exists ((fst <$> trace yA) ++ [MongoSanitize])%list, l2, l3.
      rewrite <- !app_assoc. reflexivity.
Qed.

Lemma bare_webhook_terminal : forall r p, webhookCheckout bare r <> Next p.
Proof. intros r p. discriminate. Qed.

Lemma C10_sanitizers_and_webhook_witness :
  let r := serve production lenient bare 0 fresh_store delivery ∅ in
  let r' := serve production lenient bare 0 fresh_store
              (get "/api/v1/tours" None client) ∅ in
  method delivery = POST
  /\ route_match "/webhook-checkout" (path delivery) = true
  /\ (forall r0 p, webhookCheckout bare r0 <> Next p)
  /\ ((MongoSanitize ∉ stages r) /\ (Xss ∉ stages r))
  /\ is_router TourRouter = true
  /\ TourRouter ∈ stages r'
  /\ called_before MongoSanitize TourRouter (stages r')
  /\ called_before Xss TourRouter (stages r').
Proof.
  assert (TourRouter ∈ stages (serve production lenient bare 0 fresh_store
                                 (get "/api/v1/tours" None client) ∅)) as Hin
    by (apply (bool_decide_unpack _); vm_compute; exact I).
  split; [reflexivity|]. split; [reflexivity|]. split; [exact bare_webhook_terminal|].
  split.
  - exact (proj1 (C10_sanitizers_and_webhook production lenient bare 0 fresh_store delivery ∅)
             eq_refl eq_refl bare_webhook_terminal).
  - split; [reflexivity|]. split; [exact Hin|].
    exact (proj2 (C10_sanitizers_and_webhook production lenient bare 0 fresh_store
                    (get "/api/v1/tours" None client) ∅) TourRouter eq_refl Hin).
Defined.

(** ** C2: the process supervisor *)

Module SupervisorProperties.
Import Supervisor.

Lemma run_exited s evs : exited s <> None -> run s evs = s.
Proof.
  unfold run. revert s. induction evs as [|ev evs IH]; intros s H; [reflexivity|].
  cbn [foldl]. assert (step s ev = s) as ->; [|auto].
  unfold step. destruct (exited s); [reflexivity|contradiction].
Qed.












End SupervisorProperties.

(** * Further properties of the request pipeline *)

(** ** The first layers: CORS, pre-flight requests, static files *)

Lemma app_entry E : app E = (entry ++ behind_entry E)%list.
Proof. unfold app, entry, behind_entry, downstream. destruct (development E); reflexivity. Qed.

Lemma before_limiter_entry E :
  before_limiter E
  = (entry ++ [Use "/" Helmet] ++ (if development E then [Use "/" Morgan] else []))%list.
Proof. reflexivity. Qed.

Lemma static_only_in_entry E : Forall (fun l => Static ∉ stages_of l) (behind_entry E).
Proof.
  unfold behind_entry. destruct (development E);
    apply (bool_decide_unpack _); vm_compute; exact I.
Qed.

Lemma error_layer_behind_entry E m s : UseError m s ∈ behind_entry E -> s = GlobalErrorHandler.
Proof.
  intros H. apply (error_layer_of_app E m s). rewrite app_entry.
  apply elem_of_app. right. exact H.
Qed.

(** What static serving answers with: a file, found at the path or as the
    index of the directory that the path names with its final slash, or
    the redirect of a directory named without it. *)
Lemma serve_static_end E r resp :
  serve_static E r = End resp <->
  (method (wire r) = GET \/ method (wire r) = HEAD)
  /\ ((exists data,
         (public E (path (wire r)) = File data
          \/ (public E (path (wire r)) = Directory
              /\ has_trailing_slash (path (wire r)) = true
              /\ public E (path (wire r) ++ "index.html") = File data))
         /\ resp = {| statusCode := 200;
                      content := if bool_decide (method (wire r) = HEAD)
                                 then Empty else Bytes data |})
      \/ (public E (path (wire r)) = Directory
          /\ has_trailing_slash (path (wire r)) = false
          /\ resp = {| statusCode := 301; content := Redirect (redirect_location (wire r)) |})).
Proof.
  unfold serve_static. split.
  - destruct (method (wire r)) eqn:Hm; try discriminate;
      (destruct (public E (path (wire r))) eqn:Hp; try discriminate;
       [|destruct (has_trailing_slash (path (wire r))) eqn:Hslash;
         [destruct (public E (path (wire r) ++ "index.html")) eqn:Hi; try discriminate|]];
       intros H; injection H as <-; (split; [auto|]);
       [left; eexists; split; [left; reflexivity|reflexivity]
       |left; eexists; split; [right; auto|reflexivity]
       |right; auto]).
  - intros [[Hm|Hm] [(data & [Hp|(Hp & Hslash & Hi)] & ->)|(Hp & Hslash & ->)]];
      rewrite Hm, Hp, ?Hslash, ?Hi; reflexivity.
Qed.

Section Entry.
Context (E : Env) (L : Library) (C : Collaborators) (now : Z) (w : Wire).

Lemma call_end s x p resp :
  run_stage E L C now s (store x) {| wire := w; props := p |} = (End resp, store x) ->
  call E L C now w s x p
  = {| phase := Finished s resp; store := store x; trace := trace x ++ [(s, p)];
       thrown := thrown x |}.
Proof. intros H. unfold call. rewrite H. reflexivity. Qed.

(** How a request leaves the first three layers. *)
Lemma entry_run st q :
  let p0 := props (incoming w q) in
  handle E L C now w entry (start st w q)
  = if bool_decide (method w = OPTIONS)
    then {| phase := Finished Cors preflight_response;
            store := st; trace := [(Cors, p0)]; thrown := None |}
    else match serve_static E (incoming w q) with
         | Next _ => {| phase := Running p0; store := st;
                        trace := [(Cors, p0); (Static, p0)]; thrown := None |}
         | Throw f => {| phase := Failed p0 f; store := st;
                         trace := [(Cors, p0); (Static, p0)]; thrown := Some (Static, f) |}
         | End resp => {| phase := Finished Static resp; store := st;
                          trace := [(Cors, p0); (Static, p0)]; thrown := None |}
         end.
Proof.
  intros p0. unfold entry, start. fold p0.
  rewrite handle_cons. erewrite step_use by reflexivity.
  case_bool_decide as Hm.
  - erewrite call_end
      by (cbn [run_stage store]; unfold cors; cbn [wire];
          rewrite bool_decide_eq_true_2 by exact Hm; reflexivity).
    erewrite handle_finished by reflexivity. reflexivity.
  - erewrite call_next
      by (cbn [run_stage store]; unfold cors; cbn [wire props];
          rewrite bool_decide_eq_false_2 by exact Hm; reflexivity).
    rewrite handle_cons, step_skip.
    2:{ cbn [matches]. unfold handles_method. destruct (method w); try reflexivity. contradiction. }
    rewrite handle_cons. erewrite step_use by reflexivity.
    change (handle E L C now w [] ) with (fun x : Run => x). cbv beta.
    unfold call. cbn [run_stage store trace thrown List.app].
    change {| wire := w; props := p0 |} with (incoming w q).
    destruct (serve_static E (incoming w q)) as [p|f|resp] eqn:Hs; try reflexivity.
    assert (p = p0) as ->; [|reflexivity].
    unfold serve_static in Hs. cbn [wire props incoming] in Hs.
    destruct (method w); try (injection Hs as <-; reflexivity);
      destruct (public E (path w)); try discriminate;
      try (injection Hs as <-; reflexivity);
      destruct (has_trailing_slash (path w)); try discriminate;
      destruct (public E (path w ++ "index.html")); try discriminate;
      injection Hs as <-; reflexivity.
Qed.

(** A stage is only called through a layer of the application that
    applies to the request. *)
Lemma called_matches st q s :
  s ∈ stages (serve E L C now st w q) ->
  exists l, l ∈ app E /\ s ∈ stages_of l /\ matches w l = true.
Proof.
  unfold serve, stages, finish. cbn [calls].
  destruct (handle_trace E L C now w (app E) (start st w q)) as (extra & -> & Hall).
  cbn [start trace List.app]. intros H.
  apply list_elem_of_fmap in H as (sp & -> & Hin).
  exact (proj1 (Forall_forall _ _) Hall sp Hin).
Qed.

(** Whoever answers is a stage of a layer that applies. *)
Lemma finisher ls x s r :
  phase (handle E L C now w ls x) = Finished s r ->
  phase x = Finished s r
  \/ exists l, l ∈ ls /\ s ∈ stages_of l /\ matches w l = true.
Proof.
  revert s r.
  apply (layers_inv E L C now w
           (fun y => forall s r, phase y = Finished s r ->
                       phase x = Finished s r
                       \/ exists l, l ∈ ls /\ s ∈ stages_of l /\ matches w l = true)).
  - intros y s p l _ _ Hl Hm Hs s' r H. apply call_phase in H as ->. right. eauto.
  - intros y s p f m _ _ Hl Hm s' r H. cbn [answered phase] in H. injection H as <- _.
    right. exists (UseError m s). split; [exact Hl|]. split; [|exact Hm].
    cbn [stages_of]. apply list_elem_of_singleton. reflexivity.
  - auto.
Qed.

Lemma running_before ls x p :
  phase (handle E L C now w ls x) = Running p -> exists p', phase x = Running p'.
Proof.
  intros H. destruct (running x) eqn:Hr.
  - unfold running in Hr. destruct (phase x); try discriminate. eauto.
  - apply (handle_not_running E L C now w ls) in Hr. unfold running in Hr.
    rewrite H in Hr. discriminate.
Qed.

(** A pre-flight request stops at the CORS layer. *)
Lemma preflight_run st q :
  method w = OPTIONS ->
  handle E L C now w (app E) (start st w q)
  = {| phase := Finished Cors preflight_response; store := st;
       trace := [(Cors, props (incoming w q))]; thrown := None |}.
Proof.
  intros Hm. rewrite app_entry, handle_app, entry_run.
  rewrite bool_decide_eq_true_2 by exact Hm.
  erewrite handle_finished by reflexivity. reflexivity.
Qed.

(** A request that static serving answers goes no further. *)
Lemma static_end_run st q resp :
  method w <> OPTIONS -> serve_static E (incoming w q) = End resp ->
  handle E L C now w (app E) (start st w q)
  = {| phase := Finished Static resp; store := st;
       trace := [(Cors, props (incoming w q)); (Static, props (incoming w q))];
       thrown := None |}.
Proof.
  intros Hm Hs. rewrite app_entry, handle_app, entry_run.
  rewrite bool_decide_eq_false_2 by exact Hm. rewrite Hs.
  erewrite handle_finished by reflexivity. reflexivity.
Qed.

(** A request that is not a pre-flight and that static serving lets
    through reaches the layer of the rate limiter on its normal course,
    through the CORS layer, static serving, helmet and, in development,
    the logger. *)
Lemma before_limiter_passes st q p :
  method w <> OPTIONS -> serve_static E (incoming w q) = Next p ->
  handle E L C now w (before_limiter E) (start st w q)
  = {| phase := Running (props (incoming w q)); store := st;
       trace := front_calls E (props (incoming w q)); thrown := None |}.
Proof.
  intros Ho Hs. rewrite before_limiter_entry, handle_app, entry_run.
  rewrite bool_decide_eq_false_2 by exact Ho. rewrite Hs. unfold front_calls.
  destruct (development E); cbn [List.app];
    repeat (rewrite handle_cons; erewrite step_use by reflexivity;
            erewrite call_next by reflexivity); reflexivity.
Qed.

Lemma before_limiter_run st q p :
  phase (handle E L C now w (before_limiter E) (start st w q)) = Running p ->
  handle E L C now w (before_limiter E) (start st w q)
  = {| phase := Running (props (incoming w q)); store := st;
       trace := front_calls E (props (incoming w q)); thrown := None |}.
Proof.
  intros H. destruct (decide (method w = OPTIONS)) as [Ho|Ho].
  { revert H. rewrite before_limiter_entry, handle_app, entry_run.
    rewrite bool_decide_eq_true_2 by exact Ho.
    erewrite handle_finished by reflexivity. discriminate. }
  destruct (serve_static E (incoming w q)) as [p'|f|resp] eqn:Hs.
  - eapply before_limiter_passes; eassumption.
  - revert H. rewrite before_limiter_entry, handle_app, entry_run.
    rewrite bool_decide_eq_false_2 by exact Ho. rewrite Hs.
    intros H. apply running_before in H as [p' H]. discriminate.
  - revert H. rewrite before_limiter_entry, handle_app, entry_run.
    rewrite bool_decide_eq_false_2 by exact Ho. rewrite Hs.
    erewrite handle_finished by reflexivity. discriminate.
Qed.

End Entry.

(** X1: every OPTIONS request is answered by the [cors()] layer of line
    36, with status 204 and an empty body.  No other function is called,
    no fault is raised, and the store of the rate limiter is left as it
    was: a pre-flight request consumes no quota, also under /api. *)
Theorem X1_preflight_answered_by_cors (E : Env) (L : Library) (C : Collaborators) (now : Z)
    (st : AppState) (w : Wire) (q : gmap string Value) :
  method w = OPTIONS ->
  let r := serve E L C now st w q in
  response r = preflight_response /\ responder r = Cors /\ stages r = [Cors]
  /\ store' r = st /\ fault r = None.
Proof.
  intros Hm r. subst r. unfold serve, stages, finish.
  rewrite (preflight_run E L C now w st q Hm). cbn. auto.
Qed.

Lemma X1_preflight_answered_by_cors_witness :
  method preflight = OPTIONS
  /\ let r := serve production lenient bare 0 exhausted preflight ∅ in
     response r = preflight_response /\ responder r = Cors /\ stages r = [Cors]
     /\ store' r = exhausted /\ fault r = None.
Proof.
  split; [reflexivity|].
  exact (X1_preflight_answered_by_cors production lenient bare 0 exhausted preflight ∅ eq_refl).
Defined.

(** X2: the route [app.options('*', cors())] of line 52 is never reached:
    whatever the request, its handler is not among the functions called,
    since the [cors()] layer of line 36 has answered every OPTIONS request
    before. *)
Theorem X2_preflight_route_never_called (E : Env) (L : Library) (C : Collaborators)
    (now : Z) (st : AppState) (w : Wire) (q : gmap string Value) :
  Forall (fun s => s <> CorsPreflight) (stages (serve E L C now st w q)).
Proof.
  apply Forall_forall. intros s H ->.
  destruct (decide (method w = OPTIONS)) as [Ho|Ho].
  - unfold serve, stages, finish in H. cbn [calls] in H.
    rewrite (preflight_run E L C now w st q Ho) in H. cbn in H.
    apply list_elem_of_singleton in H. discriminate.
  - apply called_matches in H as (l & Hl & Hs & Hm).
    assert (l = Route (Some OPTIONS) "*" [CorsPreflight]) as ->.
    { unfold app in Hl. destruct (development E); cbn [List.app] in Hl;
        repeat (apply elem_of_cons in Hl as [->|Hl];
                [first [reflexivity | cbn [stages_of] in Hs;
                        repeat (apply elem_of_cons in Hs as [Hs|Hs]; [discriminate Hs|]);
                        apply elem_of_nil in Hs; contradiction]|]);
        apply elem_of_nil in Hl; contradiction. }
    cbn [matches] in Hm. unfold handles_method in Hm.
    destruct (method w); try discriminate. contradiction.
Qed.

(** X3: a GET or HEAD request for a path at which the public directory
    holds a file is answered by static serving (line 56) with a status
    below 400.  Only the CORS layer and static serving are called: the
    request meets neither the rate limiter, whose store is left as it was,
    nor a parser, nor a router; this holds for paths under /api too. *)
Theorem X3_static_file_served (E : Env) (L : Library) (C : Collaborators) (now : Z)
    (st : AppState) (w : Wire) (q : gmap string Value) (data : list byte) :
  method w = GET \/ method w = HEAD ->
  public E (path w) = File data ->
  let r := serve E L C now st w q in
  responder r = Static /\ (statusCode (response r) < 400)%nat
  /\ stages r = [Cors; Static] /\ store' r = st /\ fault r = None.
Proof.
  intros Hm Hp r. subst r. unfold serve, stages, finish.
  assert (method w <> OPTIONS) as Ho by (destruct Hm as [Hm|Hm]; rewrite Hm; discriminate).
  assert (serve_static E (incoming w q)
          = End {| statusCode := 200;
                   content := if bool_decide (method w = HEAD) then Empty else Bytes data |})
    as Hs.
  { apply serve_static_end. cbn [incoming wire]. split; [exact Hm|]. left. eauto. }
  rewrite (static_end_run E L C now w st q _ Ho Hs). cbn. repeat split. lia.
Qed.

Lemma X3_static_file_served_witness :
  let w := get "/css/style.css" None client in
  (method w = GET \/ method w = HEAD)
  /\ public with_stylesheet (path w) = File [x62; x6f; x64; x79; x7b; x7d]
  /\ let r := serve with_stylesheet lenient bare 0 exhausted w ∅ in
     responder r = Static /\ (statusCode (response r) < 400)%nat
     /\ stages r = [Cors; Static] /\ store' r = exhausted /\ fault r = None.
Proof.
  split; [left; reflexivity|]. split; [reflexivity|].
  exact (X3_static_file_served with_stylesheet lenient bare 0 exhausted
           (get "/css/style.css" None client) ∅ _ (or_introl eq_refl) eq_refl).
Defined.

(** X4: static serving answers a request exactly when the request is a
    GET or a HEAD and the public directory holds, at its path, a file, a
    directory that the path names without its final slash (the answer is
    the redirect to the slash form), or a directory that the path names
    with its final slash and that holds a file [index.html].  A request of
    any other method is never answered by it, nor is one for a directory
    named with its slash that has no such file. *)
Theorem X4_static_answers_iff (E : Env) (L : Library) (C : Collaborators) (now : Z)
    (st : AppState) (w : Wire) (q : gmap string Value) :
  responder (serve E L C now st w q) = Static
  <-> (method w = GET \/ method w = HEAD)
      /\ ((exists data, public E (path w) = File data)
          \/ (public E (path w) = Directory
              /\ (has_trailing_slash (path w) = false
                  \/ exists data, public E (path w ++ "index.html") = File data))).
Proof.
  split.
  - unfold serve, finish. cbn [responder].
    destruct (phase (handle E L C now w (app E) (start st w q))) as [| |s resp] eqn:Hp;
      try discriminate.
    intros ->. revert Hp. rewrite app_entry, handle_app. intros Hp.
    apply finisher in Hp as [Hp|(l & Hl & Hs & _)].
    + rewrite entry_run in Hp. case_bool_decide; [discriminate|].
      destruct (serve_static E (incoming w q)) as [p|f|resp'] eqn:Hst; try discriminate.
      apply serve_static_end in Hst as [Hm Hpub]. cbn [incoming wire] in Hm, Hpub.
      split; [exact Hm|].
      destruct Hpub as [(data & [Hd|(Hd & _ & Hi)] & _)|(Hd & Hslash & _)]; eauto.
    + exfalso. exact (proj1 (Forall_forall _ _) (static_only_in_entry E) l Hl Hs).
  - intros [Hm Hpub].
    assert (exists resp, serve_static E (incoming w q) = End resp) as [resp Hs].
    { destruct Hpub as [[data Hd]|[Hd Hcase]].
      - eexists. apply serve_static_end. split; [exact Hm|]. left. eauto.
      - destruct (has_trailing_slash (path w)) eqn:Hslash.
        + destruct Hcase as [Hno|[data Hi]]; [discriminate|].
          eexists. apply serve_static_end. split; [exact Hm|]. left.
          exists data. split; [right; auto|reflexivity].
        + eexists. apply serve_static_end. split; [exact Hm|]. right. auto. }
    unfold serve, finish. cbn [responder].
    erewrite static_end_run; [reflexivity| |exact Hs].
    destruct Hm as [Hm|Hm]; rewrite Hm; discriminate.
Qed.

(** ** The logger *)

Lemma morgan_layer E l : l ∈ app E -> Morgan ∈ stages_of l -> development E = true.
Proof.
  unfold app. destruct (development E); [reflexivity|]. cbn [List.app]. intros Hl Hs.
  repeat (apply elem_of_cons in Hl as [->|Hl];
          [cbn [stages_of] in Hs;
           repeat (apply elem_of_cons in Hs as [Hs|Hs]; [discriminate Hs|]);
           apply elem_of_nil in Hs; contradiction|]).
  apply elem_of_nil in Hl. contradiction.
Qed.

(** X5: the request logger (lines 62-64) is called exactly when NODE_ENV
    is 'development', the request is not a pre-flight, and static serving
    lets the request through.  In any other environment no request is
    logged. *)
Theorem X5_morgan_logs_iff (E : Env) (L : Library) (C : Collaborators) (now : Z)
    (st : AppState) (w : Wire) (q : gmap string Value) :
  Morgan ∈ stages (serve E L C now st w q)
  <-> development E = true /\ method w <> OPTIONS
      /\ exists p, serve_static E (incoming w q) = Next p.
Proof.
  split.
  - intros H. split; [|split].
    + apply called_matches in H as (l & Hl & Hs & _). eapply morgan_layer; eassumption.
    + intros Ho. unfold serve, stages, finish in H. cbn [calls] in H.
      rewrite (preflight_run E L C now w st q Ho) in H. cbn in H.
      apply list_elem_of_singleton in H. discriminate.
    + destruct (decide (method w = OPTIONS)) as [Ho|Ho].
      { exfalso. unfold serve, stages, finish in H. cbn [calls] in H.
        rewrite (preflight_run E L C now w st q Ho) in H. cbn in H.
        apply list_elem_of_singleton in H. discriminate. }
      destruct (serve_static E (incoming w q)) as [p|f|resp] eqn:Hs; [eauto| |]; exfalso.
      * unfold serve, stages, finish in H. cbn [calls] in H.
        rewrite app_entry, handle_app, entry_run in H.
        rewrite bool_decide_eq_false_2 in H by exact Ho. rewrite Hs in H.
        match type of H with
        | context [handle E L C now w (behind_entry E) ?x] =>
            destruct (handle_failed_trace E L C now w (behind_entry E) x eq_refl)
              as (extra & Ht & Hall)
        end.
        rewrite Ht in H. cbn [trace] in H. rewrite fmap_app, elem_of_app in H.
        destruct H as [H|H].
        -- cbn in H. repeat (apply elem_of_cons in H as [H|H]; [discriminate H|]).
           apply elem_of_nil in H. exact H.
        -- apply list_elem_of_fmap in H as (sp & Heq & Hin).
           destruct (proj1 (Forall_forall _ _) Hall sp Hin) as (m & Hm).
           apply error_layer_behind_entry in Hm. congruence.
      * unfold serve, stages, finish in H. cbn [calls] in H.
        rewrite (static_end_run E L C now w st q resp Ho Hs) in H. cbn in H.
        repeat (apply elem_of_cons in H as [H|H]; [discriminate H|]).
        apply elem_of_nil in H. exact H.
  - intros (Hdev & Ho & p & Hs).
    unfold serve, stages, finish. cbn [calls].
    rewrite app_entry, handle_app, entry_run.
    rewrite bool_decide_eq_false_2 by exact Ho. rewrite Hs.
    unfold behind_entry. rewrite Hdev. cbn [List.app].
    rewrite handle_cons. erewrite step_use by reflexivity.
    erewrite call_next by reflexivity.
    rewrite handle_cons. erewrite step_use by reflexivity.
    erewrite call_next by reflexivity. cbn [store trace thrown].
    match goal with
    | |- context [handle E L C now w ?ls ?x] =>
        destruct (handle_trace E L C now w ls x) as (extra & -> & _)
    end.
    cbn [trace]. rewrite !fmap_app. apply elem_of_app. left.
    apply elem_of_app. right. apply list_elem_of_singleton. reflexivity.
Qed.

(** ** The rate limiter: refusals, window resets, counting *)

(** X6: a request that the rate limiter refuses (lines 67-72) is under
    /api and stops there: the only functions called are the CORS layer,
    static serving, helmet, the logger in development, and the limiter;
    no parser, sanitiser, router or error handler is called, and no fault
    is raised. *)
Theorem X6_refused_reaches_nothing (E : Env) (L : Library) (C : Collaborators) (now : Z)
    (st : AppState) (w : Wire) (q : gmap string Value) :
  let r := serve E L C now st w q in
  responder r = Limiter ->
  under_mount "/api" (path w) = true
  /\ stages r = ([Cors; Static; Helmet] ++ (if development E then [Morgan] else [])
                 ++ [Limiter])%list
  /\ fault r = None.
Proof.
  intros r. subst r. unfold serve, stages, finish. cbn [responder calls fault].
  destruct (phase (handle E L C now w (app E) (start st w q))) as [| |s resp] eqn:Hp;
    try discriminate.
  intros ->. revert Hp. rewrite app_around_limiter, !handle_app.
  set (y1 := handle E L C now w (before_limiter E) (start st w q)).
  set (y2 := handle E L C now w [Use "/api" Limiter] y1).
  intros Hp.
  destruct (quiet E L C now w downstream y2 no_limiter_downstream) as (_ & Hph3 & _).
  pose proof (Hph3 _ Hp) as Hp2.
  rewrite (handle_finished E L C now w downstream y2 _ _ Hp2).
  destruct (quiet E L C now w (before_limiter E) (start st w q) (no_limiter_before E))
    as (_ & Hph1 & _). fold y1 in Hph1.
  assert (y2 = match phase y1 with
               | Running p => if under_mount "/api" (path w)
                              then call E L C now w Limiter y1 p else y1
               | _ => y1
               end) as Hy2 by reflexivity.
  rewrite Hy2 in Hp2 |- *. clear Hy2.
  destruct (phase y1) as [p1| |s1 r1] eqn:Hp1.
  - subst y1. rewrite (before_limiter_run E L C now w st q p1 Hp1) in *.
    destruct (under_mount "/api" (path w)); [|discriminate].
    split; [reflexivity|].
    rewrite call_trace. unfold call in Hp2 |- *.
    destruct (run_stage _ _ _ _ _ _ _) as [[?|?|?] ?];
      cbn [phase trace thrown] in Hp2 |- *; try discriminate Hp2.
    split; [|reflexivity].
    unfold front_calls; destruct (development E); reflexivity.
  - rewrite Hp1 in Hp2. discriminate.
  - rewrite Hp1 in Hp2. apply Hph1 in Hp2. discriminate.
Qed.

Lemma X6_refused_reaches_nothing_witness :
  let w := get "/api/v1/tours" None client in
  let r := serve production lenient bare 0 exhausted w ∅ in
  responder r = Limiter
  /\ under_mount "/api" (path w) = true
  /\ stages r = ([Cors; Static; Helmet] ++ (if development production then [Morgan] else [])
                 ++ [Limiter])%list
  /\ fault r = None.
Proof.
  assert (responder (serve production lenient bare 0 exhausted
                       (get "/api/v1/tours" None client) ∅) = Limiter) as H
    by (vm_compute; reflexivity).
  split; [exact H|].
  exact (X6_refused_reaches_nothing production lenient bare 0 exhausted
           (get "/api/v1/tours" None client) ∅ H).
Defined.

(** X7: a request that reaches the rate limiter once the window on record
    has ended is admitted, whatever the client had used of the previous
    window: the counters are cleared, the request is counted as the first
    of its client, and the new window ends after the request and at most
    one hour later. *)
Theorem X7_window_reset_admits (E : Env) (L : Library) (C : Collaborators) (now : Z)
    (st : AppState) (w : Wire) (q : gmap string Value) :
  let r := serve E L C now st w q in
  (resetTime st <= now)%Z ->
  Limiter ∈ stages r ->
  responder r <> Limiter
  /\ hits (store' r) = {[ ip w := 1%nat ]}
  /\ (now < resetTime (store' r) <= now + limiter_windowMs)%Z.
Proof.
  intros r Hnow Hin. subst r.
  destruct (limiter_accounting E L C now w st q) as [(Hno & _)|(_ & _ & Hst & Hresp)];
    [contradiction|].
  assert (hits (advance now st) = ∅) as Hclear.
  { unfold advance. destruct (now <? resetTime st)%Z eqn:Hlt; [|reflexivity].
    apply Z.ltb_lt in Hlt. lia. }
  unfold counted, incr in Hst, Hresp. cbn [fst snd] in Hst, Hresp.
  rewrite Hclear, lookup_empty in Hst, Hresp. cbn [default from_option id] in Hst, Hresp.
  change (limiter_max <? 1)%nat with false in Hresp. cbv iota in Hresp.
  split; [exact Hresp|]. rewrite Hst. cbn [hits resetTime].
  split; [reflexivity|].
  destruct (advance_spec now st) as (j & Hj & HR & Hwin & _); [pose proof windowMs_pos; lia|].
  lia.
Qed.

Lemma X7_window_reset_admits_witness :
  let w := get "/api/v1/tours" None client in
  let r := serve production lenient bare limiter_windowMs exhausted w ∅ in
  (resetTime exhausted <= limiter_windowMs)%Z
  /\ Limiter ∈ stages r
  /\ responder r <> Limiter
  /\ hits (store' r) = {[ ip w := 1%nat ]}
  /\ (limiter_windowMs < resetTime (store' r) <= limiter_windowMs + limiter_windowMs)%Z.
Proof.
  assert (Limiter ∈ stages (serve production lenient bare limiter_windowMs exhausted
                              (get "/api/v1/tours" None client) ∅)) as H
    by (apply (bool_decide_unpack _); vm_compute; exact I).
  assert (resetTime exhausted <= limiter_windowMs)%Z as Ht
    by (unfold exhausted, limiter_windowMs; cbn [resetTime]; lia).
  split; [exact Ht|]. split; [exact H|].
  exact (X7_window_reset_admits production lenient bare limiter_windowMs exhausted
           (get "/api/v1/tours" None client) ∅ Ht H).
Defined.

(** X8: within a window, every request that reaches the rate limiter,
    admitted or refused, adds one to the count of its client and leaves
    the counts of the other clients and the end of the window as they
    were; it is refused exactly when its client had already 100 requests
    counted. *)
Theorem X8_limiter_counts_per_client (E : Env) (L : Library) (C : Collaborators) (now : Z)
    (st : AppState) (w : Wire) (q : gmap string Value) :
  let r := serve E L C now st w q in
  (now < resetTime st)%Z ->
  Limiter ∈ stages r ->
  resetTime (store' r) = resetTime st
  /\ hits_of (store' r) (ip w) = S (hits_of st (ip w))
  /\ (forall addr, addr <> ip w -> hits_of (store' r) addr = hits_of st addr)
  /\ (responder r = Limiter <-> (100 <= hits_of st (ip w))%nat).
Proof.
  intros r Hnow Hin. subst r.
  destruct (limiter_accounting E L C now w st q) as [(Hno & _)|(_ & _ & Hst & Hresp)];
    [contradiction|].
  assert (advance now st = st) as Hsame.
  { unfold advance. apply Z.ltb_lt in Hnow. rewrite Hnow. reflexivity. }
  unfold counted, incr in Hst, Hresp. cbn [fst snd] in Hst, Hresp. rewrite Hsame in Hst, Hresp.
  rewrite Hst. unfold hits_of in *. cbn [hits resetTime].
  split; [reflexivity|]. split; [|split].
  - rewrite lookup_insert_eq. reflexivity.
  - intros addr Hne. rewrite lookup_insert_ne by congruence. reflexivity.
  - change 100%nat with limiter_max.
    destruct (limiter_max <? S (default 0 (hits st !! ip w)))%nat eqn:Hcmp.
    + apply Nat.ltb_lt in Hcmp. destruct Hresp as [Hr _]. split; [lia|auto].
    + apply Nat.ltb_ge in Hcmp. split; [contradiction|lia].
Qed.

Lemma X8_limiter_counts_per_client_witness :
  let w := get "/api/v1/tours" None "203.0.113.7" in
  let r := serve production lenient bare 0 exhausted w ∅ in
  (0 < resetTime exhausted)%Z
  /\ Limiter ∈ stages r
  /\ resetTime (store' r) = resetTime exhausted
  /\ hits_of (store' r) (ip w) = S (hits_of exhausted (ip w))
  /\ (forall addr, addr <> ip w -> hits_of (store' r) addr = hits_of exhausted addr)
  /\ (responder r = Limiter <-> (100 <= hits_of exhausted (ip w))%nat).
Proof.
  assert (Limiter ∈ stages (serve production lenient bare 0 exhausted
                              (get "/api/v1/tours" None "203.0.113.7") ∅)) as H
    by (apply (bool_decide_unpack _); vm_compute; exact I).
  assert (0 < resetTime exhausted)%Z as Ht
    by (unfold exhausted, limiter_windowMs; cbn [resetTime]; lia).
  split; [exact Ht|]. split; [exact H|].
  exact (X8_limiter_counts_per_client production lenient bare 0 exhausted
           (get "/api/v1/tours" None "203.0.113.7") ∅ Ht H).
Defined.

(** ** The generic body parsers *)

Lemma app_cookies E :
  app E = (above_cookies E ++ [Use "/" CookieParser]
           ++ (request_guards ++ [Use "/" ViewRouter] ++ api_layers ++ last_resort))%list.
Proof.
  unfold app, above_cookies, front, before_limiter. destruct (development E); reflexivity.
Qed.

Lemma cookie_parser_once E :
  Forall (fun l => CookieParser ∉ stages_of l) (above_cookies E)
  /\ Forall (fun l => CookieParser ∉ stages_of l)
            (request_guards ++ [Use "/" ViewRouter] ++ api_layers ++ last_resort).
Proof.
  unfold above_cookies, front, before_limiter.
  split; [destruct (development E)|]; apply (bool_decide_unpack _); vm_compute; exact I.
Qed.

(** What the three parsers of [app.js] build is never [undefined]. *)
Lemma body_parser_defines media cs known limit parse r p' :
  (forall d b, parse d = inr b -> b <> NoBody) ->
  body_parser media cs known limit parse r = Next p' ->
  body_read (props r) = false \/ body (props r) <> NoBody ->
  body p' <> NoBody.
Proof.
  intros Hparse. unfold body_parser.
  destruct (body_read (props r)) eqn:Hr.
  - intros H [?|Hb]; [discriminate|]. injection H as <-. exact Hb.
  - intros H _.
    assert (body (set_body (match body (props r) with NoBody => Fields ∅ | b => b end)
                           false (props r)) <> NoBody) as H1.
    { cbn [body set_body]. destruct (body (props r)); discriminate. }
    destruct (negb (hasBody (wire r))); [injection H as <-; exact H1|].
    destruct (negb (type_is (wire r) media)); [injection H as <-; exact H1|].
    destruct (negb (cs _)); [discriminate|].
    destruct (read_text known _ (wire r) limit) as [f|data]; [discriminate|].
    destruct (parse data) as [f|b] eqn:Hp; [discriminate|].
    injection H as <-. cbn [body set_body]. eapply Hparse, Hp.
Qed.

Lemma json_parser_defines L r p' :
  json_parser L r = Next p' ->
  body_read (props r) = false \/ body (props r) <> NoBody -> body p' <> NoBody.
Proof.
  apply body_parser_defines. intros [|b0 d] b H.
  - injection H as <-. discriminate.
  - destruct (json_check L (b0 :: d)); [discriminate|]. injection H as <-. discriminate.
Qed.

Lemma urlencoded_parser_defines L r p' :
  urlencoded_parser L r = Next p' ->
  body_read (props r) = false \/ body (props r) <> NoBody -> body p' <> NoBody.
Proof.
  apply body_parser_defines. intros [|b0 d] b H.
  - injection H as <-. discriminate.
  - destruct (urlencoded_parse L (b0 :: d)); [discriminate|]. injection H as <-. discriminate.
Qed.

Section Parsers.
Context (E : Env) (L : Library) (C : Collaborators) (now : Z) (w : Wire).

(** A layer mounted at the root, met by a request on its normal course,
    calls its function. *)
Lemma root_layer_trace s x :
  trace (handle E L C now w [Use "/" s] x)
  = match phase x with
    | Running p => (trace x ++ [(s, p)])%list
    | _ => trace x
    end.
Proof.
  unfold handle. cbn [foldl]. unfold step_layer.
  destruct (phase x) eqn:Hp; try reflexivity.
  change (under_mount "/" (path w)) with true. cbv iota. apply call_trace.
Qed.

Lemma root_layer_running s x :
  running (handle E L C now w [Use "/" s] x) = true -> running x = true.
Proof.
  destruct (running x) eqn:Hr; [reflexivity|].
  rewrite handle_not_running by exact Hr. discriminate.
Qed.

(** A function installed once, at the root, is called with the request as
    the layers above it leave it. *)
Lemma called_with above below s x p :
  Forall (fun l => s ∉ stages_of l) above ->
  Forall (fun l => s ∉ stages_of l) below ->
  s ∉ fst <$> trace x ->
  (s, p) ∈ trace (handle E L C now w (above ++ [Use "/" s] ++ below) x) ->
  phase (handle E L C now w above x) = Running p.
Proof.
  intros Ha Hb Hx. rewrite handle_app, (handle_app E L C now w [Use "/" s]).
  set (yA := handle E L C now w above x).
  set (yS := handle E L C now w [Use "/" s] yA).
  destruct (handle_trace E L C now w below yS) as (extra & -> & Hall).
  pose proof (root_layer_trace s yA) as HtS. fold yS in HtS.
  rewrite HtS. intros Hin.
  assert ((s, p) ∉ trace yA) as HnA.
  { intros H. assert (s ∈ fst <$> trace yA) as H'.
    { apply list_elem_of_fmap. exists (s, p). auto. }
    subst yA. apply (uncalled E L C now w) in H'; [contradiction|exact Ha]. }
  assert ((s, p) ∉ extra) as HnX.
  { intros H. destruct (proj1 (Forall_forall _ _) Hall _ H) as (l & Hl & Hs & _).
    exact (proj1 (Forall_forall _ _) Hb l Hl Hs). }
  apply elem_of_app in Hin as [Hin|Hin]; [|contradiction].
  destruct (phase yA) as [pA| |] eqn:HpA; try contradiction.
  apply elem_of_app in Hin as [Hin|Hin]; [contradiction|].
  apply list_elem_of_singleton in Hin. injection Hin as ->. reflexivity.
Qed.

(** The two generic parsers, met by a request on its normal course. *)
Lemma body_parsers_run x p p2 :
  phase x = Running p ->
  phase (handle E L C now w body_parsers x) = Running p2 ->
  exists p1, json_parser L {| wire := w; props := p |} = Next p1
             /\ urlencoded_parser L {| wire := w; props := p1 |} = Next p2.
Proof.
  intros Hp. unfold body_parsers. rewrite !handle_cons.
  rewrite (step_use E L C now w x p "/" JsonParser Hp eq_refl).
  change (handle E L C now w []) with (fun y : Run => y). cbv beta.
  destruct (json_parser L {| wire := w; props := p |}) as [p1|f|resp] eqn:Hj.
  - erewrite (call_next E L C now w JsonParser x p p1)
      by (cbn [run_stage]; rewrite Hj; reflexivity).
    erewrite step_use by reflexivity. unfold call. cbn [run_stage store].
    destruct (urlencoded_parser L {| wire := w; props := p1 |}) as [p2'|f|resp] eqn:Hu;
      cbn [phase]; try discriminate.
    intros H. injection H as <-. eauto.
  - erewrite (call_throw E L C now w JsonParser x p f)
      by (cbn [run_stage]; rewrite Hj; reflexivity).
    erewrite step_failed by reflexivity. discriminate.
  - erewrite (call_end E L C now w JsonParser x p resp)
      by (cbn [run_stage]; rewrite Hj; reflexivity).
    erewrite step_finished by reflexivity. discriminate.
Qed.

(** A request that the cookie parser sees and that is not for the webhook
    route came through the front layers untouched and through both
    parsers. *)
Lemma seen_by_cookie_parser st q p :
  matches w webhook_route = false ->
  (CookieParser, p) ∈ calls (serve E L C now st w q) ->
  exists p1, json_parser L (incoming w q) = Next p1
             /\ urlencoded_parser L {| wire := w; props := p1 |} = Next p.
Proof.
  intros Hweb. unfold serve, finish. cbn [calls]. rewrite app_cookies. intros Hin.
  apply called_with in Hin;
    [|exact (proj1 (cookie_parser_once E))|exact (proj2 (cookie_parser_once E))
     |cbn; apply not_elem_of_nil].
  unfold above_cookies in Hin. rewrite handle_app, (handle_app E L C now w [webhook_route]) in Hin.
  assert (handle E L C now w [webhook_route] (handle E L C now w (front E) (start st w q))
          = handle E L C now w (front E) (start st w q)) as Hskip.
  { unfold handle at 1. cbn [foldl]. apply step_skip, Hweb. }
  rewrite Hskip in Hin.
  destruct (running_before E L C now w _ _ _ Hin) as [p0 Hp0].
  destruct (front_keeps E L C now w st q p0 Hp0) as [-> _].
  apply (body_parsers_run _ _ _ Hp0) in Hin. exact Hin.
Qed.

(** A request that the JSON parser sees and that is not for the webhook
    route came through the front layers on its normal course. *)
Lemma reaches_json_parser st q :
  matches w webhook_route = false ->
  JsonParser ∈ stages (serve E L C now st w q) ->
  phase (handle E L C now w (front E) (start st w q)) = Running (props (incoming w q)).
Proof.
  intros Hweb. unfold serve, stages, finish. cbn [calls].
  rewrite app_front, !handle_app.
  set (y2 := handle E L C now w (front E) (start st w q)).
  assert (handle E L C now w [webhook_route] y2 = y2) as ->.
  { unfold handle. cbn [foldl]. apply step_skip, Hweb. }
  pose proof (front_called E L C now w st q) as Hfront. fold y2 in Hfront.
  assert (JsonParser ∉ fst <$> trace y2) as Hnot.
  { intros Hin. apply list_elem_of_fmap in Hin as (sp & Hs & Hin).
    pose proof (proj1 (Forall_forall _ _) Hfront sp Hin) as Hsp.
    cbv beta in Hsp. rewrite <- Hs in Hsp.
    destruct (front_stage_plain _ Hsp) as (_ & _ & Hne). contradiction. }
  intros Hin. destruct (phase y2) as [p|p f0|s0 r0] eqn:Hp2.
  - destruct (front_keeps E L C now w st q p Hp2) as [-> _]. reflexivity.
  - exfalso.
    destruct (handle_failed_trace E L C now w after_webhook y2) as (extra & Htr & Hall).
    { unfold running. rewrite Hp2. reflexivity. }
    rewrite Htr, fmap_app, elem_of_app in Hin. destruct Hin as [Hin|Hin]; [contradiction|].
    apply list_elem_of_fmap in Hin as (sp & Hs & Hin).
    destruct (proj1 (Forall_forall _ _) Hall sp Hin) as (m & Hm).
    apply error_layer_below in Hm. congruence.
  - exfalso. rewrite (handle_finished E L C now w after_webhook y2 _ _ Hp2) in Hin.
    contradiction.
Qed.

(** A fault of the JSON parser goes straight to the error handler. *)
Lemma json_fault_run st q f :
  matches w webhook_route = false ->
  JsonParser ∈ stages (serve E L C now st w q) ->
  json_parser L (incoming w q) = Throw f ->
  let r := serve E L C now st w q in
  fault r = Some (JsonParser, f)
  /\ responder r = GlobalErrorHandler
  /\ response r = globalErrorHandler E f
  /\ exists early, stages r = (early ++ [JsonParser; GlobalErrorHandler])%list
                   /\ Forall (fun s => s ∈ front_stages) early.
Proof.
  intros Hweb Hin Hthrow r. subst r.
  pose proof (reaches_json_parser st q Hweb Hin) as Hp2.
  unfold serve, stages, finish. cbn [calls fault responder response].
  rewrite app_front, !handle_app.
  pose proof (front_called E L C now w st q) as Hfront.
  set (y2 := handle E L C now w (front E) (start st w q)) in *.
  assert (handle E L C now w [webhook_route] y2 = y2) as ->.
  { unfold handle. cbn [foldl]. apply step_skip, Hweb. }
  unfold after_webhook. fold below_parsers. rewrite handle_app.
  unfold body_parsers. rewrite !handle_cons.
  rewrite (step_use E L C now w y2 _ "/" JsonParser Hp2 eq_refl).
  rewrite (call_throw E L C now w JsonParser y2 _ f)
    by (cbn [run_stage]; change {| wire := w; props := props (incoming w q) |} with (incoming w q);
        rewrite Hthrow; reflexivity).
  erewrite (step_failed E L C now w _ _ f) by reflexivity.
  change (handle E L C now w []) with (fun x : Run => x). cbv beta.
  erewrite below_parsers_failed by reflexivity.
  unfold answered. cbn [phase thrown trace].
  repeat split.
  exists (fst <$> trace y2). split.
  - rewrite !fmap_app, <- app_assoc. reflexivity.
  - apply Forall_fmap. exact Hfront.
Qed.

End Parsers.

(** A stage that was called was called with some request. *)
Lemma called_props (s : Stage) (r : Result) :
  s ∈ stages r -> exists p, (s, p) ∈ calls r.
Proof.
  unfold stages. intros H. apply list_elem_of_fmap in H as ([s' p] & Hs & Hin).
  cbn [fst] in Hs. subst s'. eauto.
Qed.

(** X9: below the two generic body parsers [req.body] is always defined:
    the cookie parser, the first function after them, never sees a request
    whose body is undefined (the webhook route, whose handler may pass a
    request on as it likes, apart). *)
Theorem X9_body_defined_below_parsers (E : Env) (L : Library) (C : Collaborators)
    (now : Z) (st : AppState) (w : Wire) (q : gmap string Value) (p : Props) :
  matches w webhook_route = false ->
  (CookieParser, p) ∈ calls (serve E L C now st w q) ->
  body p <> NoBody.
Proof.
  intros Hweb Hin.
  destruct (seen_by_cookie_parser E L C now w st q p Hweb Hin) as (p1 & Hj & Hu).
  eapply urlencoded_parser_defines; [exact Hu|]. right. cbn [props].
  eapply json_parser_defines; [exact Hj|]. left. reflexivity.
Qed.

Lemma X9_body_defined_below_parsers_witness :
  let w := get "/api/v1/tours" None client in
  matches w webhook_route = false
  /\ exists p, (CookieParser, p) ∈ calls (serve production lenient bare 0 fresh_store w ∅)
               /\ body p <> NoBody.
Proof.
  assert (matches (get "/api/v1/tours" None client) webhook_route = false) as Hweb
    by (vm_compute; reflexivity).
  assert (CookieParser ∈ stages (serve production lenient bare 0 fresh_store
                                   (get "/api/v1/tours" None client) ∅)) as Hin
    by (apply (bool_decide_unpack _); vm_compute; exact I).
  apply called_props in Hin as [p Hin].
  split; [exact Hweb|]. exists p. split; [exact Hin|].
  exact (X9_body_defined_below_parsers production lenient bare 0 fresh_store
           (get "/api/v1/tours" None client) ∅ p Hweb Hin).
Defined.

(** X10: a request that declares a JSON body, sent without content
    encoding to a route other than the webhook, and that gets past the
    parsers of lines 82-83 has been checked and parsed by then: its body
    is at most 10kb (10240 bytes) long, its charset is one of the UTF
    family, and the cookie parser sees [req.body] holding the document the
    client sent, which the JSON parser accepted (an empty object for an
    empty body). *)
Theorem X10_json_body_parsed (E : Env) (L : Library) (C : Collaborators) (now : Z)
    (st : AppState) (w : Wire) (q : gmap string Value) (p : Props) :
  matches w webhook_route = false ->
  hasBody w = true ->
  contentType w = Some "application/json" ->
  contentEncoding w = Identity ->
  (CookieParser, p) ∈ calls (serve E L C now st w q) ->
  (N.of_nat (length (payload w)) <= 10 * 1024)%N
  /\ String.prefix "utf-" (default "utf-8" (charset w)) = true
  /\ body_read p = true
  /\ match payload w with
     | [] => body p = Fields ∅
     | _ => body p = Json (payload w) /\ json_check L (payload w) = None
     end.
Proof.
  intros Hweb Hb Ht He Hin.
  destruct (seen_by_cookie_parser E L C now w st q p Hweb Hin) as (p1 & Hj & Hu).
  unfold json_parser, body_parser, type_is in Hj.
  cbn [incoming wire props body_read body] in Hj. rewrite Hb, Ht in Hj.
  change (String.eqb "application/json" "application/json") with true in Hj.
  cbn [negb] in Hj.
  destruct (String.prefix "utf-" (default "utf-8" (charset w))) eqn:Hcs; [|discriminate].
  cbn [negb] in Hj.
  destruct (read_text (encoding_exists L) (default "utf-8" (charset w)) w (kb 10))
    as [f|data] eqn:Hread; [discriminate|].
  apply (read_text_read _ _ _ _ _ He) in Hread as (-> & Hlen & _).
  assert (body_read p1 = true -> p = p1) as Hsame.
  { intros Hr. unfold urlencoded_parser, body_parser in Hu. cbn [props] in Hu.
    rewrite Hr in Hu. injection Hu as <-. reflexivity. }
  split; [exact Hlen|]. split; [reflexivity|].
  destruct (payload w) as [|b0 d] eqn:Hpay.
  - injection Hj as <-. rewrite (Hsame eq_refl). auto.
  - destruct (json_check L (b0 :: d)) eqn:Hc; [discriminate|].
    injection Hj as <-. rewrite (Hsame eq_refl). auto.
Qed.

Lemma X10_json_body_parsed_witness :
  matches small_json webhook_route = false
  /\ hasBody small_json = true
  /\ contentType small_json = Some "application/json"
  /\ contentEncoding small_json = Identity
  /\ exists p,
       (CookieParser, p) ∈ calls (serve production lenient bare 0 fresh_store small_json ∅)
       /\ (N.of_nat (length (payload small_json)) <= 10 * 1024)%N
       /\ String.prefix "utf-" (default "utf-8" (charset small_json)) = true
       /\ body_read p = true
       /\ body p = Json (payload small_json)
       /\ json_check lenient (payload small_json) = None.
Proof.
  assert (matches small_json webhook_route = false) as Hweb by (vm_compute; reflexivity).
  assert (CookieParser ∈ stages (serve production lenient bare 0 fresh_store small_json ∅))
    as Hin by (apply (bool_decide_unpack _); vm_compute; exact I).
  apply called_props in Hin as [p Hin].
  split; [exact Hweb|]. do 3 (split; [reflexivity|]). exists p. split; [exact Hin|].
  destruct (X10_json_body_parsed production lenient bare 0 fresh_store small_json ∅ p
              Hweb eq_refl eq_refl eq_refl Hin) as (H1 & H2 & H3 & H4 & H5).
  auto.
Defined.

(** X11: a JSON body that the parser of line 82 reads (declared as JSON,
    in a charset of the UTF family that can be decoded, not encoded,
    within 10kb, not empty) and that is not well-formed fails the request
    in the parser with a 400 fault that carries the syntax error.  After
    the parser only the error handler is called: no sanitiser, router or
    catch-all sees the request. *)
Theorem X11_malformed_json_rejected (E : Env) (L : Library) (C : Collaborators) (now : Z)
    (st : AppState) (w : Wire) (q : gmap string Value) (syntax_error : string) :
  let r := serve E L C now st w q in
  JsonParser ∈ stages r ->
  matches w webhook_route = false ->
  hasBody w = true ->
  contentType w = Some "application/json" ->
  String.prefix "utf-" (default "utf-8" (charset w)) = true ->
  encoding_exists L (default "utf-8" (charset w)) = true ->
  contentEncoding w = Identity ->
  (N.of_nat (length (payload w)) <= 10 * 1024)%N ->
  payload w <> [] ->
  json_check L (payload w) = Some syntax_error ->
  fault r = Some (JsonParser, http_error 400 syntax_error)
  /\ responder r = GlobalErrorHandler
  /\ response r = globalErrorHandler E (http_error 400 syntax_error)
  /\ exists early, stages r = (early ++ [JsonParser; GlobalErrorHandler])%list
                   /\ Forall (fun s => s ∈ front_stages) early.
Proof.
  intros r Hin Hweb Hb Ht Hcs Hknown He Hlen Hne Hbad. subst r.
  apply json_fault_run; [exact Hweb|exact Hin|].
  unfold json_parser, body_parser, type_is.
  cbn [incoming wire props body_read body]. rewrite Hb, Ht, Hcs.
  change (String.eqb "application/json" "application/json") with true. cbn [negb].
  rewrite read_text_known by exact Hknown.
  rewrite (read_identity w (kb 10) He Hlen).
  destruct (payload w) as [|b0 d]; [contradiction|]. rewrite Hbad. reflexivity.
Qed.

Lemma X11_malformed_json_rejected_witness :
  let r := serve production fussy bare 0 fresh_store small_json ∅ in
  JsonParser ∈ stages r
  /\ matches small_json webhook_route = false
  /\ hasBody small_json = true
  /\ contentType small_json = Some "application/json"
  /\ String.prefix "utf-" (default "utf-8" (charset small_json)) = true
  /\ encoding_exists fussy (default "utf-8" (charset small_json)) = true
  /\ contentEncoding small_json = Identity
  /\ (N.of_nat (length (payload small_json)) <= 10 * 1024)%N
  /\ payload small_json <> []
  /\ json_check fussy (payload small_json) = Some "Unexpected token"
  /\ fault r = Some (JsonParser, http_error 400 "Unexpected token")
  /\ responder r = GlobalErrorHandler
  /\ response r = globalErrorHandler production (http_error 400 "Unexpected token")
  /\ exists early, stages r = (early ++ [JsonParser; GlobalErrorHandler])%list
                   /\ Forall (fun s => s ∈ front_stages) early.
Proof.
  assert (JsonParser ∈ stages (serve production fussy bare 0 fresh_store small_json ∅))
    as Hin by (apply (bool_decide_unpack _); vm_compute; exact I).
  assert (matches small_json webhook_route = false) as Hweb by (vm_compute; reflexivity).
  assert (N.of_nat (length (payload small_json)) <= 10 * 1024)%N as Hlen
    by (vm_compute; discriminate).
  assert (payload small_json <> []) as Hne by discriminate.
  split; [exact Hin|]. split; [exact Hweb|]. do 5 (split; [reflexivity|]).
  split; [exact Hlen|]. split; [exact Hne|]. split; [reflexivity|].
  exact (X11_malformed_json_rejected production fussy bare 0 fresh_store small_json ∅
           "Unexpected token" Hin Hweb eq_refl eq_refl eq_refl eq_refl eq_refl Hlen Hne
           eq_refl).
Defined.

(** X12: a JSON body declared in a charset outside the UTF family fails
    the request in the parser of line 82 with a 415 fault, before the body
    is read; after the parser only the error handler is called. *)
Theorem X12_foreign_charset_rejected (E : Env) (L : Library) (C : Collaborators) (now : Z)
    (st : AppState) (w : Wire) (q : gmap string Value) (cs : string) :
  let r := serve E L C now st w q in
  JsonParser ∈ stages r ->
  matches w webhook_route = false ->
  hasBody w = true ->
  contentType w = Some "application/json" ->
  charset w = Some cs ->
  String.prefix "utf-" cs = false ->
  fault r = Some (JsonParser, unsupported_charset cs)
  /\ code (unsupported_charset cs) = 415%nat
  /\ responder r = GlobalErrorHandler
  /\ response r = globalErrorHandler E (unsupported_charset cs)
  /\ exists early, stages r = (early ++ [JsonParser; GlobalErrorHandler])%list
                   /\ Forall (fun s => s ∈ front_stages) early.
Proof.
  intros r Hin Hweb Hb Ht Hc Hcs. subst r.
  assert (json_parser L (incoming w q) = Throw (unsupported_charset cs)) as Hthrow.
  { unfold json_parser, body_parser, type_is.
    cbn [incoming wire props body_read body]. rewrite Hb, Ht, Hc.
    change (String.eqb "application/json" "application/json") with true.
    cbn [negb default from_option id]. rewrite Hcs. reflexivity. }
  destruct (json_fault_run E L C now w st q _ Hweb Hin Hthrow) as (H1 & H2 & H3 & H4).
  auto.
Qed.

Lemma X12_foreign_charset_rejected_witness :
  let r := serve production lenient bare 0 fresh_store latin_json ∅ in
  JsonParser ∈ stages r
  /\ matches latin_json webhook_route = false
  /\ hasBody latin_json = true
  /\ contentType latin_json = Some "application/json"
  /\ charset latin_json = Some "iso-8859-1"
  /\ String.prefix "utf-" "iso-8859-1" = false
  /\ fault r = Some (JsonParser, unsupported_charset "iso-8859-1")
  /\ code (unsupported_charset "iso-8859-1") = 415%nat
  /\ responder r = GlobalErrorHandler
  /\ response r = globalErrorHandler production (unsupported_charset "iso-8859-1")
  /\ exists early, stages r = (early ++ [JsonParser; GlobalErrorHandler])%list
                   /\ Forall (fun s => s ∈ front_stages) early.
Proof.
  assert (JsonParser ∈ stages (serve production lenient bare 0 fresh_store latin_json ∅))
    as Hin by (apply (bool_decide_unpack _); vm_compute; exact I).
  assert (matches latin_json webhook_route = false) as Hweb by (vm_compute; reflexivity).
  split; [exact Hin|]. split; [exact Hweb|]. do 4 (split; [reflexivity|]).
  exact (X12_foreign_charset_rejected production lenient bare 0 fresh_store latin_json ∅
           "iso-8859-1" Hin Hweb eq_refl eq_refl eq_refl eq_refl).
Defined.

(** ** The parameter-pollution guard: what it keeps *)

Lemma put_back_polluted wl : forall pp k,
  snd (put_back wl pp) !! k = if decide (k ∈ wl) then None else snd pp !! k.
Proof.
  unfold put_back. induction wl as [|w wl IH]; intros [p q] k; cbn [foldl fst snd].
  - destruct (decide (k ∈ [])) as [H|_]; [|reflexivity].
    apply elem_of_nil in H. contradiction.
  - rewrite IH. destruct (decide (k ∈ wl)) as [Hin|Hin].
    + destruct (decide (k ∈ w :: wl)) as [_|H]; [reflexivity|].
      exfalso. apply H, elem_of_cons. auto.
    + destruct (q !! w) as [v0|] eqn:Hw; cbn [fst snd].
      * destruct (decide (k = w)) as [->|Hne].
        -- rewrite lookup_delete_eq.
           destruct (decide (w ∈ w :: wl)) as [_|H]; [reflexivity|].
           exfalso. apply H, elem_of_cons. auto.
        -- rewrite lookup_delete_ne by congruence.
           destruct (decide (k ∈ w :: wl)) as [H|_]; [|reflexivity].
           apply elem_of_cons in H as [?|?]; contradiction.
      * destruct (decide (k ∈ w :: wl)) as [H|_]; [|reflexivity].
        apply elem_of_cons in H as [->|?]; [exact Hw|contradiction].
Qed.

Lemma last_value_scalar v : is_array v = false -> last_value v = v.
Proof. destruct v; try reflexivity. discriminate. Qed.

(** The two objects that the guard leaves, entry by entry, for a request
    part that had nothing put aside before. *)
Lemma hpp_object_lookup wl params k :
  fst (hpp_object wl params ∅) !! k
  = match params !! k with
    | Some v => if is_array v then (if decide (k ∈ wl) then Some v else Some (last_value v))
                else Some v
    | None => None
    end
  /\ snd (hpp_object wl params ∅) !! k
     = match params !! k with
       | Some v => if is_array v && negb (bool_decide (k ∈ wl)) then Some v else None
       | None => None
       end.
Proof.
  assert (snd (put_aside params ∅) !! k
          = match params !! k with
            | Some v => if is_array v then Some v else None
            | None => None
            end) as Haside.
  { unfold put_aside. cbn [snd]. rewrite map_union_empty.
    destruct (params !! k) as [v|] eqn:Hk.
    - destruct (is_array v) eqn:Ha.
      + apply map_lookup_filter_Some. auto.
      + apply map_lookup_filter_None. right. intros v' Hv'. rewrite Hk in Hv'.
        injection Hv' as <-. cbn [snd]. rewrite Ha. discriminate.
    - apply map_lookup_filter_None. left. exact Hk. }
  assert (fst (put_aside params ∅) !! k = last_value <$> params !! k) as Hlast.
  { unfold put_aside. cbn [fst]. apply lookup_fmap. }
  unfold hpp_object. rewrite put_back_lookup, put_back_polluted, Haside, Hlast.
  destruct (params !! k) as [v|] eqn:Hk; cbn [fmap option_fmap option_map].
  - destruct (is_array v) eqn:Ha.
    + destruct (decide (k ∈ wl)) as [Hin|Hin].
      * rewrite bool_decide_eq_true_2 by exact Hin. split; reflexivity.
      * rewrite bool_decide_eq_false_2 by exact Hin. split; reflexivity.
    + rewrite last_value_scalar by exact Ha. destruct (decide (k ∈ wl)); split; reflexivity.
  - destruct (decide (k ∈ wl)); split; reflexivity.
Qed.

Lemma hpp_polluted wl r :
  exists p, hpp wl r = Next p
            /\ query p = fst (hpp_object wl (query (props r)) (queryPolluted (props r)))
            /\ queryPolluted p = snd (hpp_object wl (query (props r)) (queryPolluted (props r))).
Proof.
  unfold hpp. cbn [body set_query].
  destruct (body (props r)); try (eexists; repeat split; reflexivity).
  destruct (type_is _ _); eexists; repeat split; reflexivity.
Qed.

(** X13: the parameter-pollution guard (lines 93-104) loses nothing of
    the query: what it leaves in [req.query], overlaid with what it put
    aside in [req.queryPolluted], is the query as it was parsed; and
    [req.query] keeps the same parameter names. *)
Theorem X13_hpp_nothing_lost (r : Request) (p : Props) :
  queryPolluted (props r) = ∅ ->
  hpp whitelist r = Next p ->
  queryPolluted p ∪ query p = query (props r)
  /\ dom (query p) = dom (query (props r)).
Proof.
  intros Hempty Hhpp.
  destruct (hpp_polluted whitelist r) as (p' & Hp' & Hq & Hqp).
  rewrite Hhpp in Hp'. injection Hp' as <-. rewrite Hempty in Hq, Hqp.
  assert (forall k, is_Some (query p !! k) <-> is_Some (query (props r) !! k)) as Hdom.
  { intros k. rewrite Hq, (proj1 (hpp_object_lookup whitelist (query (props r)) k)).
    destruct (query (props r) !! k) as [v|]; [|reflexivity].
    destruct (is_array v); [destruct (decide _)|]; split; eauto. }
  split.
  - apply map_eq. intros k. rewrite lookup_union, Hq, Hqp.
    destruct (hpp_object_lookup whitelist (query (props r)) k) as [-> ->].
    destruct (query (props r) !! k) as [v|]; [|reflexivity].
    destruct (is_array v); cbn [andb]; [|reflexivity].
    destruct (decide (k ∈ whitelist)) as [Hin|Hin].
    + rewrite bool_decide_eq_true_2 by exact Hin. reflexivity.
    + rewrite bool_decide_eq_false_2 by exact Hin. reflexivity.
  - apply set_eq. intros k. rewrite !elem_of_dom. apply Hdom.
Qed.

Lemma X13_hpp_nothing_lost_witness :
  let r := incoming (get "/api/v1/tours" None client) polluted_query in
  queryPolluted (props r) = ∅
  /\ exists p, hpp whitelist r = Next p
               /\ queryPolluted p ∪ query p = query (props r)
               /\ dom (query p) = dom (query (props r)).
Proof.
  split; [reflexivity|].
  destruct (hpp_next whitelist (incoming (get "/api/v1/tours" None client) polluted_query))
    as [p Hp].
  exists p. split; [exact Hp|].
  exact (X13_hpp_nothing_lost (incoming (get "/api/v1/tours" None client) polluted_query)
           p eq_refl Hp).
Defined.

(** X14: the guard touches only repeated parameters outside the
    whitelist: a parameter of the whitelist, and a parameter whose value is
    a string or a nested object such as a range, is left in [req.query] as
    it was parsed, and nothing is put aside for it. *)
Theorem X14_hpp_touches_only_repeated (r : Request) (p : Props) (k : string) :
  queryPolluted (props r) = ∅ ->
  hpp whitelist r = Next p ->
  (k ∈ whitelist \/ forall xs, query (props r) !! k <> Some (VArr xs)) ->
  query p !! k = query (props r) !! k /\ queryPolluted p !! k = None.
Proof.
  intros Hempty Hhpp Hk.
  destruct (hpp_polluted whitelist r) as (p' & Hp' & Hq & Hqp).
  rewrite Hhpp in Hp'. injection Hp' as <-. rewrite Hempty in Hq, Hqp.
  rewrite Hq, Hqp. destruct (hpp_object_lookup whitelist (query (props r)) k) as [-> ->].
  destruct (query (props r) !! k) as [v|] eqn:Hv; [|auto].
  destruct Hk as [Hin|Hscalar].
  - rewrite bool_decide_eq_true_2 by exact Hin. rewrite andb_false_r.
    destruct (is_array v); [destruct (decide (k ∈ whitelist)); [auto|contradiction]|auto].
  - destruct v; cbn [is_array andb]; auto. exfalso. eapply Hscalar. reflexivity.
Qed.

Lemma X14_hpp_touches_only_repeated_witness :
  let r := incoming (get "/api/v1/tours" None client) polluted_query in
  queryPolluted (props r) = ∅
  /\ ("duration" ∈ whitelist \/ forall xs, query (props r) !! "duration" <> Some (VArr xs))
  /\ exists p, hpp whitelist r = Next p
               /\ query p !! "duration" = query (props r) !! "duration"
               /\ queryPolluted p !! "duration" = None.
Proof.
  assert ("duration" ∈ whitelist) as Hin
    by (apply (bool_decide_unpack _); vm_compute; exact I).
  split; [reflexivity|]. split; [left; exact Hin|].
  destruct (hpp_next whitelist (incoming (get "/api/v1/tours" None client) polluted_query))
    as [p Hp].
  exists p. split; [exact Hp|].
  exact (X14_hpp_touches_only_repeated
           (incoming (get "/api/v1/tours" None client) polluted_query)
           p "duration" eq_refl Hp (or_introl Hin)).
Defined.

(** ** The routers: what they are handed, and in which order *)

Lemma app_view E :
  app E = ((above_cookies E ++ [Use "/" CookieParser] ++ request_guards)
           ++ [Use "/" ViewRouter] ++ api_layers ++ last_resort)%list.
Proof.
  unfold app, above_cookies, front, before_limiter. destruct (development E); reflexivity.
Qed.

Lemma view_router_once E :
  Forall (fun l => ViewRouter ∉ stages_of l)
         (above_cookies E ++ [Use "/" CookieParser] ++ request_guards)
  /\ Forall (fun l => ViewRouter ∉ stages_of l) (api_layers ++ last_resort).
Proof.
  unfold above_cookies, front, before_limiter.
  split; [destruct (development E)|]; apply (bool_decide_unpack _); vm_compute; exact I.
Qed.

Lemma api_router_below E m s :
  (m, s) ∈ api_mounts ->
  Forall (fun l => s ∉ stages_of l)
         ((above_cookies E ++ [Use "/" CookieParser] ++ request_guards)
          ++ [Use "/" ViewRouter]).
Proof.
  unfold api_mounts, above_cookies, front, before_limiter. intros Hs.
  repeat (apply elem_of_cons in Hs as [Hs|Hs]; [injection Hs as -> ->|]);
    try (apply elem_of_nil in Hs; contradiction);
    destruct (development E); apply (bool_decide_unpack _); vm_compute; exact I.
Qed.

Lemma error_layer_below_view m s :
  UseError m s ∈ (api_layers ++ last_resort)%list -> s = GlobalErrorHandler.
Proof.
  unfold api_layers, last_resort. cbn [List.app]. intros H.
  repeat (apply elem_of_cons in H as [H|H]; [try discriminate; try (injection H as _ <-; reflexivity)|]).
  apply elem_of_nil in H. contradiction.
Qed.

Lemma hpp_keeps_cookies wl r p :
  hpp wl r = Next p -> cookies p = cookies (props r).
Proof.
  unfold hpp. cbn [body set_query].
  destruct (body (props r)); try (intros H; injection H as <-; reflexivity).
  destruct (type_is _ _); intros H; injection H as <-; reflexivity.
Qed.

Lemma rest_after_app m p rest : rest_after m p = Some rest -> p = m ++ rest.
Proof.
  revert p. induction m as [|a m IH]; intros p H.
  - cbn in H. injection H as ->. reflexivity.
  - destruct p as [|b p]; cbn [rest_after] in H; [discriminate|].
    destruct (Ascii.eqb a b) eqn:Hab; [|discriminate].
    apply Ascii.eqb_eq in Hab. subst b.
    change (String a p = String a (m ++ rest)). f_equal. apply IH, H.
Qed.

Lemma under_mount_app mount p :
  mount <> "/" -> under_mount mount p = true ->
  exists rest, lower p = lower mount ++ rest.
Proof.
  unfold under_mount. intros Hne.
  destruct (String.eqb mount "/") eqn:He; [apply String.eqb_eq in He; contradiction|].
  destruct (rest_after (lower mount) (lower p)) as [rest|] eqn:Hr; [|discriminate].
  intros _. exists rest. apply rest_after_app, Hr.
Qed.

(** No path is under two of the mount paths of the API routers. *)
Lemma api_mounts_disjoint p m1 s1 m2 s2 :
  (m1, s1) ∈ api_mounts -> (m2, s2) ∈ api_mounts ->
  under_mount m1 p = true -> under_mount m2 p = true -> s1 = s2.
Proof.
  unfold api_mounts. intros H1 H2 U1 U2.
  repeat (apply elem_of_cons in H1 as [H1|H1]; [injection H1 as -> ->|]);
    try (apply elem_of_nil in H1; contradiction);
    (repeat (apply elem_of_cons in H2 as [H2|H2]; [injection H2 as -> ->|]);
     try (apply elem_of_nil in H2; contradiction));
    try reflexivity; exfalso;
    apply under_mount_app in U1 as [r1 E1]; try discriminate;
    apply under_mount_app in U2 as [r2 E2]; try discriminate;
    rewrite E1 in E2; vm_compute in E2; discriminate E2.
Qed.

Lemma api_router_layer E l m s :
  (m, s) ∈ api_mounts -> l ∈ app E -> s ∈ stages_of l -> l = Use m s.
Proof.
  unfold api_mounts, app. intros Hs Hl Hin.
  repeat (apply elem_of_cons in Hs as [Hs|Hs]; [injection Hs as -> ->|]);
    try (apply elem_of_nil in Hs; contradiction);
    (destruct (development E); cbn [List.app] in Hl;
     repeat (apply elem_of_cons in Hl as [->|Hl];
             [first [reflexivity | cbn [stages_of] in Hin;
                     repeat (apply elem_of_cons in Hin as [Hin|Hin]; [discriminate Hin|]);
                     apply elem_of_nil in Hin; contradiction]|]);
     apply elem_of_nil in Hl; contradiction).
Qed.

Section Guards.
Context (E : Env) (L : Library) (C : Collaborators) (now : Z) (w : Wire).

(** The sanitisers, the pollution guard and the compression layer leave
    [req.cookies] as the cookie parser set it. *)
Lemma guard_keeps_cookies s st p p' st' l :
  l ∈ request_guards -> s ∈ stages_of l ->
  run_stage E L C now s st {| wire := w; props := p |} = (Next p', st') ->
  cookies p' = cookies p.
Proof.
  unfold request_guards, sanitizers. cbn [List.app]. intros Hl Hs H.
  repeat (apply elem_of_cons in Hl as [->|Hl];
          [cbn [stages_of] in Hs; apply list_elem_of_singleton in Hs as ->|]);
    try (apply elem_of_nil in Hl; contradiction);
    cbn [run_stage] in H; unfold ok, sanitize in H; cbn [props] in H;
    try (injection H as <- _; reflexivity).
  injection H as H _. apply hpp_keeps_cookies in H. exact H.
Qed.

Lemma cookie_layer_sets x :
  forall p, phase (handle E L C now w [Use "/" CookieParser] x) = Running p ->
            is_Some (cookies p).
Proof.
  unfold handle. cbn [foldl]. unfold step_layer.
  destruct (phase x) as [p0| |] eqn:Hp; rewrite ?Hp; try discriminate.
  change (under_mount "/" (path w)) with true. cbv iota.
  unfold call. cbn [run_stage]. unfold cookie_parser. cbn [props wire].
  destruct (cookies p0) eqn:Hc; cbn [phase]; intros p H; injection H as <-.
  - rewrite Hc. eauto.
  - cbn. eauto.
Qed.

Lemma guards_keep_cookies x :
  (forall p, phase x = Running p -> is_Some (cookies p)) ->
  forall p, phase (handle E L C now w request_guards x) = Running p -> is_Some (cookies p).
Proof.
  intros Hx.
  apply (layers_inv E L C now w (fun y => forall p, phase y = Running p -> is_Some (cookies p)));
    [| |exact Hx].
  - intros y s p l Hy Hp Hl _ Hs p'. unfold call.
    destruct (run_stage _ _ _ _ _ _ _) as [[p''|f|resp] st'] eqn:Hrun; cbn [phase];
      try discriminate.
    intros H. injection H as <-.
    rewrite (guard_keeps_cookies s _ p p'' st' l Hl Hs Hrun). exact (Hy p Hp).
  - intros y s p f m _ _ _ _ p'. discriminate.
Qed.

(** The instant stamped by the last guard. *)
Lemma guards_stamp x :
  forall p, phase (handle E L C now w request_guards x) = Running p ->
            requestTime p = Some now.
Proof.
  change request_guards
    with ((sanitizers ++ [Use "/" Hpp; Use "/" Compression]) ++ [Use "/" RequestTime])%list.
  rewrite handle_app.
  set (y := handle E L C now w _ x). clearbody y.
  unfold handle. cbn [foldl]. unfold step_layer.
  destruct (phase y) as [p0| |] eqn:Hp; rewrite ?Hp; try discriminate.
  change (under_mount "/" (path w)) with true. cbv iota.
  unfold call. cbn [run_stage]. unfold ok. cbn [phase props].
  intros p H. injection H as <-. reflexivity.
Qed.

End Guards.

(** X15: whenever the view router is called, the request it is handed
    carries [req.requestTime], the instant at which the request is served
    (lines 109-113), and [req.cookies] (line 84). *)
Theorem X15_view_router_request (E : Env) (L : Library) (C : Collaborators) (now : Z)
    (st : AppState) (w : Wire) (q : gmap string Value) (p : Props) :
  (ViewRouter, p) ∈ calls (serve E L C now st w q) ->
  requestTime p = Some now /\ is_Some (cookies p).
Proof.
  unfold serve, finish. cbn [calls]. rewrite app_view. intros Hin.
  apply called_with in Hin;
    [|exact (proj1 (view_router_once E))|exact (proj2 (view_router_once E))
     |cbn; apply not_elem_of_nil].
  rewrite handle_app, (handle_app E L C now w [Use "/" CookieParser]) in Hin.
  split.
  - eapply guards_stamp, Hin.
  - eapply guards_keep_cookies; [|exact Hin]. apply cookie_layer_sets.
Qed.

Lemma X15_view_router_request_witness :
  exists p, (ViewRouter, p) ∈ calls (serve production lenient bare 7 fresh_store
                                       (get "/overview" None client) ∅)
            /\ requestTime p = Some 7%Z /\ is_Some (cookies p).
Proof.
  assert (ViewRouter ∈ stages (serve production lenient bare 7 fresh_store
                                 (get "/overview" None client) ∅)) as Hin
    by (apply (bool_decide_unpack _); vm_compute; exact I).
  apply called_props in Hin as [p Hin].
  exists p. split; [exact Hin|].
  exact (X15_view_router_request production lenient bare 7 fresh_store
           (get "/overview" None client) ∅ p Hin).
Defined.

(** X16: the view router, mounted at the root (line 116), sees the
    requests of the API too: whenever one of the four API routers is
    called, the view router was called before it. *)
Theorem X16_view_router_first (E : Env) (L : Library) (C : Collaborators) (now : Z)
    (st : AppState) (w : Wire) (q : gmap string Value) (m : string) (s : Stage) :
  (m, s) ∈ api_mounts ->
  let r := serve E L C now st w q in
  s ∈ stages r -> called_before ViewRouter s (stages r).
Proof.
  intros Hs r Hin. subst r. unfold serve, stages, finish in *. cbn [calls] in *.
  rewrite app_view in *. rewrite handle_app in Hin |- *.
  set (yA := handle E L C now w
               (above_cookies E ++ [Use "/" CookieParser] ++ request_guards) (start st w q)) in *.
  rewrite (handle_app E L C now w [Use "/" ViewRouter]) in Hin |- *.
  set (yV := handle E L C now w [Use "/" ViewRouter] yA) in *.
  destruct (handle_trace E L C now w (api_layers ++ last_resort) yV) as (extra & Htr & _).
  assert (s ∉ fst <$> trace yV) as Hnot.
  { intros H. subst yV yA. rewrite <- handle_app in H.
    apply (uncalled E L C now w) in H; [|apply (api_router_below E m), Hs].
    cbn in H. apply elem_of_nil in H. exact H. }
  assert (running yV = true) as HrunV.
  { destruct (running yV) eqn:Hr; [reflexivity|].
    destruct (handle_failed_trace E L C now w (api_layers ++ last_resort) yV Hr)
      as (extra' & Htr' & Hall).
    rewrite Htr', fmap_app, elem_of_app in Hin. destruct Hin as [Hin|Hin]; [contradiction|].
    apply list_elem_of_fmap in Hin as (sp & Heq & Hin).
    destruct (proj1 (Forall_forall _ _) Hall sp Hin) as (m' & Hmem).
    apply error_layer_below_view in Hmem. exfalso.
    rewrite <- Heq in Hmem. rewrite Hmem in Hs. clear -Hs. unfold api_mounts in Hs.
    repeat (apply elem_of_cons in Hs as [Hs|Hs]; [discriminate Hs|]).
    apply elem_of_nil in Hs. exact Hs. }
  pose proof (root_layer_running E L C now w ViewRouter yA HrunV) as HrunA.
  pose proof (root_layer_trace E L C now w ViewRouter yA) as HtV. fold yV in HtV.
  unfold running in HrunA. destruct (phase yA) as [pA| |] eqn:HpA; try discriminate.
  rewrite Htr in Hin |- *. rewrite HtV in Hin, Hnot |- *.
  rewrite !fmap_app in *. cbn [fmap list_fmap fst] in *.
  rewrite elem_of_app in Hin. destruct Hin as [Hin|Hin].
  { exfalso. apply Hnot. rewrite elem_of_app in Hin |- *. exact Hin. }
  apply list_elem_of_split in Hin as (l2 & l3 & Hsplit). rewrite Hsplit.
  exists (fst <$> trace yA), l2, l3. rewrite <- !app_assoc. reflexivity.
Qed.

Lemma X16_view_router_first_witness :
  let r := serve production lenient bare 0 fresh_store (get "/api/v1/tours" None client) ∅ in
  ("/api/v1/tours", TourRouter) ∈ api_mounts
  /\ TourRouter ∈ stages r
  /\ called_before ViewRouter TourRouter (stages r).
Proof.
  assert (("/api/v1/tours", TourRouter) ∈ api_mounts) as Hm
    by (apply elem_of_cons; left; reflexivity).
  assert (TourRouter ∈ stages (serve production lenient bare 0 fresh_store
                                 (get "/api/v1/tours" None client) ∅)) as Hin
    by (apply (bool_decide_unpack _); vm_compute; exact I).
  split; [exact Hm|]. split; [exact Hin|].
  exact (X16_view_router_first production lenient bare 0 fresh_store
           (get "/api/v1/tours" None client) ∅ "/api/v1/tours" TourRouter Hm Hin).
Defined.

(** X17: the four API routers (lines 117-120) exclude one another: a
    router is called only for a path under its mount path, and no request
    reaches two of them. *)
Theorem X17_api_routers_exclusive (E : Env) (L : Library) (C : Collaborators) (now : Z)
    (st : AppState) (w : Wire) (q : gmap string Value) (m1 m2 : string) (s1 s2 : Stage) :
  (m1, s1) ∈ api_mounts -> (m2, s2) ∈ api_mounts ->
  let r := serve E L C now st w q in
  s1 ∈ stages r -> s2 ∈ stages r ->
  s1 = s2 /\ under_mount m1 (path w) = true.
Proof.
  intros H1 H2 r Hc1 Hc2. subst r.
  apply called_matches in Hc1 as (l1 & Hl1 & Hs1 & Hm1).
  apply called_matches in Hc2 as (l2 & Hl2 & Hs2 & Hm2).
  rewrite (api_router_layer E l1 m1 s1 H1 Hl1 Hs1) in Hm1.
  rewrite (api_router_layer E l2 m2 s2 H2 Hl2 Hs2) in Hm2.
  cbn [matches] in Hm1, Hm2. split; [|exact Hm1].
  eapply api_mounts_disjoint; eassumption.
Qed.

Lemma X17_api_routers_exclusive_witness :
  let w := get "/api/v1/users/me" None client in
  let r := serve production lenient bare 0 fresh_store w ∅ in
  ("/api/v1/users", UserRouter) ∈ api_mounts
  /\ UserRouter ∈ stages r
  /\ UserRouter = UserRouter /\ under_mount "/api/v1/users" (path w) = true.
Proof.
  assert (("/api/v1/users", UserRouter) ∈ api_mounts) as Hm
    by (apply elem_of_cons; right; apply elem_of_cons; left; reflexivity).
  assert (UserRouter ∈ stages (serve production lenient bare 0 fresh_store
                                 (get "/api/v1/users/me" None client) ∅)) as Hin
    by (apply (bool_decide_unpack _); vm_compute; exact I).
  split; [exact Hm|]. split; [exact Hin|].
  exact (X17_api_routers_exclusive production lenient bare 0 fresh_store
           (get "/api/v1/users/me" None client) ∅ _ _ UserRouter UserRouter Hm Hm Hin Hin).
Defined.

(** ** Faults *)

Section Faults.
Context (E : Env) (L : Library) (C : Collaborators) (now : Z) (w : Wire).




End Faults.


(** * Further properties of the start-up script *)

Module SupervisorInvariants.
Import Supervisor.

Lemma act_exited s a : exited s <> None -> act s a = s.
Proof. unfold act. destruct (exited s); [reflexivity|contradiction]. Qed.

Lemma acts_exited callback : forall s, exited s <> None -> foldl act s callback = s.
Proof.
  induction callback as [|a callback IH]; intros s H; [reflexivity|].
  cbn [foldl]. rewrite act_exited by exact H. apply IH, H.
Qed.

Lemma sound_weaken (P Q : Prop) s : (P -> Q) -> sound P s -> sound Q s.
Proof.
  intros HPQ [He Hc]. split.
  - destruct He as [?|[? ?]]; auto.
  - eapply Forall_impl; [exact Hc|]. intros cb [?|[? ?]]; [left|right]; auto.
Qed.

(** Running the callbacks of the script keeps the process sound. *)
Lemma callbacks_sound (P : Prop) callbacks : forall s,
  Forall (registered P) callbacks ->
  (exited s = None \/ (exited s = Some 1%Z /\ P)) -> on_close s = [] ->
  sound P (foldl (fun s' callback => foldl act s' callback) s callbacks).
Proof.
  induction callbacks as [|cb callbacks IH]; intros s Hall He Hoc.
  - cbn [foldl]. split; [exact He|]. rewrite Hoc. constructor.
  - inversion Hall as [|? ? Hcb Hrest]; subst. cbn [foldl]. apply IH; [exact Hrest| |].
    + destruct He as [He|[He HP]].
      * destruct Hcb as [->|[-> HP]]; cbn [foldl]; unfold act; rewrite He; cbn; auto.
      * right. rewrite acts_exited by (rewrite He; discriminate). auto.
    + destruct (exited s) eqn:He'.
      * rewrite acts_exited by (rewrite He'; discriminate). exact Hoc.
      * destruct Hcb as [->|[-> HP]]; cbn [foldl]; unfold act; rewrite He'; cbn; exact Hoc.
Qed.

Lemma emit_close_sound (P : Prop) s : sound P s -> sound P (emit_close s).
Proof.
  intros [He Hc]. unfold emit_close.
  destruct (negb (listening s) && (in_flight s =? 0)%nat); [|split; assumption].
  apply callbacks_sound; [exact Hc|exact He|reflexivity].
Qed.

Lemma effects_sound (P : Prop) handler : forall s,
  Forall (fun e => match e with
                   | Do (Log _) => True
                   | Do (Exit status) => status = 1%Z /\ P
                   | CloseServer callback => registered P callback
                   end) handler ->
  sound P s -> sound P (foldl effect s handler).
Proof.
  induction handler as [|e handler IH]; intros s Hall Hs; [exact Hs|].
  inversion Hall as [|? ? He Hrest]; subst. cbn [foldl]. apply IH; [exact Hrest|].
  destruct Hs as [Hex Hc]. unfold effect.
  destruct (exited s) eqn:Hx; [split; [rewrite Hx|]; assumption|].
  destruct e as [[line|status]|callback].
  - unfold act. rewrite Hx. split; cbn; auto.
  - destruct He as [-> HP]. unfold act. rewrite Hx. split; cbn; auto.
  - split; cbn; [auto|]. apply Forall_app. split; [exact Hc|]. constructor; [exact He|constructor].
Qed.

Lemma step_sound (P : Prop) s ev :
  sound P s -> sound (P \/ is_failure ev = true) (step s ev).
Proof.
  intros Hs. unfold step. destruct (exited s) eqn:Hx.
  { eapply sound_weaken; [|exact Hs]. auto. }
  destruct ev as [name msg|name msg| | |].
  - apply emit_close_sound, effects_sound.
    + constructor; [exact I|]. constructor; [exact I|].
      constructor; [split; [reflexivity|right; reflexivity]|constructor].
    + eapply sound_weaken; [|exact Hs]. auto.
  - apply emit_close_sound, effects_sound.
    + constructor; [exact I|]. constructor; [exact I|].
      constructor; [right; split; [reflexivity|right; reflexivity]|constructor].
    + eapply sound_weaken; [|exact Hs]. auto.
  - apply emit_close_sound, effects_sound.
    + constructor; [exact I|]. constructor; [left; reflexivity|constructor].
    + eapply sound_weaken; [|exact Hs]. auto.
  - destruct (listening s).
    + destruct Hs as [_ Hc]. split; cbn; [auto|].
      eapply Forall_impl; [exact Hc|]. intros cb [?|[? ?]]; [left|right]; auto.
    + eapply sound_weaken; [|exact Hs]. auto.
  - apply emit_close_sound. destruct Hs as [_ Hc]. split; cbn; [auto|].
    eapply Forall_impl; [exact Hc|]. intros cb [?|[? ?]]; [left|right]; auto.
Qed.

Lemma run_sound evs : forall (P : Prop) s,
  sound P s -> sound (P \/ Exists (fun ev => is_failure ev = true) evs) (run s evs).
Proof.
  induction evs as [|ev evs IH]; intros P s Hs.
  - eapply sound_weaken; [|exact Hs]. auto.
  - unfold run. cbn [foldl]. fold (run (step s ev) evs).
    eapply sound_weaken; [|apply IH, step_sound, Hs].
    intros [[HP|Hev]|Hex]; [auto| |]; right; apply Exists_cons; auto.
Qed.

Lemma booted_sound : sound False booted.
Proof. split; [left; reflexivity|constructor]. Qed.

(** X19: whatever happens after the server has started, the process
    leaves through [process.exit] only with status 1, and only after an
    uncaught exception or an unhandled rejection: traffic and SIGTERM
    signals alone, in any number and order, never make the script call
    [process.exit]. *)
Theorem X19_exit_only_on_failure (evs : list Event) (status : Z) :
  exited (run booted evs) = Some status ->
  status = 1%Z /\ Exists (fun ev => is_failure ev = true) evs.
Proof.
  intros H. destruct (run_sound evs False booted booted_sound) as [[He|[He Hf]] _].
  - congruence.
  - split; [congruence|]. destruct Hf as [[]|Hf]. exact Hf.
Qed.

Lemma X19_exit_only_on_failure_witness :
  let evs := [Connection; UnhandledRejection "Error" "connection lost"; Completion] in
  exited (run booted evs) = Some 1%Z
  /\ 1%Z = 1%Z /\ Exists (fun ev => is_failure ev = true) evs.
Proof.
  split; [reflexivity|].
  exact (X19_exit_only_on_failure
           [Connection; UnhandledRejection "Error" "connection lost"; Completion] 1 eq_refl).
Defined.

Lemma uncaught_step s name msg :
  exited s = None -> exited (step s (UncaughtException name msg)) = Some 1%Z.
Proof.
  intros Hx. unfold step. rewrite Hx. unfold run_handler, on_uncaughtException.
  cbn [foldl]. unfold effect, act. rewrite Hx. cbn [exited]. cbn.
  unfold emit_close. cbn [listening in_flight on_close exited output].
  destruct (negb (listening s) && (in_flight s =? 0)%nat); [|reflexivity].
  generalize (on_close s). intros callbacks.
  match goal with
  | |- exited (foldl _ ?s0 _) = _ =>
      generalize (eq_refl : exited s0 = Some 1%Z); generalize s0
  end.
  induction callbacks as [|cb callbacks IH]; intros s0 H0; [exact H0|].
  cbn [foldl]. rewrite acts_exited by (rewrite H0; discriminate). apply IH, H0.
Qed.

(** X20: an uncaught exception is fatal in every state of the server:
    if one occurs among the events that follow the start, in whatever
    order with traffic, signals and rejections, the process has exited
    with status 1 in the end. *)
Theorem X20_uncaught_exception_is_fatal (evs : list Event) (name msg : string) :
  UncaughtException name msg ∈ evs -> exited (run booted evs) = Some 1%Z.
Proof.
  intros Hin. apply list_elem_of_split in Hin as (before & after & ->).
  unfold run. rewrite foldl_app. cbn [foldl].
  fold (run booted before). set (s := run booted before).
  fold (run (step s (UncaughtException name msg)) after).
  assert (exited (step s (UncaughtException name msg)) = Some 1%Z) as Hone.
  { destruct (exited s) as [status|] eqn:Hx.
    - unfold step. rewrite Hx.
      destruct (run_sound before False booted booted_sound) as [[He|[He _]] _];
        fold s in He; congruence.
    - apply uncaught_step, Hx. }
  rewrite SupervisorProperties.run_exited by (rewrite Hone; discriminate). exact Hone.
Qed.

Lemma X20_uncaught_exception_is_fatal_witness :
  let evs := [Connection; SIGTERM; UncaughtException "TypeError" "x is not a function";
              Completion] in
  UncaughtException "TypeError" "x is not a function" ∈ evs
  /\ exited (run booted evs) = Some 1%Z.
Proof.
  assert (UncaughtException "TypeError" "x is not a function"
          ∈ [Connection; SIGTERM; UncaughtException "TypeError" "x is not a function";
             Completion]) as Hin.
  { do 2 (apply elem_of_cons; right). apply elem_of_cons. left. reflexivity. }
  split; [exact Hin|].
  exact (X20_uncaught_exception_is_fatal _ "TypeError" "x is not a function" Hin).
Defined.

Lemma act_closed n s a : closed_within n s -> closed_within n (act s a).
Proof.
  intros H. unfold act. destruct (exited s); [exact H|]. destruct a; exact H.
Qed.

Lemma acts_closed n callback : forall s,
  closed_within n s -> closed_within n (foldl act s callback).
Proof.
  induction callback as [|a callback IH]; intros s H; [exact H|].
  cbn [foldl]. apply IH, act_closed, H.
Qed.

Lemma emit_close_closed n s : closed_within n s -> closed_within n (emit_close s).
Proof.
  intros H. unfold emit_close.
  destruct (negb (listening s) && (in_flight s =? 0)%nat); [|exact H].
  generalize (on_close s). intros callbacks.
  match goal with
  | |- closed_within n (foldl _ ?s0 _) =>
      assert (closed_within n s0) as H0 by (split; cbn; [reflexivity|lia]);
      revert H0; generalize s0
  end.
  induction callbacks as [|cb callbacks IH]; intros s0 H0; [exact H0|].
  cbn [foldl]. apply IH, acts_closed, H0.
Qed.

Lemma effects_closed n handler : forall s,
  closed_within n s -> closed_within n (foldl effect s handler).
Proof.
  induction handler as [|e handler IH]; intros s H; [exact H|].
  cbn [foldl]. apply IH. unfold effect. destruct (exited s); [exact H|].
  destruct e as [a|callback]; [apply act_closed, H|].
  destruct H as [_ Hn]. split; cbn; [reflexivity|exact Hn].
Qed.

Lemma step_closed n s ev : closed_within n s -> closed_within n (step s ev).
Proof.
  intros H. unfold step. destruct (exited s); [exact H|].
  destruct ev; try (apply emit_close_closed, effects_closed, H).
  - destruct H as [Hl Hn]. rewrite Hl. split; assumption.
  - apply emit_close_closed. destruct H as [Hl Hn]. split; cbn; [exact Hl|lia].
Qed.

Lemma run_closed n evs : forall s, closed_within n s -> closed_within n (run s evs).
Proof.
  induction evs as [|ev evs IH]; intros s H; [exact H|].
  unfold run. cbn [foldl]. fold (run (step s ev) evs). apply IH, step_closed, H.
Qed.

(** X21: a shutdown is final.  Once SIGTERM or an unhandled rejection has
    made the script close the server, the server never listens again,
    whatever follows: no connection is accepted any more, and the number
    of requests in flight only goes down. *)
Theorem X21_shutdown_is_final (s : Process) (ev : Event) (evs : list Event) :
  exited s = None ->
  ev = SIGTERM \/ (exists name msg, ev = UnhandledRejection name msg) ->
  let s' := run (step s ev) evs in
  listening s' = false /\ (in_flight s' <= in_flight s)%nat.
Proof.
  intros Hx Hev s'. subst s'. apply run_closed.
  unfold step. rewrite Hx.
  destruct Hev as [->|(name & msg & ->)]; apply emit_close_closed;
    unfold on_SIGTERM, on_unhandledRejection; cbn [foldl]; unfold effect, act;
    rewrite Hx; cbn; split; cbn; (reflexivity || lia).
Qed.

Lemma X21_shutdown_is_final_witness :
  let s := step booted Connection in
  let s' := run (step s SIGTERM) [Connection; Connection; Completion] in
  exited s = None
  /\ (SIGTERM = SIGTERM \/ exists name msg, SIGTERM = UnhandledRejection name msg)
  /\ listening s' = false /\ (in_flight s' <= in_flight s)%nat.
Proof.
  split; [reflexivity|]. split; [left; reflexivity|].
  exact (X21_shutdown_is_final (step booted Connection) SIGTERM
           [Connection; Connection; Completion] eq_refl (or_introl eq_refl)).
Defined.

End SupervisorInvariants.

Module StartupProperties.
Import Supervisor Startup.

Lemma rest_after_append m rest : rest_after m (m ++ rest) = Some rest.
Proof.
  induction m as [|a m IH]; [reflexivity|].
  change (rest_after (String a m) (String a (m ++ rest)) = Some rest).
  cbn [rest_after]. rewrite Ascii.eqb_refl. exact IH.
Qed.

Lemma split_at_sound pattern s : forall before after,
  split_at pattern s = Some (before, after) -> s = before ++ pattern ++ after.
Proof.
  induction s as [|c s IH]; intros before after; cbn [split_at].
  - destruct (rest_after pattern "") as [rest|] eqn:Hr; [|discriminate].
    intros H. injection H as <- <-. apply rest_after_app in Hr. exact Hr.
  - destruct (rest_after pattern (String c s)) as [rest|] eqn:Hr.
    + intros H. injection H as <- <-. apply rest_after_app in Hr. exact Hr.
    + destruct (split_at pattern s) as [[b a]|] eqn:Hs; [|discriminate].
      intros H. injection H as <- <-.
      change (String c s = String c (b ++ pattern ++ a)). f_equal. apply IH. reflexivity.
Qed.

Lemma split_at_complete pattern : forall before after,
  exists before' after', split_at pattern (before ++ pattern ++ after) = Some (before', after').
Proof.
  induction before as [|c before IH]; intros after.
  - change ("" ++ pattern ++ after) with (pattern ++ after).
    destruct pattern as [|a pattern].
    + destruct after; cbn [split_at rest_after]; eauto.
    + change (String a pattern ++ after) with (String a (pattern ++ after)).
      cbn [split_at]. change (String a (pattern ++ after)) with (String a pattern ++ after).
      rewrite rest_after_append. eauto.
  - change (String c before ++ pattern ++ after) with (String c (before ++ pattern ++ after)).
    cbn [split_at].
    destruct (rest_after pattern (String c (before ++ pattern ++ after))); [eauto|].
    destruct (IH after) as (b' & a' & ->). eauto.
Qed.

(** A string in which the search finds nothing holds no occurrence. *)
Lemma split_at_none pattern s :
  split_at pattern s = None -> forall before after, s <> before ++ pattern ++ after.
Proof.
  intros Hnone before after ->.
  destruct (split_at_complete pattern before after) as (b & a & H). congruence.
Qed.

Lemma split_at_first pattern c0 before after :
  pattern = String c0 (match pattern with String _ t => t | _ => "" end) ->
  c0 ∉ chars before ->
  split_at pattern (before ++ pattern ++ after) = Some (before, after).
Proof.
  intros Hpat. induction before as [|c before IH]; intros Hnot.
  - change ("" ++ pattern ++ after) with (pattern ++ after).
    rewrite Hpat at 2.
    match goal with |- split_at _ (String c0 ?t ++ after) = _ =>
      change (String c0 t ++ after) with (String c0 (t ++ after)) end.
    cbn [split_at].
    match goal with |- context [rest_after pattern ?s] =>
      replace s with (pattern ++ after) by (rewrite Hpat at 1; reflexivity) end.
    rewrite rest_after_append. reflexivity.
  - cbn [chars] in Hnot. apply not_elem_of_cons in Hnot as [Hne Hnot].
    change (String c before ++ pattern ++ after) with (String c (before ++ pattern ++ after)).
    cbn [split_at].
    assert (rest_after pattern (String c (before ++ pattern ++ after)) = None) as ->.
    { rewrite Hpat. cbn [rest_after].
      destruct (Ascii.eqb c0 c) eqn:He; [|reflexivity].
      apply Ascii.eqb_eq in He. congruence. }
    rewrite (IH Hnot). reflexivity.
Qed.

Lemma pattern_free_tail c t : pattern_free (String c t) -> pattern_free t.
Proof.
  intros H before d after Heq. apply (H (String c before) d after).
  rewrite Heq. reflexivity.
Qed.

Lemma substitution_plain matched before after template :
  pattern_free template -> substitution matched before after template = template.
Proof.
  induction template as [|c tail IH]; intros H; [reflexivity|].
  cbn [substitution]. pose proof (IH (pattern_free_tail c tail H)) as IH'.
  destruct (Ascii.eqb c "$") eqn:Hc; [|rewrite IH'; reflexivity].
  apply Ascii.eqb_eq in Hc. subst c.
  destruct tail as [|d rest]; [reflexivity|].
  destruct (H "" d rest eq_refl) as (H1 & H2 & H3 & H4).
  apply Ascii.eqb_neq in H1, H2, H3, H4. rewrite H1, H2, H3, H4, IH'. reflexivity.
Qed.

Lemma chars_app (a b : string) : chars (a ++ b) = (chars a ++ chars b)%list.
Proof.
  induction a as [|c a IH]; [reflexivity|].
  change (c :: chars (a ++ b) = c :: (chars a ++ chars b)%list). f_equal. exact IH.
Qed.

(** A text without a dollar holds no replacement pattern. *)
Lemma dollar_free template : "$"%char ∉ chars template -> pattern_free template.
Proof.
  intros Hnot before d after ->. exfalso. apply Hnot.
  rewrite chars_app. apply elem_of_app. right. cbn [chars]. apply elem_of_cons. left. reflexivity.
Qed.

Lemma substitution_dollars matched before after x y :
  "$"%char ∉ chars x -> pattern_free y ->
  substitution matched before after (x ++ "$$" ++ y) = x ++ "$" ++ y.
Proof.
  intros Hx Hy. induction x as [|c x IH].
  - change ("" ++ "$$" ++ y) with (String "$" (String "$" y)).
    cbn [substitution]. change (Ascii.eqb "$" "$") with true. cbv iota.
    rewrite (substitution_plain _ _ _ _ Hy). reflexivity.
  - cbn [chars] in Hx. apply not_elem_of_cons in Hx as [Hne Hx].
    change (String c x ++ "$$" ++ y) with (String c (x ++ "$$" ++ y)).
    cbn [substitution]. apply Ascii.eqb_neq in Hne. rewrite Ascii.eqb_sym, Hne.
    rewrite (IH Hx). reflexivity.
Qed.

(** X22: a DATABASE value that does not hold the placeholder <PASSWORD>
    is used as the connection string unchanged, whatever the password
    variable holds. *)
Theorem X22_db_without_placeholder (env : ProcessEnv) (template : string) :
  DATABASE env = Some template ->
  (forall before after, template <> before ++ "<PASSWORD>" ++ after) ->
  DB env = Some template.
Proof.
  intros Hd Hnone. unfold DB, replace. rewrite Hd.
  destruct (split_at "<PASSWORD>" template) as [[b a]|] eqn:Hs; [|reflexivity].
  apply split_at_sound in Hs. exfalso. exact (Hnone b a Hs).
Qed.

Lemma X22_db_without_placeholder_witness :
  DATABASE local_database = Some "mongodb://localhost:27017/natours"
  /\ (forall before after,
        "mongodb://localhost:27017/natours" <> before ++ "<PASSWORD>" ++ after)
  /\ DB local_database = Some "mongodb://localhost:27017/natours".
Proof.
  assert (forall before after,
            "mongodb://localhost:27017/natours" <> before ++ "<PASSWORD>" ++ after) as Hnone
    by (apply split_at_none; vm_compute; reflexivity).
  split; [reflexivity|]. split; [exact Hnone|].
  exact (X22_db_without_placeholder local_database _ eq_refl Hnone).
Defined.

(** X23: in a DATABASE value in which the first '<' opens the placeholder,
    the first <PASSWORD> is replaced by the password exactly as the
    variable holds it, provided the password holds none of the replacement
    patterns of [String.prototype.replace]; what follows the first
    placeholder is left alone, even another placeholder.  A password
    variable that is not set puts the text "undefined" there. *)
Theorem X23_db_password_substituted (env : ProcessEnv) (before after : string) :
  DATABASE env = Some (before ++ "<PASSWORD>" ++ after) ->
  "<"%char ∉ chars before ->
  pattern_free (default "undefined" (DATABASE_PASSWORD env)) ->
  DB env = Some (before ++ default "undefined" (DATABASE_PASSWORD env) ++ after).
Proof.
  intros Hd Hfirst Hplain. unfold DB, replace. rewrite Hd.
  rewrite (split_at_first "<PASSWORD>" "<" before after eq_refl Hfirst).
  rewrite (substitution_plain _ _ _ _ Hplain). reflexivity.
Qed.

Lemma X23_db_password_substituted_witness :
  let env := configured None in
  DATABASE env = Some (fst connection_template ++ "<PASSWORD>" ++ snd connection_template)
  /\ ("<"%char ∉ chars (fst connection_template))
  /\ pattern_free (default "undefined" (DATABASE_PASSWORD env))
  /\ DB env = Some (fst connection_template ++ default "undefined" (DATABASE_PASSWORD env)
                    ++ snd connection_template).
Proof.
  assert ("<"%char ∉ chars (fst connection_template)) as Hfirst
    by (apply (bool_decide_unpack _); vm_compute; exact I).
  assert (pattern_free (default "undefined" (DATABASE_PASSWORD (configured None)))) as Hplain
    by (apply dollar_free; apply (bool_decide_unpack _); vm_compute; exact I).
  split; [reflexivity|]. split; [exact Hfirst|]. split; [exact Hplain|].
  exact (X23_db_password_substituted (configured None) _ _ eq_refl Hfirst Hplain).
Defined.

(** X24: a password that holds two dollars in a row reaches the
    connection string with one of them: [replace] reads [$$] in its second
    argument as a single dollar. *)
Theorem X24_db_password_loses_a_dollar (env : ProcessEnv) (before after x y : string) :
  DATABASE env = Some (before ++ "<PASSWORD>" ++ after) ->
  "<"%char ∉ chars before ->
  DATABASE_PASSWORD env = Some (x ++ "$$" ++ y) ->
  "$"%char ∉ chars x -> pattern_free y ->
  DB env = Some (before ++ (x ++ "$" ++ y) ++ after).
Proof.
  intros Hd Hfirst Hpw Hx Hy. unfold DB, replace. rewrite Hd, Hpw. cbn [default from_option id].
  rewrite (split_at_first "<PASSWORD>" "<" before after eq_refl Hfirst).
  rewrite (substitution_dollars _ _ _ x y Hx Hy). reflexivity.
Qed.

Lemma X24_db_password_loses_a_dollar_witness :
  let env := configured (Some ("pa" ++ "$$" ++ "word")) in
  DATABASE env = Some (fst connection_template ++ "<PASSWORD>" ++ snd connection_template)
  /\ ("<"%char ∉ chars (fst connection_template))
  /\ DATABASE_PASSWORD env = Some ("pa" ++ "$$" ++ "word")
  /\ ("$"%char ∉ chars "pa") /\ pattern_free "word"
  /\ DB env = Some (fst connection_template ++ ("pa" ++ "$" ++ "word")
                    ++ snd connection_template).
Proof.
  assert ("<"%char ∉ chars (fst connection_template)) as Hfirst
    by (apply (bool_decide_unpack _); vm_compute; exact I).
  assert ("$"%char ∉ chars "pa") as Hx
    by (apply (bool_decide_unpack _); vm_compute; exact I).
  assert (pattern_free "word") as Hy
    by (apply dollar_free; apply (bool_decide_unpack _); vm_compute; exact I).
  split; [reflexivity|]. split; [exact Hfirst|]. split; [reflexivity|].
  split; [exact Hx|]. split; [exact Hy|].
  exact (X24_db_password_loses_a_dollar (configured (Some ("pa" ++ "$$" ++ "word")))
           _ _ "pa" "word" eq_refl Hfirst eq_refl Hx Hy).
Defined.

(** X25: when DATABASE is not set, the script never starts the server:
    the TypeError of line 13 reaches the handler of uncaught exceptions,
    installed on line 4, which writes its two lines and exits with status
    1; whatever follows, the process stays exited, the server does not
    listen and nothing more is written. *)
Theorem X25_missing_database_is_fatal (env : ProcessEnv) (type_error : string)
    (evs : list Event) :
  DATABASE env = None ->
  let s := run (start_up env type_error) evs in
  exited s = Some 1%Z /\ listening s = false /\ in_flight s = 0%nat
  /\ output s = [ "UNCAUGHT EXCEPTION! 💥 Shutting down..."; "TypeError " ++ type_error ].
Proof.
  intros Hd s. subst s. unfold start_up, DB. rewrite Hd.
  rewrite SupervisorProperties.run_exited by discriminate.
  repeat split.
Qed.

Lemma X25_missing_database_is_fatal_witness :
  let s := run (start_up unconfigured "Cannot read property 'replace' of undefined")
               [Connection; SIGTERM] in
  DATABASE unconfigured = None
  /\ exited s = Some 1%Z /\ listening s = false /\ in_flight s = 0%nat
  /\ output s = [ "UNCAUGHT EXCEPTION! 💥 Shutting down...";
                  "TypeError " ++ "Cannot read property 'replace' of undefined" ].
Proof.
  split; [reflexivity|].
  exact (X25_missing_database_is_fatal unconfigured
           "Cannot read property 'replace' of undefined" [Connection; SIGTERM] eq_refl).
Defined.

End StartupProperties.

(** * Properties of the scripts of the browser *)

Module BookingProperties.
Import Startup Booking.

Lemma lower_app (a b : string) : lower (a ++ b) = lower a ++ lower b.
Proof.
  induction a as [|c a IH]; [reflexivity|].
  change (String (lower_ascii c) (lower (a ++ b)) = String (lower_ascii c) (lower a ++ lower b)).
  f_equal. exact IH.
Qed.

Lemma checkout_mounts tourId :
  under_mount "/api" (checkout_session_url tourId) = true
  /\ under_mount "/api/v1/bookings" (checkout_session_url tourId) = true.
Proof.
  unfold checkout_session_url, under_mount. rewrite lower_app.
  generalize (lower tourId). intros t. split; vm_compute; reflexivity.
Qed.

Lemma limiter_reached E L C now w st q p :
  method w <> OPTIONS -> serve_static E (incoming w q) = Next p ->
  under_mount "/api" (path w) = true ->
  Limiter ∈ stages (serve E L C now st w q).
Proof.
  intros Ho Hs Hapi. unfold serve, stages, finish. cbn [calls].
  rewrite app_around_limiter, handle_app, (before_limiter_passes E L C now w st q p Ho Hs).
  rewrite handle_app.
  match goal with
  | |- context [handle E L C now w downstream ?x] =>
      destruct (handle_trace E L C now w downstream x) as (extra & -> & _)
  end.
  unfold handle. cbn [foldl]. erewrite step_use by (reflexivity || exact Hapi).
  rewrite call_trace, !fmap_app. apply elem_of_app. left.
  apply elem_of_app. right. apply list_elem_of_singleton. reflexivity.
Qed.

(** X26: the request that [bookTour] sends for the checkout session of a
    tour is a request of the API of [app.js]: among the API routers only
    the booking router can be called for it, never the routers of the
    tours, users or reviews; and unless the public directory holds
    something at its path, it reaches the rate limiter and is counted
    against the quota of its client. *)
Theorem X26_checkout_request_routing (E : Env) (L : Library) (C : Collaborators)
    (now : Z) (st : AppState) (w : Wire) (q : gmap string Value) (tourId : string) :
  checkout_request tourId w ->
  let r := serve E L C now st w q in
  Forall (fun s => s <> TourRouter /\ s <> UserRouter /\ s <> ReviewRouter) (stages r)
  /\ (public E (path w) = Miss ->
      Limiter ∈ stages r /\ store' r = snd (counted now w st)).
Proof.
  intros (_ & Hm & Hp) r. subst r.
  destruct (checkout_mounts tourId) as [Hapi Hbook]. rewrite <- Hp in Hapi, Hbook.
  split.
  - apply Forall_forall. intros s Hs.
    assert (forall m s', (m, s') ∈ api_mounts -> s' <> BookingRouter -> s <> s') as Hnot.
    { intros m s' Hin Hne ->.
      apply called_matches in Hs as (l & Hl & Hsl & Hmatch).
      rewrite (api_router_layer E l m s' Hin Hl Hsl) in Hmatch. cbn [matches] in Hmatch.
      apply Hne. eapply (api_mounts_disjoint (path w) m s' "/api/v1/bookings" BookingRouter);
        [exact Hin| |exact Hmatch|exact Hbook].
      unfold api_mounts. do 3 (apply elem_of_cons; right). apply elem_of_cons. left. reflexivity. }
    repeat split.
    + apply (Hnot "/api/v1/tours"); [|discriminate]. apply elem_of_cons. left. reflexivity.
    + apply (Hnot "/api/v1/users"); [|discriminate].
      apply elem_of_cons. right. apply elem_of_cons. left. reflexivity.
    + apply (Hnot "/api/v1/reviews"); [|discriminate].
      do 2 (apply elem_of_cons; right). apply elem_of_cons. left. reflexivity.
  - intros Hmiss.
    assert (Limiter ∈ stages (serve E L C now st w q)) as Hin.
    { eapply limiter_reached; [rewrite Hm; discriminate| |exact Hapi].
      unfold serve_static. cbn [incoming wire props]. rewrite Hm, Hmiss. reflexivity. }
    split; [exact Hin|].
    destruct (limiter_accounting E L C now w st q) as [(Hno & _)|(_ & _ & Hst & _)];
      [contradiction|exact Hst].
Qed.

Lemma X26_checkout_request_routing_witness :
  let w := get (checkout_session_url tour_id) None client in
  let r := serve production lenient bare 0 fresh_store w ∅ in
  checkout_request tour_id w
  /\ Forall (fun s => s <> TourRouter /\ s <> UserRouter /\ s <> ReviewRouter) (stages r)
  /\ (public production (path w) = Miss ->
      Limiter ∈ stages r /\ store' r = snd (counted 0 w fresh_store)).
Proof.
  assert (checkout_request tour_id (get (checkout_session_url tour_id) None client)) as H.
  { split; [vm_compute; reflexivity|]. split; reflexivity. }
  split; [exact H|].
  exact (X26_checkout_request_routing production lenient bare 0 fresh_store
           (get (checkout_session_url tour_id) None client) ∅ tour_id H).
Defined.

End BookingProperties.

Module MapClientProperties.
Import MapClient.

Section Drawn.
Context {Coordinates : Type} (accepted : Coordinates -> bool).


(** What is drawn when a location is refused: the locations before it,
    and the element of its marker. *)
Lemma draw_all_refused (good : list (@Location Coordinates)) bad rest :
  Forall (fun loc => accepted (coordinates loc) = true) good ->
  accepted (coordinates bad) = false ->
  exists calls,
    draw_all accepted (good ++ bad :: rest) = (calls, true)
    /\ markers calls = coordinates <$> good
    /\ popups calls = (fun loc => (coordinates loc, popup_html loc)) <$> good
    /\ extended calls = coordinates <$> good
    /\ Forall (fun c => is_fit c = false) calls.
Proof.
  intros Hall Hbad. induction good as [|loc good IH].
  - cbn [List.app draw_all]. unfold draw. rewrite Hbad.
    eexists. split; [reflexivity|]. repeat split. repeat constructor.
  - inversion Hall as [|? ? Hloc Hrest]; subst.
    destruct (IH Hrest) as (more & Hd & Hm & Hp & He & Hf).
    change ((loc :: good) ++ bad :: rest)%list with (loc :: (good ++ bad :: rest))%list.
    cbn [draw_all]. unfold draw at 1. rewrite Hloc, Hd.
    eexists. split; [reflexivity|].
    unfold markers, popups, extended in *. cbn [flat_map List.app].
    rewrite Hm, Hp, He. repeat split. repeat (constructor; [reflexivity|]). exact Hf.
Qed.

End Drawn.



(** X28: when the map library refuses the coordinates of a location,
    [displayMap] throws there: the locations before it are drawn as usual,
    no marker, popup or bound is made for the refused location or for any
    location after it, and the map is never fitted. *)
Theorem X28_map_stops_at_refused_location {Coordinates : Type}
    (accepted : Coordinates -> bool) (good rest : list (@Location Coordinates))
    (bad : @Location Coordinates) :
  Forall (fun loc => accepted (coordinates loc) = true) good ->
  accepted (coordinates bad) = false ->
  let '(calls, threw) := displayMap accepted (good ++ bad :: rest) in
  threw = true
  /\ markers calls = coordinates <$> good
  /\ popups calls = (fun loc => (coordinates loc, popup_html loc)) <$> good
  /\ extended calls = coordinates <$> good
  /\ Forall (fun c => is_fit c = false) calls.
Proof.
  intros Hall Hbad.
  destruct (draw_all_refused accepted good bad rest Hall Hbad) as (calls & Hd & Hm & Hp & He & Hf).
  unfold displayMap. rewrite Hd.
  split; [reflexivity|]. unfold markers, popups, extended in *. cbn [flat_map List.app].
  repeat split; try assumption. constructor; [reflexivity|exact Hf].
Qed.

Lemma X28_map_stops_at_refused_location_witness :
  Forall (fun loc => in_range (coordinates loc) = true) [miami]
  /\ in_range (coordinates nowhere) = false
  /\ let '(calls, threw) := displayMap in_range ([miami] ++ nowhere :: [miami]) in
     threw = true
     /\ markers calls = coordinates <$> [miami]
     /\ popups calls = (fun loc => (coordinates loc, popup_html loc)) <$> [miami]
     /\ extended calls = coordinates <$> [miami]
     /\ Forall (fun c => is_fit c = false) calls.
Proof.
  assert (Forall (fun loc => in_range (coordinates loc) = true) [miami]) as H
    by (repeat constructor).
  split; [exact H|]. split; [reflexivity|].
  exact (X28_map_stops_at_refused_location in_range [miami] [miami] nowhere H eq_refl).
Defined.

End MapClientProperties.
